(** * dg1d/euler/euler.py: 1-D discontinuous Galerkin solver for the Euler equations

    A shallow embedding of the solver script.

    - Floating-point numbers are idealised as real numbers.
    - numpy arrays are lists (1-D) and lists of rows (2-D).  Indexing and
      shape-sensitive operations are fallible and raise like their Python
      originals; indices are integers, negative ones counting from the end.
    - The script consists of module-level statements.  They are grouped
      into one function per block of lines; the nine arrays the script
      allocates form the record [State], threaded through the loops, and
      the scalars of the time loop are added in [Sim].
    - The modules the script imports but does not contain ([basis], [sod],
      [numpy.polynomial.legendre.leggauss]) are parameters.  Module
      [limiter] is imported by the script, but no name of it is ever used.
    - The figure ([init_plot], [update_plot]) does not touch the arrays:
      [main] is the script without it, and [main_plot], further down, the
      script with it.  The pause for [raw_input] and [plt.show] are left
      out, as are [xc] and [x] of lines 137-138, which are computed and
      never read. *)

From stdpp Require Import prelude strings.
From Stdlib Require Import Reals Lra.

#[local] Unset Default Proof Using.
#[local] Open Scope R_scope.

#[global] Instance R_inhabited : Inhabited R := populate 0.

(** ** Python exceptions as an error monad *)

Inductive exn : Set := IndexError | ValueError | ZeroDivisionError.

Inductive result (A : Type) : Type :=
| Ok (a : A)
| Raise (e : exn).
Arguments Ok {A} a.
Arguments Raise {A} e.

Definition bind {A B : Type} (m : result A) (k : A -> result B) : result B :=
  match m with
  | Ok a => k a
  | Raise e => Raise e
  end.

Notation "x <- m ;; k" := (bind m (fun x => k))
  (at level 20, m at level 99, k at level 200, format "'[v' x  <-  m  ;; '/' k ']'").
Notation "' p <- m ;; k" := (bind m (fun x => match x with p => k end))
  (at level 20, p pattern, m at level 99, k at level 200, only parsing).

(** [for i in l: body] over a mutable state. *)
Fixpoint for_each {I S : Type} (l : list I) (body : I -> S -> result S) (s : S)
  : result S :=
  match l with
  | [] => Ok s
  | i :: l' => s' <- body i s ;; for_each l' body s'
  end.

Fixpoint map_result {A B : Type} (f : A -> result B) (l : list A) : result (list B) :=
  match l with
  | [] => Ok []
  | a :: l' => b <- f a ;; bs <- map_result f l' ;; Ok (b :: bs)
  end.

(** [range(a, b)] *)
Definition range (a b : nat) : list Z := map Z.of_nat (seq a (b - a)).

(** ** numpy arrays *)

Abbreviation vector := (list R).
Abbreviation matrix := (list (list R)).

(** Python index normalisation: [-len <= i < len], negative counts from the end. *)
Definition index (len : nat) (i : Z) : result nat :=
  if (0 <=? i)%Z then
    if (i <? Z.of_nat len)%Z then Ok (Z.to_nat i) else Raise IndexError
  else
    if (- Z.of_nat len <=? i)%Z then Ok (Z.to_nat (Z.of_nat len + i)) else Raise IndexError.

(** [a[i]] *)
Definition getitem {A : Type} (a : list A) (i : Z) : result A :=
  n <- index (length a) i ;;
  match a !! n with
  | Some x => Ok x
  | None => Raise IndexError
  end.

(** [a[i] = x] *)
Definition setitem {A : Type} (a : list A) (i : Z) (x : A) : result (list A) :=
  n <- index (length a) i ;; Ok (<[n:=x]> a).

(** [a[i,j] = x] *)
Definition setitem2 (a : matrix) (i j : Z) (x : R) : result matrix :=
  r <- getitem a i ;; r' <- setitem r j x ;; setitem a i r'.

(** [a[:,j]] *)
Definition column (a : matrix) (j : Z) : result vector :=
  map_result (fun r => getitem r j) a.

(** Elementwise binary operation on two 1-D arrays of the same length (the
    script never relies on broadcasting between arrays). *)
Definition elementwise (f : R -> R -> R) (a b : vector) : result vector :=
  if decide (length a = length b) then Ok (zip_with f a b) else Raise ValueError.

Definition vsum (a : vector) : R := foldr Rplus 0 a.

(** Total inner product, used on the specification side. *)
Definition dotp (a b : vector) : R := vsum (zip_with Rmult a b).

(** [a.dot(b)] for 1-D arrays *)
Definition dot (a b : vector) : result R :=
  p <- elementwise Rmult a b ;; Ok (vsum p).

(** [c*a] for a scalar [c] *)
Definition scale (c : R) (a : vector) : vector := map (Rmult c) a.

(** [M.dot(v)] for a 2-D array [M] and a 1-D array [v] *)
Definition matvec (M : matrix) (v : vector) : result vector :=
  map_result (fun r => dot r v) M.

(** Elementwise binary operation on two 2-D arrays of the same shape. *)
Definition elementwise2 (f : R -> R -> R) (a b : matrix) : result matrix :=
  if decide (length a = length b)
  then map_result (fun ab => elementwise f ab.1 ab.2) (zip a b)
  else Raise ValueError.

Definition scale2 (c : R) (a : matrix) : matrix := map (scale c) a.

(** [dst[:,:] = src]: the values of [src] are copied into the buffer of
    [dst], which must have the same shape. *)
Definition assign_all (dst src : matrix) : result matrix :=
  if decide (map length dst = map length src) then Ok src else Raise ValueError.

(** [np.zeros((n,m))] *)
Definition zeros2 (n m : nat) : matrix := replicate n (replicate m 0).

(** [np.linspace(a, b, n)]: [n] equally spaced points, the last one [b]. *)
Definition linspace (a b : R) (n : nat) : vector :=
  map (fun i => if decide (S i = n) then b else a + INR i * ((b - a) / INR (n - 1)))
      (seq 0 n).

(** An [n] by [m] array. *)
Definition shaped (n m : nat) (a : matrix) : Prop :=
  length a = n /\ Forall (fun r => length r = m) a.

(** ** Script state *)

(** The nine [nc] by [nd] arrays allocated by the script. *)
Record State : Type := mkState {
  rho0 : matrix; rho1 : matrix;
  mom0 : matrix; mom1 : matrix;
  ene0 : matrix; ene1 : matrix;
  resr : matrix; resm : matrix; rese : matrix
}.

Definition set_res (s : State) (r m e : matrix) : State :=
  mkState (rho0 s) (rho1 s) (mom0 s) (mom1 s) (ene0 s) (ene1 s) r m e.

Definition set_u1 (s : State) (r m e : matrix) : State :=
  mkState (rho0 s) r (mom0 s) m (ene0 s) e (resr s) (resm s) (rese s).

Definition set_u0 (s : State) (r m e : matrix) : State :=
  mkState r (rho1 s) m (mom1 s) e (ene1 s) (resr s) (resm s) (rese s).

(** The scalars of the time loop together with the arrays. *)
Record Sim : Type := mkSim {
  arrays : State;
  it : Z;
  t : R;
  dt : R;
  lam : R
}.

(** SSPRK3 coefficients *)
Definition ark : vector := [0; 3 / 4; 1 / 3].
Definition brk : vector := map (fun a => 1 - a) ark.

(** Command-line arguments, as argparse delivers them. *)
Inductive yesno : Set := no | yes.

Record Args : Type := mkArgs {
  ncell : Z;
  degree : Z;
  cfl_arg : R;
  Tf_arg : R;
  plot_freq : Z;
  ic : string;
  limit : yesno;
  tvbM : R
}.

(** How a run of the script ends: [exit()] on an unknown initial condition,
    the time loop left with [t >= Tf], or (for the model only) the loop
    still running when the step budget is used up. *)
Inductive outcome : Type :=
| Exited
| Completed (s : Sim)
| Running (s : Sim).

Section Solver.

(** *** Collaborators that are not part of the script *)

(** module [basis] *)
Variables shape_value shape_grad : Z -> R -> R.
(** module [sod] *)
Variables xmin xmax : R.
Variable initial_condition : vector -> vector * vector * vector.
Variable flux : vector -> vector -> vector -> vector * vector * vector.
Variable numflux : R * R * R -> R * R * R -> R * R * R.
Variable max_speed : matrix -> matrix -> matrix -> R.
(** [np.polynomial.legendre.leggauss] *)
Variable leggauss : Z -> vector * vector.

(** *** Vandermonde tables (lines 46-61), filled entry by entry into
    arrays of zeros *)

Definition gauss_tables (nd : nat) (xg : vector) : result (matrix * matrix) :=
  for_each (range 0 nd) (fun i =>
    for_each (range 0 nd) (fun j '(Vf, Vg) =>
      x <- getitem xg i ;;
      Vf' <- setitem2 Vf i j (shape_value j x) ;;
      x <- getitem xg i ;;
      Vg' <- setitem2 Vg i j (shape_grad j x) ;;
      Ok (Vf', Vg')))
    (zeros2 nd nd, zeros2 nd nd).

Definition uniform_table (nu nd : nat) (xu : vector) : result matrix :=
  for_each (range 0 nu) (fun i =>
    for_each (range 0 nd) (fun j Vu =>
      x <- getitem xu i ;;
      setitem2 Vu i j (shape_value j x)))
    (zeros2 nu nd).

Section Mesh.

(** Script globals fixed before the time loop. *)
Variables nc nd : nat.
Variable dx : R.
Variables xg wg : vector.
Variables Vf Vg Vu : matrix.

(** [V[:,j]*wg] *)
Definition weighted_column (V : matrix) (j : Z) : result vector :=
  c <- column V j ;; elementwise Rmult c wg.

(** [a[i,:].dot(Vu[e,:])] *)
Definition edge_value (a : matrix) (i e : Z) : result R :=
  r <- getitem a i ;; v <- getitem Vu e ;; dot r v.

(** [a[i,:] += v] and [a[i,:] -= v] *)
Definition iadd_row (a : matrix) (i : Z) (v : vector) : result matrix :=
  r <- getitem a i ;; r' <- elementwise Rplus r v ;; setitem a i r'.

Definition isub_row (a : matrix) (i : Z) (v : vector) : result matrix :=
  r <- getitem a i ;; r' <- elementwise Rminus r v ;; setitem a i r'.

(** *** L2 projection of the initial condition (lines 108-115) *)

Definition project (s : State) : result State :=
  for_each (range 0 nc) (fun i s =>
    let xc := xmin + IZR i * dx + 0.5 * dx in
    let x := map (fun g => xc + 0.5 * dx * g) xg in
    let '(rho, mom, ene) := initial_condition x in
    for_each (range 0 nd) (fun j s =>
      w <- weighted_column Vf j ;; a <- dot rho w ;;
      rho1' <- setitem2 (rho1 s) i j (0.5 * a) ;;
      w <- weighted_column Vf j ;; a <- dot mom w ;;
      mom1' <- setitem2 (mom1 s) i j (0.5 * a) ;;
      w <- weighted_column Vf j ;; a <- dot ene w ;;
      ene1' <- setitem2 (ene1 s) i j (0.5 * a) ;;
      Ok (set_u1 s rho1' mom1' ene1')) s) s.

(** *** Cell integrals (lines 136-146) *)

Definition volume_integrals (s : State) : result State :=
  for_each (range 0 nc) (fun i s =>
    r <- getitem (rho1 s) i ;; rho <- matvec Vf r ;;
    m <- getitem (mom1 s) i ;; mom <- matvec Vf m ;;
    e <- getitem (ene1 s) i ;; ene <- matvec Vf e ;;
    let '(frho, fmom, fene) := flux rho mom ene in
    for_each (range 0 nd) (fun j s =>
      w <- weighted_column Vg j ;; a <- dot frho w ;;
      resr' <- setitem2 (resr s) i j (- a) ;;
      w <- weighted_column Vg j ;; a <- dot fmom w ;;
      resm' <- setitem2 (resm s) i j (- a) ;;
      w <- weighted_column Vg j ;; a <- dot fene w ;;
      rese' <- setitem2 (rese s) i j (- a) ;;
      Ok (set_res s resr' resm' rese')) s) s.

(** *** First face (lines 147-157) *)

Definition first_face (s : State) : result State :=
  rhol <- edge_value (rho1 s) 0 0 ;;
  rhor <- edge_value (rho1 s) 0 0 ;;
  moml <- edge_value (mom1 s) 0 0 ;;
  momr <- edge_value (mom1 s) 0 0 ;;
  enel <- edge_value (ene1 s) 0 0 ;;
  ener <- edge_value (ene1 s) 0 0 ;;
  let f := numflux (rhol, moml, enel) (rhor, momr, ener) in
  v <- getitem Vu 0 ;; resr' <- isub_row (resr s) 0 (scale f.1.1 v) ;;
  v <- getitem Vu 0 ;; resm' <- isub_row (resm s) 0 (scale f.1.2 v) ;;
  v <- getitem Vu 0 ;; rese' <- isub_row (rese s) 0 (scale f.2 v) ;;
  Ok (set_res s resr' resm' rese').

(** *** Internal faces (lines 158-173): left cell [i-1], right cell [i] *)

Definition interior_face (i : Z) (s : State) : result State :=
  rhol <- edge_value (rho1 s) (i - 1) (-1) ;;
  rhor <- edge_value (rho1 s) i 0 ;;
  moml <- edge_value (mom1 s) (i - 1) (-1) ;;
  momr <- edge_value (mom1 s) i 0 ;;
  enel <- edge_value (ene1 s) (i - 1) (-1) ;;
  ener <- edge_value (ene1 s) i 0 ;;
  let f := numflux (rhol, moml, enel) (rhor, momr, ener) in
  v <- getitem Vu (-1) ;; resr' <- iadd_row (resr s) (i - 1) (scale f.1.1 v) ;;
  v <- getitem Vu 0 ;; resr'' <- isub_row resr' i (scale f.1.1 v) ;;
  v <- getitem Vu (-1) ;; resm' <- iadd_row (resm s) (i - 1) (scale f.1.2 v) ;;
  v <- getitem Vu 0 ;; resm'' <- isub_row resm' i (scale f.1.2 v) ;;
  v <- getitem Vu (-1) ;; rese' <- iadd_row (rese s) (i - 1) (scale f.2 v) ;;
  v <- getitem Vu 0 ;; rese'' <- isub_row rese' i (scale f.2 v) ;;
  Ok (set_res s resr'' resm'' rese'').

Definition interior_faces (s : State) : result State :=
  for_each (range 1 nc) interior_face s.

(** *** Last face (lines 174-184) *)

Definition last_face (s : State) : result State :=
  rhol <- edge_value (rho1 s) (-1) 0 ;;
  rhor <- edge_value (rho1 s) (-1) 0 ;;
  moml <- edge_value (mom1 s) (-1) 0 ;;
  momr <- edge_value (mom1 s) (-1) 0 ;;
  enel <- edge_value (ene1 s) (-1) 0 ;;
  ener <- edge_value (ene1 s) (-1) 0 ;;
  let f := numflux (rhol, moml, enel) (rhor, momr, ener) in
  v <- getitem Vu 0 ;; resr' <- iadd_row (resr s) (-1) (scale f.1.1 v) ;;
  v <- getitem Vu 0 ;; resm' <- iadd_row (resm s) (-1) (scale f.1.2 v) ;;
  v <- getitem Vu 0 ;; rese' <- iadd_row (rese s) (-1) (scale f.2 v) ;;
  Ok (set_res s resr' resm' rese').

(** The spatial residual of one stage: cell integrals, then the faces. *)
Definition assemble (s : State) : result State :=
  s <- volume_integrals s ;;
  s <- first_face s ;;
  s <- interior_faces s ;;
  last_face s.

(** *** Runge-Kutta stage (lines 134-188) *)

(** [u1[:,:] = ark[rk]*u0 + brk[rk]*(u1 - lam*res)] *)
Definition rk_update (rk : Z) (lam : R) (u0 u1 res : matrix) : result matrix :=
  a <- getitem ark rk ;;
  b <- getitem brk rk ;;
  d <- elementwise2 Rminus u1 (scale2 lam res) ;;
  v <- elementwise2 Rplus (scale2 a u0) (scale2 b d) ;;
  assign_all u1 v.

Definition rk_stage (lam : R) (rk : Z) (s : State) : result State :=
  s <- assemble s ;;
  rho1' <- rk_update rk lam (rho0 s) (rho1 s) (resr s) ;;
  mom1' <- rk_update rk lam (mom0 s) (mom1 s) (resm s) ;;
  ene1' <- rk_update rk lam (ene0 s) (ene1 s) (rese s) ;;
  Ok (set_u1 s rho1' mom1' ene1').

(** *** One pass through the body of the time loop (lines 128-189) *)

Definition time_step (Tf : R) (σ : Sim) : result Sim :=
  let '(dt', lam') :=
    if Rgt_dec (t σ + dt σ) Tf
    then (Tf - t σ, (Tf - t σ) / dx)
    else (dt σ, lam σ) in
  let s := arrays σ in
  rho0' <- assign_all (rho0 s) (rho1 s) ;;
  mom0' <- assign_all (mom0 s) (mom1 s) ;;
  ene0' <- assign_all (ene0 s) (ene1 s) ;;
  s' <- for_each (range 0 3) (rk_stage lam') (set_u0 s rho0' mom0' ene0') ;;
  Ok (mkSim s' (it σ + 1) (t σ + dt') dt' lam').

(** *** The time loop (lines 127-191), with a step budget *)

Fixpoint time_loop (Tf : R) (fuel : nat) (σ : Sim) : result outcome :=
  if Rlt_dec (t σ) Tf then
    match fuel with
    | O => Ok (Running σ)
    | S fuel' => σ' <- time_step Tf σ ;; time_loop Tf fuel' σ'
    end
  else Ok (Completed σ).

(** *** Lines 96-126: allocation, projection, first time step size *)

Definition start (cfl : R) : result Sim :=
  let z := zeros2 nc nd in
  s <- project (mkState z z z z z z z z z) ;;
  let dt0 := cfl * dx / max_speed (rho1 s) (mom1 s) (ene1 s) in
  Ok (mkSim s 0 0 dt0 (dt0 / dx)).

End Mesh.

(** [np.zeros((n,m))] refuses negative dimensions. *)
Definition np_zeros (n m : Z) : result matrix :=
  if decide (n < 0 \/ m < 0)%Z then Raise ValueError
  else Ok (zeros2 (Z.to_nat n) (Z.to_nat m)).

(** [a/n] with a Python float [a] and a Python integer [n] (line 40):
    Python refuses to divide by zero. *)
Definition pydiv (a : R) (n : Z) : result R :=
  if (n =? 0)%Z then Raise ZeroDivisionError else Ok (a / IZR n).

(** [np.polynomial.legendre.leggauss(n)] (line 44): numpy refuses a number
    of points that is not positive; for [n >= 1] the nodes and weights are
    those of the parameter [leggauss]. *)
Definition np_leggauss (n : Z) : result (vector * vector) :=
  if (n <? 1)%Z then Raise ValueError else Ok (leggauss n).

(** *** The script

    Lines 29-126 in the order of the source, then the time loop.  The
    division of line 36 is by [2*k+1], which is never zero; the division
    of line 40 raises for a cell count of zero, [leggauss] of line 44 for
    a negative degree, and [np.zeros] of line 97 for a negative cell
    count. *)

Definition main (args : Args) (fuel : nat) : result outcome :=
  if String.eqb (ic args) "sod"%string then
    let k := degree args in
    let cfl := cfl_arg args / IZR (2 * k + 1) in
    let nc := ncell args in
    let nd := (k + 1)%Z in
    dx <- pydiv (xmax - xmin) nc ;;
    let Mdx2 := tvbM args * dx ^ 2 in
    '(xg, wg) <- np_leggauss (k + 1) ;;
    _ <- np_zeros nd nd ;;
    '(Vf, Vg) <- gauss_tables (Z.to_nat nd) xg ;;
    let nu := Z.max 2 (k + 1) in
    let xu := linspace (-1) 1 (Z.to_nat nu) in
    _ <- np_zeros nu (k + 1) ;;
    Vu <- uniform_table (Z.to_nat nu) (Z.to_nat nd) xu ;;
    _ <- np_zeros nc nd ;;
    σ <- start (Z.to_nat nc) (Z.to_nat nd) dx xg wg Vf cfl ;;
    time_loop (Z.to_nat nc) (Z.to_nat nd) dx wg Vf Vg Vu (Tf_arg args) fuel σ
  else Ok Exited.

End Solver.

(** * Specification-side definitions *)

(** [a[:,j]] as a total function *)
Definition columnp (a : matrix) (j : nat) : vector := map (fun r => r !!! j) a.

(** [fill n new old]: the first [n] entries already overwritten. *)
Definition fill {A : Type} (n : nat) (new old : list A) : list A :=
  take n new ++ drop n old.

(** The basis functions [0 .. nd-1] evaluated at one point, and at a list
    of points: the closed form of the Vandermonde tables. *)
Definition basis_row (f : Z -> R -> R) (nd : nat) (x : R) : vector :=
  map (fun j => f (Z.of_nat j) x) (seq 0 nd).

Definition table (f : Z -> R -> R) (nd : nat) (pts : vector) : matrix :=
  map (basis_row f nd) pts.

(** [V[:,j]*wg], [V.dot(c)] and the moments [f.dot(V[:,j]*wg)], [j < nd]. *)
Definition weighted_columnp (wg : vector) (V : matrix) (j : nat) : vector :=
  zip_with Rmult (columnp V j) wg.

Definition at_points (V : matrix) (c : vector) : vector :=
  map (fun r => dotp r c) V.

Definition moments (wg : vector) (V : matrix) (nd : nat) (f : vector) : vector :=
  map (fun j => dotp f (weighted_columnp wg V j)) (seq 0 nd).

(** The arrays have the shape the script allocates them with. *)
Definition well_shaped (nc nd : nat) (s : State) : Prop :=
  shaped nc nd (rho0 s) /\ shaped nc nd (rho1 s) /\
  shaped nc nd (mom0 s) /\ shaped nc nd (mom1 s) /\
  shaped nc nd (ene0 s) /\ shaped nc nd (ene1 s) /\
  shaped nc nd (resr s) /\ shaped nc nd (resm s) /\ shaped nc nd (rese s).

(** [flux] is elementwise: it returns three arrays as long as its arguments. *)
Definition elementwise_flux
    (flux : vector -> vector -> vector -> vector * vector * vector) : Prop :=
  forall a b c : vector, length a = length b -> length b = length c ->
    length (flux a b c).1.1 = length a /\
    length (flux a b c).1.2 = length a /\
    length (flux a b c).2 = length a.

(** The flux at the Gauss points of cell [i]. *)
Definition cell_flux (flux : vector -> vector -> vector -> vector * vector * vector)
    (Vf : matrix) (s : State) (i : nat) : vector * vector * vector :=
  flux (at_points Vf (rho1 s !!! i)) (at_points Vf (mom1 s !!! i))
       (at_points Vf (ene1 s !!! i)).

(** The residual arrays as the cell-integral loop leaves them. *)
Definition volume_rows (flux : vector -> vector -> vector -> vector * vector * vector)
    (nc nd : nat) (wg : vector) (Vf Vg : matrix)
    (pick : vector * vector * vector -> vector) (s : State) : matrix :=
  map (fun i => map Ropp (moments wg Vg nd (pick (cell_flux flux Vf s i)))) (seq 0 nc).

Definition after_volume (flux : vector -> vector -> vector -> vector * vector * vector)
    (nc nd : nat) (wg : vector) (Vf Vg : matrix) (s : State) : State :=
  set_res s (volume_rows flux nc nd wg Vf Vg (fun f => f.1.1) s)
            (volume_rows flux nc nd wg Vf Vg (fun f => f.1.2) s)
            (volume_rows flux nc nd wg Vf Vg (fun f => f.2) s).

(** [a[i,:].dot(Vu[e,:])] with both indices already normalised, and the
    three conserved fields of cell [i] evaluated with row [e] of [Vu]. *)
Definition edge (Vu : matrix) (e : nat) (a : matrix) (i : nat) : R :=
  dotp (a !!! i) (Vu !!! e).

Definition edge_state (Vu : matrix) (e : nat) (s : State) (i : nat) : R * R * R :=
  (edge Vu e (rho1 s) i, edge Vu e (mom1 s) i, edge Vu e (ene1 s) i).

(** Row [i] of [a] with [v] added or subtracted, all other rows unchanged. *)
Definition add_row (a : matrix) (i : nat) (v : vector) : matrix :=
  <[i := zip_with Rplus (a !!! i) v]> a.

Definition sub_row (a : matrix) (i : nat) (v : vector) : matrix :=
  <[i := zip_with Rminus (a !!! i) v]> a.

(** What each face block does to the state, as a total function. *)
Definition after_first_face (numflux : R * R * R -> R * R * R -> R * R * R)
    (Vu : matrix) (s : State) : State :=
  let u := edge_state Vu 0 s 0 in
  let f := numflux u u in
  set_res s (sub_row (resr s) 0 (scale f.1.1 (Vu !!! 0%nat)))
            (sub_row (resm s) 0 (scale f.1.2 (Vu !!! 0%nat)))
            (sub_row (rese s) 0 (scale f.2 (Vu !!! 0%nat))).

Definition interior_flux (numflux : R * R * R -> R * R * R -> R * R * R)
    (Vu : matrix) (s : State) (i : nat) : R * R * R :=
  numflux (edge_state Vu (length Vu - 1) s (i - 1)) (edge_state Vu 0 s i).

Definition after_interior_face (numflux : R * R * R -> R * R * R -> R * R * R)
    (Vu : matrix) (i : nat) (s : State) : State :=
  let f := interior_flux numflux Vu s i in
  let vl := Vu !!! (length Vu - 1)%nat in
  let vr := Vu !!! 0%nat in
  set_res s (sub_row (add_row (resr s) (i - 1) (scale f.1.1 vl)) i (scale f.1.1 vr))
            (sub_row (add_row (resm s) (i - 1) (scale f.1.2 vl)) i (scale f.1.2 vr))
            (sub_row (add_row (rese s) (i - 1) (scale f.2 vl)) i (scale f.2 vr)).

Definition after_interior_faces (numflux : R * R * R -> R * R * R -> R * R * R)
    (nc : nat) (Vu : matrix) (s : State) : State :=
  foldl (fun s i => after_interior_face numflux Vu i s) s (seq 1 (nc - 1)).

Definition after_last_face (numflux : R * R * R -> R * R * R -> R * R * R)
    (nc : nat) (Vu : matrix) (s : State) : State :=
  let u := edge_state Vu 0 s (nc - 1) in
  let f := numflux u u in
  set_res s (add_row (resr s) (nc - 1) (scale f.1.1 (Vu !!! 0%nat)))
            (add_row (resm s) (nc - 1) (scale f.1.2 (Vu !!! 0%nat)))
            (add_row (rese s) (nc - 1) (scale f.2 (Vu !!! 0%nat))).

Definition after_assemble
    (flux : vector -> vector -> vector -> vector * vector * vector)
    (numflux : R * R * R -> R * R * R -> R * R * R)
    (nc nd : nat) (wg : vector) (Vf Vg Vu : matrix) (s : State) : State :=
  after_last_face numflux nc Vu
    (after_interior_faces numflux nc Vu
       (after_first_face numflux Vu (after_volume flux nc nd wg Vf Vg s))).

(** [a*u0 + b*(u1 - lam*res)] on whole arrays. *)
Definition combine (a b lam : R) (u0 u1 res : matrix) : matrix :=
  zip_with (zip_with Rplus) (scale2 a u0)
           (scale2 b (zip_with (zip_with Rminus) u1 (scale2 lam res))).

(** The state after Runge-Kutta stage [rk], as a total function. *)
Definition after_stage
    (flux : vector -> vector -> vector -> vector * vector * vector)
    (numflux : R * R * R -> R * R * R -> R * R * R)
    (nc nd : nat) (wg : vector) (Vf Vg Vu : matrix)
    (lam : R) (rk : nat) (s : State) : State :=
  let s' := after_assemble flux numflux nc nd wg Vf Vg Vu s in
  let a := ark !!! rk in
  let b := brk !!! rk in
  set_u1 s' (combine a b lam (rho0 s') (rho1 s') (resr s'))
            (combine a b lam (mom0 s') (mom1 s') (resm s'))
            (combine a b lam (ene0 s') (ene1 s') (rese s')).

(** The time step actually taken from [σ]: clipped when it would overshoot. *)
Definition step_dt (Tf : R) (σ : Sim) : R :=
  if Rgt_dec (t σ + dt σ) Tf then Tf - t σ else dt σ.

Definition step_lam (dx Tf : R) (σ : Sim) : R :=
  if Rgt_dec (t σ + dt σ) Tf then (Tf - t σ) / dx else lam σ.

Definition after_step
    (flux : vector -> vector -> vector -> vector * vector * vector)
    (numflux : R * R * R -> R * R * R -> R * R * R)
    (nc nd : nat) (dx : R) (wg : vector) (Vf Vg Vu : matrix)
    (Tf : R) (σ : Sim) : Sim :=
  let l := step_lam dx Tf σ in
  let s := arrays σ in
  let stage := after_stage flux numflux nc nd wg Vf Vg Vu l in
  mkSim (stage 2%nat (stage 1%nat (stage 0%nat
           (set_u0 s (rho1 s) (mom1 s) (ene1 s)))))
        (it σ + 1) (t σ + step_dt Tf σ) (step_dt Tf σ) l.

(** Entry [(i,j)] of a 2-D array. *)
Definition entry (a : matrix) (i j : nat) : R := (a !!! i) !!! j.

(** Two states with the same working fields, and with the same residuals. *)
Definition same_u1 (s s' : State) : Prop :=
  rho1 s = rho1 s' /\ mom1 s = mom1 s' /\ ene1 s = ene1 s'.

Definition same_res (s s' : State) : Prop :=
  resr s = resr s' /\ resm s = resm s' /\ rese s = rese s'.

(** [s'] differs from [s] at most in the residual arrays. *)
Definition only_res_changed (s s' : State) : Prop :=
  s' = set_res s (resr s') (resm s') (rese s').

(** [initial_condition] is vectorised: three arrays as long as its argument. *)
Definition vectorised (ic : vector -> vector * vector * vector) : Prop :=
  forall x : vector,
    length (ic x).1.1 = length x /\ length (ic x).1.2 = length x /\
    length (ic x).2 = length x.

(** The Gauss points of cell [i] in physical coordinates. *)
Definition cell_points (xmin dx : R) (xg : vector) (i : nat) : vector :=
  map (fun g => xmin + IZR (Z.of_nat i) * dx + 0.5 * dx + 0.5 * dx * g) xg.

(** The modal coefficients the projection loop writes. *)
Definition projection_rows (xmin : R) (ic : vector -> vector * vector * vector)
    (nc nd : nat) (dx : R) (xg wg : vector) (Vf : matrix)
    (pick : vector * vector * vector -> vector) : matrix :=
  map (fun i => map (Rmult 0.5)
                    (moments wg Vf nd (pick (ic (cell_points xmin dx xg i)))))
      (seq 0 nc).

Definition after_project (xmin : R) (ic : vector -> vector * vector * vector)
    (nc nd : nat) (dx : R) (xg wg : vector) (Vf : matrix) (s : State) : State :=
  set_u1 s (projection_rows xmin ic nc nd dx xg wg Vf (fun f => f.1.1))
           (projection_rows xmin ic nc nd dx xg wg Vf (fun f => f.1.2))
           (projection_rows xmin ic nc nd dx xg wg Vf (fun f => f.2)).

(** The state allocated at lines 97-105. *)
Definition zero_state (nc nd : nat) : State :=
  let z := zeros2 nc nd in mkState z z z z z z z z z.

(** The simulation state on entry to the time loop. *)
Definition initial_sim (xmin : R) (ic : vector -> vector * vector * vector)
    (max_speed : matrix -> matrix -> matrix -> R)
    (nc nd : nat) (dx : R) (xg wg : vector) (Vf : matrix) (cfl : R) : Sim :=
  let s := after_project xmin ic nc nd dx xg wg Vf (zero_state nc nd) in
  let dt0 := cfl * dx / max_speed (rho1 s) (mom1 s) (ene1 s) in
  mkSim s 0 0 dt0 (dt0 / dx).

(** The three working fields, the spatial residual as a function of them,
    and one SSPRK stage [a*u0 + b*(u - lam*residual u)]. *)
Definition fields (s : State) : matrix * matrix * matrix :=
  (rho1 s, mom1 s, ene1 s).

Definition residual
    (flux : vector -> vector -> vector -> vector * vector * vector)
    (numflux : R * R * R -> R * R * R -> R * R * R)
    (nc nd : nat) (wg : vector) (Vf Vg Vu : matrix)
    (u : matrix * matrix * matrix) : matrix * matrix * matrix :=
  let s := after_assemble flux numflux nc nd wg Vf Vg Vu
             (mkState u.1.1 u.1.1 u.1.2 u.1.2 u.2 u.2 u.1.1 u.1.2 u.2) in
  (resr s, resm s, rese s).

Definition ssprk_stage (res : matrix * matrix * matrix -> matrix * matrix * matrix)
    (lam : R) (u0 : matrix * matrix * matrix) (a : R)
    (u : matrix * matrix * matrix) : matrix * matrix * matrix :=
  (combine a (1 - a) lam u0.1.1 u.1.1 (res u).1.1,
   combine a (1 - a) lam u0.1.2 u.1.2 (res u).1.2,
   combine a (1 - a) lam u0.2 u.2 (res u).2).

Definition shaped3 (nc nd : nat) (u : matrix * matrix * matrix) : Prop :=
  shaped nc nd u.1.1 /\ shaped nc nd u.1.2 /\ shaped nc nd u.2.

(** The states in which the head of the time loop (line 127) is reached. *)
Inductive loop_state
    (flux : vector -> vector -> vector -> vector * vector * vector)
    (numflux : R * R * R -> R * R * R -> R * R * R)
    (nc nd : nat) (dx : R) (wg : vector) (Vf Vg Vu : matrix) (Tf : R)
    (σ0 : Sim) : Sim -> Prop :=
| loop_enter : loop_state flux numflux nc nd dx wg Vf Vg Vu Tf σ0 σ0
| loop_again (σ σ' : Sim) :
    loop_state flux numflux nc nd dx wg Vf Vg Vu Tf σ0 σ ->
    t σ < Tf ->
    time_step flux numflux nc nd dx wg Vf Vg Vu Tf σ = Ok σ' ->
    loop_state flux numflux nc nd dx wg Vf Vg Vu Tf σ0 σ'.

(** ** A concrete set of collaborators: linear advection of all three
    fields with unit speed, upwind numerical flux, orthonormal Legendre
    basis up to degree one. *)
Module Advection.

Definition shape_value (j : Z) (x : R) : R :=
  if (j =? 0)%Z then 1 else sqrt 3 * x.

Definition shape_grad (j : Z) (x : R) : R :=
  if (j =? 0)%Z then 0 else sqrt 3.

Definition xmin : R := 0.
Definition xmax : R := 1.

Definition initial_condition (x : vector) : vector * vector * vector :=
  (map (fun _ => 1) x, map (fun _ => 0) x, map (fun _ => 2.5) x).

Definition flux (rho mom ene : vector) : vector * vector * vector :=
  (rho, mom, ene).

Definition numflux (l r : R * R * R) : R * R * R := l.

Definition max_speed (rho mom ene : matrix) : R := 1.


(** The two-point Gauss rule of degree 1, and [leggauss] for one or two
    points. *)
Definition xg1 : vector := [- / sqrt 3; / sqrt 3].
Definition wg1 : vector := [1; 1].

Definition leggauss (n : Z) : vector * vector :=
  if (n =? 1)%Z then ([0], [2]) else (xg1, wg1).

(** Degree 0 on two cells of [[0,1]]: the tables the script builds and a
    state at the head of the time loop. *)
Definition wg0 : vector := [2].
Definition Vf0 : matrix := [[1]].
Definition Vg0 : matrix := [[0]].
Definition Vu0 : matrix := [[1]; [1]].
Definition sim0 : Sim := mkSim (zero_state 2 1) 0 0 (1 / 4) (1 / 2).

End Advection.

(** The step-start copies of the three fields. *)
Definition start_fields (s : State) : matrix * matrix * matrix :=
  (rho0 s, mom0 s, ene0 s).

Definition residuals (s : State) : matrix * matrix * matrix :=
  (resr s, resm s, rese s).

(** ** Sums, integrals by quadrature, total mass *)

(** [f 0 + f 1 + ... + f (n-1)] *)
Fixpoint sumn (n : nat) (f : nat -> R) : R :=
  match n with
  | O => 0
  | S n' => f O + sumn n' (fun k => f (S k))
  end.

(** The Gauss rule applied to the polynomial with modal coefficients [c]:
    [sum_q wg[q] * (Vf.dot(c))[q]], its integral over the reference cell. *)
Definition cell_integral (wg : vector) (Vf : matrix) (c : vector) : R :=
  dotp wg (at_points Vf c).

(** The integral over the whole domain of the field with coefficient
    array [a]: each cell contributes [dx/2] times its reference integral. *)
Definition total_integral (dx : R) (wg : vector) (Vf : matrix) (a : matrix) : R :=
  vsum (map (fun c => 0.5 * dx * cell_integral wg Vf c) a).

(** The basis is orthonormal for the half-weight inner product computed
    with the Gauss rule: [0.5 * sum_q wg[q]*Vf[q,i]*Vf[q,j] = delta_ij]. *)
Definition orthonormal (nd : nat) (wg : vector) (Vf : matrix) : Prop :=
  forall i j : nat, (i < nd)%nat -> (j < nd)%nat ->
    0.5 * dotp (weighted_columnp wg Vf i) (columnp Vf j)
    = if decide (i = j) then 1 else 0.

(** The modal coefficients [c] represent the constant function one at every
    point tabulated in [V]. *)
Definition reproduces_one (c : vector) (V : matrix) : Prop :=
  Forall (fun r => dotp r c = 1) V.

(** The derivative of the function with coefficients [c] vanishes at every
    point tabulated in [V]. *)
Definition flat (c : vector) (V : matrix) : Prop :=
  Forall (fun r => dotp r c = 0) V.

(** Face [i] moved [f*vl] into row [i-1] and [f*vr] out of row [i] of a
    residual array, and touched no other row. *)
Definition face_exchange (f : R) (vl vr : vector) (i : nat) (a a' : matrix) : Prop :=
  a' !!! (i - 1)%nat = zip_with Rplus (a !!! (i - 1)%nat) (scale f vl) /\
  a' !!! i = zip_with Rminus (a !!! i) (scale f vr) /\
  forall k : nat, k <> (i - 1)%nat -> k <> i -> a' !!! k = a !!! k.

(** ** The right boundary face as the specification words it

    "At each domain-boundary face the adjacent cell's own edge state (its
    modal solution evaluated at the cell's outward edge: ... right edge of
    cell nc-1 at the right boundary) is passed as both arguments to the
    numerical flux, and the resulting flux, weighted by that same edge's
    basis-value row, is accumulated into that cell's residual": the right
    edge is row [Vu[-1]], as in the internal-face loop. *)
Definition last_face_spec (numflux : R * R * R -> R * R * R -> R * R * R)
    (Vu : matrix) (s : State) : result State :=
  rhol <- edge_value Vu (rho1 s) (-1) (-1) ;;
  rhor <- edge_value Vu (rho1 s) (-1) (-1) ;;
  moml <- edge_value Vu (mom1 s) (-1) (-1) ;;
  momr <- edge_value Vu (mom1 s) (-1) (-1) ;;
  enel <- edge_value Vu (ene1 s) (-1) (-1) ;;
  ener <- edge_value Vu (ene1 s) (-1) (-1) ;;
  let f := numflux (rhol, moml, enel) (rhor, momr, ener) in
  v <- getitem Vu (-1) ;; resr' <- iadd_row (resr s) (-1) (scale f.1.1 v) ;;
  v <- getitem Vu (-1) ;; resm' <- iadd_row (resm s) (-1) (scale f.1.2 v) ;;
  v <- getitem Vu (-1) ;; rese' <- iadd_row (rese s) (-1) (scale f.2 v) ;;
  Ok (set_res s resr' resm' rese').

(** ** One cell of degree one whose density has slope one *)
Module Slope.

(** Basis [1, x], and its table at the two edges [-1] and [+1]. *)
Definition shape_value (j : Z) (x : R) : R := if (j =? 0)%Z then 1 else x.

Definition Vu : matrix := [[1; -1]; [1; 1]].

(** Density [x] on the reference cell: [-1] at the left edge, [+1] at the
    right edge; momentum and energy zero; residuals cleared. *)
Definition state : State :=
  let z := [[0; 0]] in
  mkState z [[0; 1]] z z z z z z z.

End Slope.

(** ** Collaborators whose wave speed follows the state: advection as in
    [Advection], a density that grows linearly with [x], and a wave-speed
    estimate of one plus the density of the second cell. *)
Module Drift.

Definition initial_condition (x : vector) : vector * vector * vector :=
  (x, map (fun _ => 0) x, map (fun _ => 0) x).

Definition max_speed (rho mom ene : matrix) : R := 1 + entry rho 1 0.

(** Two cells of degree 0 on [[0,1]], command-line CFL 0.7. *)
Definition cfl : R := 0.7 / IZR (2 * 0 + 1).

Definition sim0 : Sim :=
  initial_sim 0 initial_condition max_speed 2 1 (1 / 2) [0] Advection.wg0
              Advection.Vf0 cfl.

(** The same state with the arithmetic carried out, and the state at the
    head of the loop after the first step. *)
Definition zeros : matrix := [[0]; [0]].

Definition sim0_value : Sim :=
  mkSim (mkState zeros [[1 / 4]; [3 / 4]] zeros zeros zeros zeros zeros zeros zeros)
        0 0 (1 / 5) (2 / 5).

Definition sim1 : Sim :=
  mkSim (mkState [[1 / 4]; [3 / 4]] [[1 / 4]; [877 / 1500]]
                 zeros zeros zeros zeros [[0]; [21 / 50]] zeros zeros)
        1 (1 / 5) (1 / 5) (2 / 5).


End Drift.

(** The command line with other values for [-limit] and [-tvbM]. *)
Definition set_limit (a : Args) (l : yesno) (m : R) : Args :=
  mkArgs (ncell a) (degree a) (cfl_arg a) (Tf_arg a) (plot_freq a) (ic a) l m.

(** ** Command lines for the [Advection] collaborators *)
Module Config.






End Config.

(** * Further definitions: the residual cell by cell *)

(** What one internal face does to a single residual array when the flux
    of face [i] is [F i]. *)
Definition exchange (F : nat -> R) (Vu : matrix) (i : nat) (a : matrix) : matrix :=
  sub_row (add_row a (i - 1) (scale (F i) (Vu !!! (length Vu - 1)%nat)))
          i (scale (F i) (Vu !!! 0%nat)).

(** Row [r] of a residual array [a] once the internal faces [1 .. m] have
    been visited: the row has lost the flux of its left face times
    [Vu[0,:]] when that face is one of them, and gained the flux of its
    right face times [Vu[-1,:]] when that face is one of them. *)
Definition exchanged_row (F : nat -> R) (Vu : matrix) (m : nat) (a : matrix)
    (r : nat) : vector :=
  let b := if decide (1 <= r <= m)%nat
           then zip_with Rminus (a !!! r) (scale (F r) (Vu !!! 0%nat))
           else a !!! r in
  if decide (r < m)%nat
  then zip_with Rplus b (scale (F (r + 1)%nat) (Vu !!! (length Vu - 1)%nat))
  else b.

(** The numerical flux the script uses at the left and at the right face
    of cell [r], and the row of [Vu] that weights the right one. *)
Definition inflow (numflux : R * R * R -> R * R * R -> R * R * R)
    (Vu : matrix) (s : State) (r : nat) : R * R * R :=
  if decide (r = 0%nat)
  then numflux (edge_state Vu 0 s 0) (edge_state Vu 0 s 0)
  else interior_flux numflux Vu s r.

Definition outflow (numflux : R * R * R -> R * R * R -> R * R * R)
    (nc : nat) (Vu : matrix) (s : State) (r : nat) : R * R * R :=
  if decide (r = (nc - 1)%nat)
  then numflux (edge_state Vu 0 s (nc - 1)) (edge_state Vu 0 s (nc - 1))
  else interior_flux numflux Vu s (r + 1).

Definition outflow_row (nc : nat) (Vu : matrix) (r : nat) : vector :=
  if decide (r = (nc - 1)%nat) then Vu !!! 0%nat else Vu !!! (length Vu - 1)%nat.

(** [(vol - fin*Vu[0]) + fout*row]: the residual of one cell. *)
Definition cell_residual (vol : vector) (fin : R) (vin : vector)
    (fout : R) (vout : vector) : vector :=
  zip_with Rplus (zip_with Rminus vol (scale fin vin)) (scale fout vout).

(** Arrays whose entries are all zero, and triples of them. *)
Definition all_zero (a : matrix) : Prop :=
  Forall (Forall (fun x => x = 0)) a.

Definition all_zero3 (u : matrix * matrix * matrix) : Prop :=
  all_zero u.1.1 /\ all_zero u.1.2 /\ all_zero u.2.

(** Every cell holds the same coefficients. *)
Definition uniform (a : matrix) : Prop :=
  forall i j : nat, (i < length a)%nat -> (j < length a)%nat -> a !!! i = a !!! j.

(** ** Two cells of degree 0 that hold the same state: density 1,
    momentum 0, energy 2.5 *)
Module Uniform.

Definition state : State :=
  let r := [[1]; [1]] in
  let m := [[0]; [0]] in
  let e := [[2.5]; [2.5]] in
  mkState r r m m e e m m m.

Definition sim : Sim := mkSim state 0 0 (1 / 4) (1 / 2).

End Uniform.

(** ** Two more command lines *)
Module Commands.

(** [-ncell 2 -degree 0 -cfl 0.9 -Tf 1] *)
Definition plain : Args := mkArgs 2 0 0.9 1 1 "sod" no 0.

(** [-ncell -3 -degree 0] *)
Definition negative_cells : Args := mkArgs (-3) 0 0.9 1 1 "sod" no 0.

(** [-ncell 2 -degree 0 -plot_freq 0] and [-plot_freq 5] *)
Definition never_plot : Args := mkArgs 2 0 0.9 1 0 "sod" no 0.

Definition seldom_plot : Args := mkArgs 2 0 0.9 1 5 "sod" no 0.

End Commands.

(** * The figure (lines 64-94, 118-121, 190-191) *)

(** One curve of the figure, as [ax.plot(x,f)] creates it and
    [set_ydata] changes it. *)
Record Line : Type := mkLine {
  xdata : vector;
  ydata : vector
}.

(** What the script shows: the curves, the limits given to [plt.axis], and
    the time in the title ([None] for 'Initial condition'). *)
Record Figure : Type := mkFigure {
  lines : list Line;
  axis : R * R * R * R;
  title_time : option R
}.

(** [f.min()] and [f.max()]: numpy refuses an empty array. *)
Definition amin (f : vector) : result R :=
  match f with
  | [] => Raise ValueError
  | x :: l => Ok (foldl Rmin x l)
  end.

Definition amax (f : vector) : result R :=
  match f with
  | [] => Raise ValueError
  | x :: l => Ok (foldl Rmax x l)
  end.

(** [ax.plot(x,f)]: one new curve; matplotlib refuses data of different
    lengths.  ([set_ydata] does not look at the length: the script only
    gives it arrays as long as [Vu].) *)
Definition plot (x f : vector) : result Line :=
  if decide (length x = length f) then Ok (mkLine x f) else Raise ValueError.

(** [a % b] on Python integers: the sign of the divisor, no result for a
    zero divisor. *)
Definition pymod (a b : Z) : option Z :=
  if (b =? 0)%Z then None else Some (a mod b)%Z.

(** [it%plot_freq == 0 or np.abs(Tf-t) < 1.0e-13] (line 190); [None] when
    the modulo raises. *)
Definition plot_due (plot_freq : Z) (Tf : R) (σ : Sim) : option bool :=
  match pymod (it σ) plot_freq with
  | None => None
  | Some m =>
      Some (if (m =? 0)%Z then true
            else if Rlt_dec (Rabs (Tf - t σ)) 1e-13 then true else false)
  end.

(** How a run that draws ends: as a run of the time loop ends, with the
    figure as last drawn, or with the exception [e] that the test of
    line 190 raises, kept together with the state [σ] and the figure in
    which it is raised. *)
Inductive shown : Type :=
| Drawn (o : outcome) (fig : Figure)
| Raised (e : exn) (σ : Sim) (fig : Figure).

Section Plotting.

Variable flux : vector -> vector -> vector -> vector * vector * vector.
Variable numflux : R * R * R -> R * R * R -> R * R * R.
Variables xmin xmax : R.
Variables nc nd : nat.
Variable dx : R.
Variable wg : vector.
Variables Vf Vg Vu : matrix.
Variable xu : vector.

(** [init_plot(ax,rho,mom,ene)] (lines 64-79) *)
Definition init_plot (rho mom ene : matrix) : result Figure :=
  ' (lines, umin, umax) <-
    for_each (range 0 nc)
      (fun i '(lines, umin, umax) =>
         let xc := xmin + IZR i * dx + 0.5 * dx in
         let x := map (fun u => xc + 0.5 * dx * u) xu in
         c <- getitem rho i ;;
         f <- matvec Vu c ;;
         line <- plot x f ;;
         let lines := lines ++ [line] in
         lo <- amin f ;;
         hi <- amax f ;;
         Ok (lines, Rmin umin lo, Rmax umax hi))
      ([], 1e20, -1e20) ;;
  Ok (mkFigure lines (xmin, xmax, umin - 0.1, umax + 0.1) None).

(** [update_plot(lines,t,rho)] (lines 82-94) *)
Definition update_plot (lines : list Line) (t : R) (rho : matrix)
  : result Figure :=
  ' (lines, umin, umax) <-
    for_each (range 0 nc)
      (fun i '(lines, umin, umax) =>
         let xc := xmin + IZR i * dx + 0.5 * dx in
         let x := map (fun u => xc + 0.5 * dx * u) xu in
         c <- getitem rho i ;;
         f <- matvec Vu c ;;
         l <- getitem lines i ;;
         lines <- setitem lines i (mkLine (xdata l) f) ;;
         lo <- amin f ;;
         hi <- amax f ;;
         Ok (lines, Rmin umin lo, Rmax umax hi))
      (lines, 1e20, -1e20) ;;
  Ok (mkFigure lines (xmin, xmax, umin - 0.1, umax + 0.1) (Some t)).

(** The time loop with line 190-191 in it. *)
Fixpoint time_loop_plot (plot_freq : Z) (Tf : R) (fuel : nat) (σ : Sim)
    (fig : Figure) : result shown :=
  if Rlt_dec (t σ) Tf then
    match fuel with
    | O => Ok (Drawn (Running σ) fig)
    | S fuel' =>
        σ' <- time_step flux numflux nc nd dx wg Vf Vg Vu Tf σ ;;
        match plot_due plot_freq Tf σ' with
        | None => Ok (Raised ZeroDivisionError σ' fig)
        | Some true =>
            fig' <- update_plot (lines fig) (t σ') (rho1 (arrays σ')) ;;
            time_loop_plot plot_freq Tf fuel' σ' fig'
        | Some false => time_loop_plot plot_freq Tf fuel' σ' fig
        end
    end
  else Ok (Drawn (Completed σ) fig).

End Plotting.

(** ** The script with its figure *)

Section Display.

Variables shape_value shape_grad : Z -> R -> R.
Variables xmin xmax : R.
Variable initial_condition : vector -> vector * vector * vector.
Variable flux : vector -> vector -> vector -> vector * vector * vector.
Variable numflux : R * R * R -> R * R * R -> R * R * R.
Variable max_speed : matrix -> matrix -> matrix -> R.
Variable leggauss : Z -> vector * vector.

(** The whole script, the figure included; [None] when the script leaves
    at line 33 before there is a figure.  Waiting for the Enter key
    (line 121) changes nothing and is left out. *)
Definition main_plot (args : Args) (fuel : nat) : result (option shown) :=
  if String.eqb (ic args) "sod"%string then
    let k := degree args in
    let cfl := cfl_arg args / IZR (2 * k + 1) in
    let nc := ncell args in
    let nd := (k + 1)%Z in
    dx <- pydiv (xmax - xmin) nc ;;
    let Mdx2 := tvbM args * dx ^ 2 in
    '(xg, wg) <- np_leggauss leggauss (k + 1) ;;
    _ <- np_zeros nd nd ;;
    '(Vf, Vg) <- gauss_tables shape_value shape_grad (Z.to_nat nd) xg ;;
    let nu := Z.max 2 (k + 1) in
    let xu := linspace (-1) 1 (Z.to_nat nu) in
    _ <- np_zeros nu (k + 1) ;;
    Vu <- uniform_table shape_value (Z.to_nat nu) (Z.to_nat nd) xu ;;
    _ <- np_zeros nc nd ;;
    let z := zeros2 (Z.to_nat nc) (Z.to_nat nd) in
    s <- project xmin initial_condition (Z.to_nat nc) (Z.to_nat nd) dx xg wg Vf
                 (mkState z z z z z z z z z) ;;
    fig <- init_plot xmin xmax (Z.to_nat nc) dx Vu xu
                     (rho1 s) (mom1 s) (ene1 s) ;;
    let dt0 := cfl * dx / max_speed (rho1 s) (mom1 s) (ene1 s) in
    r <- time_loop_plot flux numflux xmin xmax (Z.to_nat nc) (Z.to_nat nd) dx
                        wg Vf Vg Vu xu (plot_freq args) (Tf_arg args) fuel
                        (mkSim s 0 0 dt0 (dt0 / dx)) fig ;;
    Ok (Some r)
  else Ok None.

End Display.

(** ** The figure in closed form *)

#[global] Instance Line_inhabited : Inhabited Line := populate (mkLine [] []).

(** The abscissae of cell [i], the curve drawn for it, and the curves of
    the cells [0 .. n-1]. *)
Definition abscissae (xmin dx : R) (xu : vector) (i : nat) : vector :=
  map (fun u => xmin + IZR (Z.of_nat i) * dx + 0.5 * dx + 0.5 * dx * u) xu.

Definition curve (xmin dx : R) (Vu : matrix) (xu : vector) (rho : matrix)
    (i : nat) : Line :=
  mkLine (abscissae xmin dx xu i) (at_points Vu (rho !!! i)).

Definition curves (xmin dx : R) (Vu : matrix) (xu : vector) (n : nat)
    (rho : matrix) : list Line :=
  map (curve xmin dx Vu xu rho) (seq 0 n).

(** The least and the greatest entry of an array that is not empty. *)
Definition smallest (f : vector) : R :=
  match f with
  | [] => 0
  | x :: l => foldl Rmin x l
  end.

Definition largest (f : vector) : R :=
  match f with
  | [] => 0
  | x :: l => foldl Rmax x l
  end.

(** [umin] and [umax] after the cells [0 .. n-1]. *)
Definition lowest (Vu : matrix) (n : nat) (rho : matrix) : R :=
  foldl (fun m i => Rmin m (smallest (at_points Vu (rho !!! i)))) 1e20 (seq 0 n).

Definition highest (Vu : matrix) (n : nat) (rho : matrix) : R :=
  foldl (fun m i => Rmax m (largest (at_points Vu (rho !!! i)))) (-1e20) (seq 0 n).

(** The curves after [set_ydata]: the abscissae stay, the ordinates are
    those of [rho]. *)
Definition redrawn (Vu : matrix) (lines : list Line) (rho : matrix) : list Line :=
  imap (fun i l => mkLine (xdata l) (at_points Vu (rho !!! i))) lines.

Definition limits (xmin xmax : R) (Vu : matrix) (n : nat) (rho : matrix)
  : R * R * R * R :=
  (xmin, xmax, lowest Vu n rho - 0.1, highest Vu n rho + 0.1).

(** The figure [update_plot] leaves. *)
Definition frame (xmin xmax : R) (Vu : matrix) (nc : nat) (lines : list Line)
    (t : R) (rho : matrix) : Figure :=
  mkFigure (redrawn Vu lines rho) (limits xmin xmax Vu nc rho) (Some t).

(** Two states whose working fields agree in cell [r] and in its two
    neighbours. *)
Definition same_near (r : nat) (s s' : State) : Prop :=
  forall i : nat, (r - 1 <= i <= r + 1)%nat ->
    rho1 s !!! i = rho1 s' !!! i /\ mom1 s !!! i = mom1 s' !!! i /\
    ene1 s !!! i = ene1 s' !!! i.

(** ** The uniform state of [Uniform] with the last of three cells
    changed *)
Module Bump.

Definition left : State :=
  let r := [[1]; [1]; [1]] in
  let m := [[0]; [0]; [0]] in
  let e := [[2.5]; [2.5]; [2.5]] in
  mkState r r m m e e m m m.

Definition right : State :=
  let r := [[1]; [1]; [4]] in
  let m := [[0]; [0]; [2]] in
  let e := [[2.5]; [2.5]; [7]] in
  mkState r r m m e e m m m.

End Bump.

(** ** One cell of degree one: the basis [1, x] with the two-point rule at
    the two ends of the reference cell, a state whose left edge values are
    not zero, and a second numerical flux *)
Module Lone.

Definition wg : vector := [1; 1].
Definition Vf : matrix := [[1; -1]; [1; 1]].
Definition Vg : matrix := [[0; 1]; [0; 1]].
Definition Vu : matrix := [[1; -1]; [1; 1]].

Definition state : State :=
  let z := [[0; 0]] in
  mkState z [[2; 1]] z [[1; 0]] z [[3; 1]] z z z.

Definition shifted_sum (l r : R * R * R) : R * R * R :=
  (l.1.1 + r.1.1 + 5, l.1.2 + r.1.2 + 5, l.2 + r.2 + 5).

End Lone.

(** ** Three cells of degree 0 with three different states, and residual
    arrays that already hold values *)
Module Stairs.

Definition state : State :=
  let z := [[0]; [0]; [0]] in
  let r := [[1]; [2]; [4]] in
  let m := [[3]; [5]; [6]] in
  let e := [[7]; [8]; [9]] in
  mkState z r z m z e [[10]; [20]; [30]] [[40]; [50]; [60]] [[70]; [80]; [90]].

End Stairs.
(** * Properties of the array operations *)

Lemma bind_ok {A B : Type} (m : result A) (k : A -> result B) (a : A) :
  m = Ok a -> bind m k = k a.
Proof. intros ->. reflexivity. Qed.

Lemma index_of_nat (len n : nat) :
  (n < len)%nat -> index len (Z.of_nat n) = Ok n.
Proof.
  intros H. unfold index.
  destruct (Z.leb_spec 0 (Z.of_nat n)); [|lia].
  destruct (Z.ltb_spec (Z.of_nat n) (Z.of_nat len)); [|lia].
  by rewrite Nat2Z.id.
Qed.

Lemma index_last (len : nat) :
  (0 < len)%nat -> index len (-1) = Ok (len - 1)%nat.
Proof.
  intros H. unfold index.
  destruct (Z.leb_spec 0 (-1)); [lia|].
  destruct (Z.leb_spec (- Z.of_nat len) (-1)); [|lia].
  f_equal. lia.
Qed.

Lemma index_in_range (len : nat) (i : Z) (n : nat) :
  index len i = Ok n -> (n < len)%nat.
Proof.
  unfold index. intros H.
  destruct (Z.leb_spec 0 i).
  - destruct (Z.ltb_spec i (Z.of_nat len)); inversion H. lia.
  - destruct (Z.leb_spec (- Z.of_nat len) i); inversion H. lia.
Qed.

Lemma getitem_of_nat {A : Type} (a : list A) (n : nat) (x : A) :
  a !! n = Some x -> getitem a (Z.of_nat n) = Ok x.
Proof.
  intros H. unfold getitem.
  rewrite index_of_nat by (by eapply lookup_lt_Some). simpl. by rewrite H.
Qed.

Lemma getitem_last {A : Type} (a : list A) (x : A) :
  a !! (length a - 1)%nat = Some x -> getitem a (-1) = Ok x.
Proof.
  intros H. unfold getitem.
  rewrite index_last by (apply lookup_lt_Some in H; lia). simpl. by rewrite H.
Qed.

Lemma setitem_of_nat {A : Type} (a : list A) (n : nat) (x : A) :
  (n < length a)%nat -> setitem a (Z.of_nat n) x = Ok (<[n:=x]> a).
Proof. intros H. unfold setitem. by rewrite index_of_nat. Qed.

Lemma setitem_last {A : Type} (a : list A) (x : A) :
  (0 < length a)%nat -> setitem a (-1) x = Ok (<[(length a - 1)%nat:=x]> a).
Proof. intros H. unfold setitem. by rewrite index_last. Qed.

Lemma setitem2_of_nat (a : matrix) (i j : nat) (r : vector) (x : R) :
  a !! i = Some r -> (j < length r)%nat ->
  setitem2 a (Z.of_nat i) (Z.of_nat j) x = Ok (<[i := <[j:=x]> r]> a).
Proof.
  intros Hi Hj. unfold setitem2.
  rewrite (getitem_of_nat _ _ _ Hi). simpl.
  rewrite setitem_of_nat by done. simpl.
  apply setitem_of_nat. by eapply lookup_lt_Some.
Qed.

Lemma map_result_ok {A B : Type} (f : A -> result B) (g : A -> B) (l : list A) :
  Forall (fun a => f a = Ok (g a)) l -> map_result f l = Ok (map g l).
Proof.
  induction 1 as [|a l Ha _ IH]; [done|].
  simpl. rewrite Ha. simpl. by rewrite IH.
Qed.

Lemma shaped_lookup (n m : nat) (a : matrix) (i : nat) (r : vector) :
  shaped n m a -> a !! i = Some r -> length r = m.
Proof.
  intros [_ H] Hi. rewrite Forall_forall in H.
  apply H. by eapply list_elem_of_lookup_2.
Qed.

Lemma shaped_row (n m : nat) (a : matrix) (i : nat) :
  shaped n m a -> (i < n)%nat -> a !! i = Some (a !!! i) /\ length (a !!! i) = m.
Proof.
  intros Ha Hi. destruct (lookup_lt_is_Some_2 a i) as [r Hr].
  { destruct Ha as [-> _]. done. }
  rewrite (list_lookup_total_correct _ _ _ Hr).
  split; [done|]. by eapply shaped_lookup.
Qed.

Lemma shaped_insert (n m : nat) (a : matrix) (i : nat) (r : vector) :
  shaped n m a -> length r = m -> shaped n m (<[i:=r]> a).
Proof.
  intros [Hn Hm] Hr. split; [by rewrite length_insert|].
  by apply Forall_insert.
Qed.

Lemma shaped_zeros2 (n m : nat) : shaped n m (zeros2 n m).
Proof.
  split; [apply length_replicate|].
  apply Forall_replicate. apply length_replicate.
Qed.

Lemma column_ok (n m : nat) (a : matrix) (j : nat) :
  shaped n m a -> (j < m)%nat -> column a (Z.of_nat j) = Ok (columnp a j).
Proof.
  intros [_ Ha] Hj. unfold column, columnp. apply map_result_ok.
  eapply Forall_impl; [exact Ha|]. intros r Hr. simpl in Hr.
  apply getitem_of_nat. apply list_lookup_lookup_total_lt. lia.
Qed.

Lemma length_columnp (a : matrix) (j : nat) : length (columnp a j) = length a.
Proof. apply length_map. Qed.

Lemma elementwise_ok (f : R -> R -> R) (a b : vector) :
  length a = length b -> elementwise f a b = Ok (zip_with f a b).
Proof. intros H. unfold elementwise. by rewrite decide_True. Qed.

Lemma dot_ok (a b : vector) : length a = length b -> dot a b = Ok (dotp a b).
Proof. intros H. unfold dot. by rewrite elementwise_ok. Qed.

Lemma matvec_ok (n m : nat) (M : matrix) (v : vector) :
  shaped n m M -> length v = m ->
  matvec M v = Ok (map (fun r => dotp r v) M).
Proof.
  intros [_ HM] Hv. apply map_result_ok.
  eapply Forall_impl; [exact HM|]. intros r Hr. simpl in Hr.
  apply dot_ok. congruence.
Qed.

Lemma elementwise2_ok (f : R -> R -> R) (n m : nat) (a b : matrix) :
  shaped n m a -> shaped n m b ->
  elementwise2 f a b = Ok (zip_with (zip_with f) a b).
Proof.
  intros [Hna Ha] [Hnb Hb]. unfold elementwise2.
  rewrite decide_True by congruence. clear Hna Hnb.
  revert b Hb. induction Ha as [|r a Hr Ha IH]; intros b Hb.
  - by destruct b.
  - destruct Hb as [|r' b Hr' Hb]; [done|].
    simpl. rewrite elementwise_ok by congruence. simpl. by rewrite IH.
Qed.

Lemma shaped_length_rows (n m : nat) (a : matrix) :
  shaped n m a -> map length a = replicate n m.
Proof.
  intros [<- Ha]. induction Ha as [|r a Hr Ha IH]; [done|].
  simpl. by rewrite Hr, IH.
Qed.

Lemma assign_all_ok (n m : nat) (dst src : matrix) :
  shaped n m dst -> shaped n m src -> assign_all dst src = Ok src.
Proof.
  intros Hd Hs. unfold assign_all.
  rewrite decide_True; [done|].
  by rewrite (shaped_length_rows _ _ _ Hd), (shaped_length_rows _ _ _ Hs).
Qed.

Lemma shaped_zip_with (f : R -> R -> R) (n m : nat) (a b : matrix) :
  shaped n m a -> shaped n m b -> shaped n m (zip_with (zip_with f) a b).
Proof.
  intros [Hna Ha] [Hnb Hb]. split.
  - rewrite length_zip_with. lia.
  - clear Hna Hnb. revert b Hb.
    induction Ha as [|r a Hr Ha IH]; intros b Hb; [by destruct b|].
    destruct Hb as [|r' b Hr' Hb]; [done|].
    simpl. constructor; [|by apply IH].
    rewrite length_zip_with. lia.
Qed.

Lemma shaped_scale2 (c : R) (n m : nat) (a : matrix) :
  shaped n m a -> shaped n m (scale2 c a).
Proof.
  intros [Hn Ha]. split; [by unfold scale2; rewrite length_map|].
  unfold scale2. apply Forall_map. eapply Forall_impl; [exact Ha|].
  intros r Hr. simpl in *. unfold scale. by rewrite length_map.
Qed.

(** A loop over [range(a, b)] whose state after [n] iterations is [F n]. *)
Lemma for_each_range {S : Type} (F : nat -> S) (a b : nat)
      (body : Z -> S -> result S) :
  (a <= b)%nat ->
  (forall n, (a <= n < b)%nat -> body (Z.of_nat n) (F n) = Ok (F (Datatypes.S n))) ->
  for_each (range a b) body (F a) = Ok (F b).
Proof.
  intros Hab Hstep. unfold range.
  remember (b - a)%nat as d eqn:Hd.
  revert a Hab Hd Hstep. induction d as [|d IH]; intros a Hab Hd Hstep.
  - simpl. f_equal. f_equal. lia.
  - simpl. rewrite Hstep by lia. simpl. apply IH; [lia|lia|].
    intros n Hn. apply Hstep. lia.
Qed.

Lemma fill_0 {A : Type} (new old : list A) : fill 0 new old = old.
Proof. unfold fill. by rewrite take_0, drop_0. Qed.

Lemma fill_all {A : Type} (new old : list A) :
  length new = length old -> fill (length old) new old = new.
Proof.
  intros H. unfold fill. rewrite drop_all, app_nil_r.
  apply take_ge. lia.
Qed.

Lemma fill_full {A : Type} (n : nat) (new old : list A) :
  length new = n -> length old = n -> fill n new old = new.
Proof. intros H1 H2. subst n. rewrite <- H2. apply fill_all. lia. Qed.

Lemma length_fill {A : Type} (n : nat) (new old : list A) :
  length new = length old -> length (fill n new old) = length old.
Proof.
  intros H. unfold fill. rewrite length_app, length_take, length_drop. lia.
Qed.

Lemma fill_lookup_next {A : Type} (n : nat) (new old : list A) :
  length new = length old -> fill n new old !! n = old !! n.
Proof.
  intros H. unfold fill.
  destruct (decide (n < length old)%nat) as [Hn|Hn].
  - rewrite lookup_app_r by (rewrite length_take; lia).
    rewrite length_take, lookup_drop. f_equal. lia.
  - rewrite !lookup_ge_None_2; [done|lia|].
    rewrite length_app, length_take, length_drop. lia.
Qed.

Lemma fill_insert {A : Type} (n : nat) (new old : list A) (x : A) :
  length new = length old -> new !! n = Some x ->
  <[n:=x]> (fill n new old) = fill (S n) new old.
Proof.
  intros H Hx. unfold fill.
  pose proof (lookup_lt_Some _ _ _ Hx) as Hn.
  assert (length (take n new) = n) as Hlen by (rewrite length_take; lia).
  rewrite insert_app_r_alt by lia.
  rewrite Hlen, Nat.sub_diag.
  rewrite (take_S_r _ _ _ Hx), <- app_assoc. f_equal.
  destruct (lookup_lt_is_Some_2 old n) as [y Hy]; [lia|].
  rewrite (drop_S _ _ _ Hy). done.
Qed.

Lemma setitem2_fill (M : matrix) (n j : nat) (new old : vector) (x : R) :
  (n < length M)%nat -> length new = length old -> new !! j = Some x ->
  setitem2 (<[n := fill j new old]> M) (Z.of_nat n) (Z.of_nat j) x
  = Ok (<[n := fill (S j) new old]> M).
Proof.
  intros Hn Hlen Hx.
  rewrite (setitem2_of_nat _ n j (fill j new old)).
  - by rewrite list_insert_insert_eq, fill_insert.
  - by apply list_lookup_insert_eq.
  - rewrite length_fill by done. apply lookup_lt_Some in Hx. lia.
Qed.

Lemma insert_fill_row {A : Type} (n : nat) (new old : list A) (x : A) :
  length new = length old -> new !! n = Some x ->
  <[n := x]> (fill n new old) = fill (S n) new old.
Proof. apply fill_insert. Qed.

Lemma insert_same_row (M : matrix) (n : nat) :
  (n < length M)%nat -> <[n := fill 0 (M !!! n) (M !!! n)]> M = M.
Proof.
  intros Hn. rewrite fill_0. apply list_insert_id.
  by apply list_lookup_lookup_total_lt.
Qed.

Lemma length_basis_row (f : Z -> R -> R) (nd : nat) (x : R) :
  length (basis_row f nd x) = nd.
Proof. unfold basis_row. by rewrite length_map, length_seq. Qed.

Lemma lookup_basis_row (f : Z -> R -> R) (nd j : nat) (x : R) :
  (j < nd)%nat -> basis_row f nd x !! j = Some (f (Z.of_nat j) x).
Proof.
  intros Hj. unfold basis_row.
  by rewrite list_lookup_fmap, lookup_seq_lt.
Qed.

Lemma shaped_table (f : Z -> R -> R) (nd : nat) (pts : vector) :
  shaped (length pts) nd (table f nd pts).
Proof.
  split; [apply length_map|].
  unfold table. apply Forall_map, Forall_forall. intros x _. simpl.
  apply length_basis_row.
Qed.

Lemma lookup_table (f : Z -> R -> R) (nd i : nat) (pts : vector) (x : R) :
  pts !! i = Some x -> table f nd pts !! i = Some (basis_row f nd x).
Proof. intros H. unfold table. by rewrite list_lookup_fmap, H. Qed.

Lemma length_moments (wg : vector) (V : matrix) (nd : nat) (f : vector) :
  length (moments wg V nd f) = nd.
Proof. unfold moments. by rewrite length_map, length_seq. Qed.

Lemma lookup_moments (wg : vector) (V : matrix) (nd j : nat) (f : vector) :
  (j < nd)%nat ->
  moments wg V nd f !! j = Some (dotp f (weighted_columnp wg V j)).
Proof.
  intros Hj. unfold moments. by rewrite list_lookup_fmap, lookup_seq_lt.
Qed.

Lemma weighted_column_ok (wg : vector) (n m : nat) (V : matrix) (j : nat) :
  shaped n m V -> length wg = n -> (j < m)%nat ->
  weighted_column wg V (Z.of_nat j) = Ok (weighted_columnp wg V j).
Proof.
  intros HV Hw Hj. unfold weighted_column.
  rewrite (column_ok n m) by done. cbn [bind].
  apply elementwise_ok. rewrite length_columnp. destruct HV as [-> _]. done.
Qed.

Lemma length_weighted_columnp (wg : vector) (V : matrix) (j : nat) :
  length wg = length V -> length (weighted_columnp wg V j) = length V.
Proof.
  intros H. unfold weighted_columnp.
  rewrite length_zip_with, length_columnp. lia.
Qed.

Lemma length_at_points (V : matrix) (c : vector) :
  length (at_points V c) = length V.
Proof. apply length_map. Qed.

Lemma for_each_range_eq {S : Type} (F : nat -> S) (a b : nat)
      (body : Z -> S -> result S) (s s' : S) :
  (a <= b)%nat -> s = F a -> s' = F b ->
  (forall n, (a <= n < b)%nat -> body (Z.of_nat n) (F n) = Ok (F (Datatypes.S n))) ->
  for_each (range a b) body s = Ok s'.
Proof. intros Hab -> -> Hstep. by apply for_each_range. Qed.

Lemma fill_row_start {A : Type} (i : nat) (new old : list A) (x : A) :
  length new = length old -> old !! i = Some x ->
  <[i := x]> (fill i new old) = fill i new old.
Proof.
  intros Hlen Hx. apply list_insert_id. by rewrite fill_lookup_next.
Qed.

Lemma lookup_zeros2 (n m i : nat) :
  (i < n)%nat -> zeros2 n m !! i = Some (replicate m 0).
Proof. intros H. unfold zeros2. by apply lookup_replicate_2. Qed.

(** * The Vandermonde tables *)

Section Tables.

Variables shape_value shape_grad : Z -> R -> R.

Lemma gauss_tables_ok (nd : nat) (xg : vector) :
  length xg = nd ->
  gauss_tables shape_value shape_grad nd xg
  = Ok (table shape_value nd xg, table shape_grad nd xg).
Proof.
  intros Hxg. unfold gauss_tables.
  set (TF := table shape_value nd xg). set (TG := table shape_grad nd xg).
  set (Z0 := zeros2 nd nd).
  assert (length TF = length Z0 /\ length TG = length Z0) as [HTF HTG].
  { unfold TF, TG, table, Z0, zeros2. rewrite !length_map, length_replicate. done. }
  assert (length Z0 = nd) as HZ0 by apply length_replicate.
  apply (for_each_range_eq (fun i => (fill i TF Z0, fill i TG Z0))).
  - lia.
  - by rewrite !fill_0.
  - by rewrite !(fill_full nd) by lia.
  - intros i [_ Hi].
    destruct (lookup_lt_is_Some_2 xg i) as [x Hx]; [lia|].
    set (rf := basis_row shape_value nd x). set (rg := basis_row shape_grad nd x).
    set (z := replicate nd 0).
    assert (length z = nd) as Hz by apply length_replicate.
    apply (for_each_range_eq
             (fun j => (<[i := fill j rf z]> (fill i TF Z0),
                        <[i := fill j rg z]> (fill i TG Z0)))).
    + lia.
    + rewrite !fill_0. f_equal; symmetry; apply fill_row_start; try done;
        by apply lookup_zeros2.
    + rewrite !(fill_full nd)
        by (done || (unfold rf, rg; by rewrite length_basis_row)).
      f_equal; symmetry; apply fill_insert; try done;
        by apply lookup_table.
    + intros j [_ Hj]. cbn beta iota.
      rewrite (getitem_of_nat _ _ _ Hx). cbn [bind].
      rewrite setitem2_fill; cycle 1.
      { rewrite length_fill by done. lia. }
      { unfold rf. by rewrite length_basis_row. }
      { unfold rf. by apply lookup_basis_row. }
      cbn [bind].
      rewrite setitem2_fill; cycle 1.
      { rewrite length_fill by done. lia. }
      { unfold rg. by rewrite length_basis_row. }
      { unfold rg. by apply lookup_basis_row. }
      done.
Qed.

Lemma uniform_table_ok (nu nd : nat) (xu : vector) :
  length xu = nu ->
  uniform_table shape_value nu nd xu = Ok (table shape_value nd xu).
Proof.
  intros Hxu. unfold uniform_table.
  set (T := table shape_value nd xu). set (Z0 := zeros2 nu nd).
  assert (length Z0 = nu) as HZ0 by apply length_replicate.
  assert (length T = length Z0) as HT.
  { unfold T, table. rewrite length_map. lia. }
  apply (for_each_range_eq (fun i => fill i T Z0)).
  - lia.
  - by rewrite fill_0.
  - by rewrite (fill_full nu) by lia.
  - intros i [_ Hi].
    destruct (lookup_lt_is_Some_2 xu i) as [x Hx]; [lia|].
    set (r := basis_row shape_value nd x). set (z := replicate nd 0).
    assert (length z = nd) as Hz by apply length_replicate.
    apply (for_each_range_eq (fun j => <[i := fill j r z]> (fill i T Z0))).
    + lia.
    + rewrite fill_0. symmetry. apply fill_row_start; [done|].
      by apply lookup_zeros2.
    + rewrite (fill_full nd)
        by (done || (unfold r; by rewrite length_basis_row)).
      symmetry. apply fill_insert; [done|]. by apply lookup_table.
    + intros j [_ Hj].
      rewrite (getitem_of_nat _ _ _ Hx). cbn [bind].
      apply setitem2_fill.
      * rewrite length_fill by done. lia.
      * unfold r. by rewrite length_basis_row.
      * unfold r. by apply lookup_basis_row.
Qed.

End Tables.

Lemma set_res_same (s : State) : set_res s (resr s) (resm s) (rese s) = s.
Proof. by destruct s. Qed.

Lemma set_u1_same (s : State) : set_u1 s (rho1 s) (mom1 s) (ene1 s) = s.
Proof. by destruct s. Qed.

Lemma lookup_opp_moments (wg : vector) (V : matrix) (nd j : nat) (f : vector) :
  (j < nd)%nat ->
  map Ropp (moments wg V nd f) !! j = Some (- dotp f (weighted_columnp wg V j)).
Proof. intros Hj. by rewrite list_lookup_fmap, lookup_moments. Qed.

Lemma lookup_half_moments (wg : vector) (V : matrix) (nd j : nat) (f : vector) :
  (j < nd)%nat ->
  map (Rmult 0.5) (moments wg V nd f) !! j
  = Some (0.5 * dotp f (weighted_columnp wg V j)).
Proof. intros Hj. by rewrite list_lookup_fmap, lookup_moments. Qed.

Lemma index_zero (len : nat) : (0 < len)%nat -> index len 0 = Ok 0%nat.
Proof. intros H. by apply (index_of_nat len 0). Qed.

Lemma index_pred (len n : nat) :
  (1 <= n)%nat -> (n <= len)%nat -> index len (Z.of_nat n - 1) = Ok (n - 1)%nat.
Proof.
  intros H1 H2. replace (Z.of_nat n - 1)%Z with (Z.of_nat (n - 1)) by lia.
  apply index_of_nat. lia.
Qed.

Lemma getitem_index {A : Type} `{Inhabited A} (a : list A) (i : Z) (n : nat) :
  index (length a) i = Ok n -> getitem a i = Ok (a !!! n).
Proof.
  intros Hi. unfold getitem. rewrite Hi. cbn [bind].
  apply index_in_range in Hi.
  by rewrite (list_lookup_lookup_total_lt a n Hi).
Qed.

Lemma setitem_index {A : Type} (a : list A) (i : Z) (n : nat) (x : A) :
  index (length a) i = Ok n -> setitem a i x = Ok (<[n:=x]> a).
Proof. intros Hi. unfold setitem. by rewrite Hi. Qed.

Lemma shaped_total (n m : nat) (a : matrix) (i : nat) :
  shaped n m a -> (i < n)%nat -> length (a !!! i) = m.
Proof. intros Ha Hi. by destruct (shaped_row n m a i Ha Hi). Qed.

Lemma shaped_index (n m : nat) (a : matrix) (i : Z) (k : nat) :
  shaped n m a -> index n i = Ok k -> index (length a) i = Ok k.
Proof. intros [-> _]. done. Qed.

Lemma length_scale (c : R) (v : vector) : length (scale c v) = length v.
Proof. apply length_map. Qed.

Section EdgeOps.

Variables nc nd nu : nat.
Variable Vu : matrix.
Hypothesis Vu_shape : shaped nu nd Vu.

Lemma edge_value_ok (a : matrix) (i e : Z) (n m : nat) :
  shaped nc nd a -> index nc i = Ok n -> index nu e = Ok m ->
  edge_value Vu a i e = Ok (edge Vu m a n).
Proof.
  intros Ha Hi He. unfold edge_value, edge.
  rewrite (getitem_index a i n) by (by eapply shaped_index). cbn [bind].
  rewrite (getitem_index Vu e m) by (by eapply shaped_index). cbn [bind].
  apply dot_ok.
  rewrite (shaped_total nc nd) by (done || by eapply index_in_range).
  rewrite (shaped_total nu nd) by (done || by eapply index_in_range).
  done.
Qed.

Lemma iadd_row_ok (a : matrix) (i : Z) (n : nat) (v : vector) :
  shaped nc nd a -> index nc i = Ok n -> length v = nd ->
  iadd_row a i v = Ok (add_row a n v).
Proof.
  intros Ha Hi Hv. unfold iadd_row, add_row.
  rewrite (getitem_index a i n) by (by eapply shaped_index). cbn [bind].
  rewrite elementwise_ok; cycle 1.
  { rewrite (shaped_total nc nd) by (done || by eapply index_in_range). done. }
  cbn [bind]. apply setitem_index. by eapply shaped_index.
Qed.

Lemma isub_row_ok (a : matrix) (i : Z) (n : nat) (v : vector) :
  shaped nc nd a -> index nc i = Ok n -> length v = nd ->
  isub_row a i v = Ok (sub_row a n v).
Proof.
  intros Ha Hi Hv. unfold isub_row, sub_row.
  rewrite (getitem_index a i n) by (by eapply shaped_index). cbn [bind].
  rewrite elementwise_ok; cycle 1.
  { rewrite (shaped_total nc nd) by (done || by eapply index_in_range). done. }
  cbn [bind]. apply setitem_index. by eapply shaped_index.
Qed.

Lemma shaped_add_row (a : matrix) (n : nat) (v : vector) :
  shaped nc nd a -> (n < nc)%nat -> length v = nd -> shaped nc nd (add_row a n v).
Proof.
  intros Ha Hn Hv. apply shaped_insert; [done|].
  rewrite length_zip_with, (shaped_total nc nd) by done. lia.
Qed.

Lemma shaped_sub_row (a : matrix) (n : nat) (v : vector) :
  shaped nc nd a -> (n < nc)%nat -> length v = nd -> shaped nc nd (sub_row a n v).
Proof.
  intros Ha Hn Hv. apply shaped_insert; [done|].
  rewrite length_zip_with, (shaped_total nc nd) by done. lia.
Qed.

End EdgeOps.

(** * The residual assembler *)

Section Assembler.

Variable flux : vector -> vector -> vector -> vector * vector * vector.
Variable numflux : R * R * R -> R * R * R -> R * R * R.
Variables nc nd : nat.
Variable wg : vector.
Variables Vf Vg Vu : matrix.

Hypothesis flux_shape : elementwise_flux flux.
Hypothesis wg_shape : length wg = nd.
Hypothesis Vf_shape : shaped nd nd Vf.
Hypothesis Vg_shape : shaped nd nd Vg.

Lemma cell_flux_shape (s : State) (i : nat) :
  length (cell_flux flux Vf s i).1.1 = nd /\
  length (cell_flux flux Vf s i).1.2 = nd /\
  length (cell_flux flux Vf s i).2 = nd.
Proof.
  unfold cell_flux.
  destruct (flux_shape (at_points Vf (rho1 s !!! i)) (at_points Vf (mom1 s !!! i))
              (at_points Vf (ene1 s !!! i))) as (H1 & H2 & H3).
  - by rewrite !length_at_points.
  - by rewrite !length_at_points.
  - rewrite length_at_points in H1, H2, H3. destruct Vf_shape as [Hn _].
    rewrite H1, H2, H3. done.
Qed.

Lemma shaped_volume_rows (pick : vector * vector * vector -> vector) (s : State) :
  shaped nc nd (volume_rows flux nc nd wg Vf Vg pick s).
Proof.
  unfold volume_rows. split.
  - by rewrite length_map, length_seq.
  - apply Forall_map, Forall_forall. intros i _. simpl.
    by rewrite length_map, length_moments.
Qed.

Lemma lookup_volume_rows (pick : vector * vector * vector -> vector) (s : State)
      (i : nat) :
  (i < nc)%nat ->
  volume_rows flux nc nd wg Vf Vg pick s !! i
  = Some (map Ropp (moments wg Vg nd (pick (cell_flux flux Vf s i)))).
Proof.
  intros Hi. unfold volume_rows. by rewrite list_lookup_fmap, lookup_seq_lt.
Qed.

(** The cell-integral loop succeeds and leaves exactly [after_volume]. *)
Lemma volume_integrals_ok (s : State) :
  well_shaped nc nd s ->
  volume_integrals flux nc nd wg Vf Vg s = Ok (after_volume flux nc nd wg Vf Vg s).
Proof.
  intros (_ & Hr1 & _ & Hm1 & _ & He1 & Hrr & Hrm & Hre).
  unfold volume_integrals, after_volume.
  set (VR := volume_rows flux nc nd wg Vf Vg (fun f => f.1.1) s).
  set (VM := volume_rows flux nc nd wg Vf Vg (fun f => f.1.2) s).
  set (VE := volume_rows flux nc nd wg Vf Vg (fun f => f.2) s).
  pose proof (shaped_volume_rows (fun f => f.1.1) s) as [HVR _].
  pose proof (shaped_volume_rows (fun f => f.1.2) s) as [HVM _].
  pose proof (shaped_volume_rows (fun f => f.2) s) as [HVE _].
  fold VR in HVR. fold VM in HVM. fold VE in HVE.
  pose proof (proj1 Hrr) as Lr. pose proof (proj1 Hrm) as Lm.
  pose proof (proj1 Hre) as Le.
  apply (for_each_range_eq
    (fun n => set_res s (fill n VR (resr s)) (fill n VM (resm s)) (fill n VE (rese s)))).
  - lia.
  - rewrite !fill_0. symmetry. apply set_res_same.
  - by rewrite !(fill_full nc).
  - intros n [_ Hn]. cbn [rho1 mom1 ene1 set_res].
    destruct (shaped_row _ _ _ n Hr1 Hn) as [Gr Lr1].
    destruct (shaped_row _ _ _ n Hm1 Hn) as [Gm Lm1].
    destruct (shaped_row _ _ _ n He1 Hn) as [Ge Le1].
    rewrite (getitem_of_nat _ _ _ Gr). cbn [bind].
    rewrite (matvec_ok nd nd) by done. cbn [bind].
    rewrite (getitem_of_nat _ _ _ Gm). cbn [bind].
    rewrite (matvec_ok nd nd) by done. cbn [bind].
    rewrite (getitem_of_nat _ _ _ Ge). cbn [bind].
    rewrite (matvec_ok nd nd) by done. cbn [bind].
    fold (at_points Vf (rho1 s !!! n)). fold (at_points Vf (mom1 s !!! n)).
    fold (at_points Vf (ene1 s !!! n)).
    destruct (cell_flux_shape s n) as (Hf1 & Hf2 & Hf3).
    pose proof (lookup_volume_rows (fun f => f.1.1) s n Hn) as Hnr.
    pose proof (lookup_volume_rows (fun f => f.1.2) s n Hn) as Hnm.
    pose proof (lookup_volume_rows (fun f => f.2) s n Hn) as Hne.
    fold VR in Hnr. fold VM in Hnm. fold VE in Hne.
    unfold cell_flux in Hf1, Hf2, Hf3, Hnr, Hnm, Hne.
    destruct (flux (at_points Vf (rho1 s !!! n)) (at_points Vf (mom1 s !!! n))
                (at_points Vf (ene1 s !!! n))) as [[frho fmom] fene].
    cbn [fst snd] in Hf1, Hf2, Hf3, Hnr, Hnm, Hne.
    destruct (shaped_row _ _ _ n Hrr Hn) as [Or Lor].
    destruct (shaped_row _ _ _ n Hrm Hn) as [Om Lom].
    destruct (shaped_row _ _ _ n Hre Hn) as [Oe Loe].
    set (nr := map Ropp (moments wg Vg nd frho)) in *.
    set (nm := map Ropp (moments wg Vg nd fmom)) in *.
    set (ne := map Ropp (moments wg Vg nd fene)) in *.
    assert (length nr = nd /\ length nm = nd /\ length ne = nd) as (Lnr & Lnm & Lne).
    { unfold nr, nm, ne. by rewrite !length_map, !length_moments. }
    apply (for_each_range_eq
      (fun j => set_res s (<[n := fill j nr (resr s !!! n)]> (fill n VR (resr s)))
                          (<[n := fill j nm (resm s !!! n)]> (fill n VM (resm s)))
                          (<[n := fill j ne (rese s !!! n)]> (fill n VE (rese s))))).
    + lia.
    + rewrite !fill_0. f_equal; symmetry; apply fill_row_start; (done || lia).
    + rewrite !(fill_full nd) by done.
      f_equal; symmetry; apply fill_insert; (done || lia).
    + intros j [_ Hj]. cbn [resr resm rese set_res].
      assert (length (weighted_columnp wg Vg j) = nd) as Lw.
      { rewrite length_weighted_columnp; destruct Vg_shape as [-> _]; done. }
      rewrite (weighted_column_ok wg nd nd) by done. cbn [bind].
      rewrite dot_ok by lia. cbn [bind].
      rewrite setitem2_fill; cycle 1.
      { rewrite length_fill; lia. }
      { lia. }
      { unfold nr. by apply lookup_opp_moments. }
      cbn [bind].
      rewrite dot_ok by lia. cbn [bind].
      rewrite setitem2_fill; cycle 1.
      { rewrite length_fill; lia. }
      { lia. }
      { unfold nm. by apply lookup_opp_moments. }
      cbn [bind].
      rewrite dot_ok by lia. cbn [bind].
      rewrite setitem2_fill; cycle 1.
      { rewrite length_fill; lia. }
      { lia. }
      { unfold ne. by apply lookup_opp_moments. }
      done.
Qed.

End Assembler.

Lemma well_shaped_set_res (nc nd : nat) (s : State) (r m e : matrix) :
  well_shaped nc nd s -> shaped nc nd r -> shaped nc nd m -> shaped nc nd e ->
  well_shaped nc nd (set_res s r m e).
Proof.
  intros (H1 & H2 & H3 & H4 & H5 & H6 & _ & _ & _) Hr Hm He.
  unfold well_shaped. cbn. tauto.
Qed.

Lemma well_shaped_set_u0 (nc nd : nat) (s : State) :
  well_shaped nc nd s ->
  well_shaped nc nd (set_u0 s (rho1 s) (mom1 s) (ene1 s)).
Proof.
  intros (H0 & H1 & H2 & H3 & H4 & H5 & H6 & H7 & H8).
  unfold well_shaped. cbn. tauto.
Qed.

Section Faces.

Variable numflux : R * R * R -> R * R * R -> R * R * R.
Variables nc nd nu : nat.
Variable Vu : matrix.

Hypothesis Vu_shape : shaped nu nd Vu.
Hypothesis nu_pos : (1 <= nu)%nat.

Lemma Vu_row_length (e : nat) : (e < nu)%nat -> length (Vu !!! e) = nd.
Proof. intros He. by apply (shaped_total nu nd). Qed.

Lemma first_face_ok (s : State) :
  well_shaped nc nd s -> (1 <= nc)%nat ->
  first_face numflux Vu s = Ok (after_first_face numflux Vu s).
Proof.
  intros (_ & Hr1 & _ & Hm1 & _ & He1 & Hrr & Hrm & Hre) Hnc.
  unfold first_face, after_first_face, edge_state.
  assert (index nc 0 = Ok 0%nat) as I0 by (apply index_zero; lia).
  assert (index nu 0 = Ok 0%nat) as J0 by (apply index_zero; lia).
  rewrite (edge_value_ok nc nd nu Vu Vu_shape (rho1 s) 0 0 0 0) by done. cbn [bind].
  rewrite (edge_value_ok nc nd nu Vu Vu_shape (mom1 s) 0 0 0 0) by done. cbn [bind].
  rewrite (edge_value_ok nc nd nu Vu Vu_shape (ene1 s) 0 0 0 0) by done. cbn [bind].
  rewrite (getitem_index Vu 0 0) by (by eapply shaped_index). cbn [bind].
  assert (length (Vu !!! 0%nat) = nd) as L0 by (apply Vu_row_length; lia).
  rewrite !(isub_row_ok nc nd _ _ 0%nat) by (done || by rewrite length_scale).
  done.
Qed.

Lemma well_shaped_after_first_face (s : State) :
  well_shaped nc nd s -> (1 <= nc)%nat ->
  well_shaped nc nd (after_first_face numflux Vu s).
Proof.
  intros Hs Hnc. pose proof Hs as (_ & _ & _ & _ & _ & _ & Hrr & Hrm & Hre).
  assert (length (Vu !!! 0%nat) = nd) as L0 by (apply Vu_row_length; lia).
  unfold after_first_face.
  apply well_shaped_set_res; [done|..];
    apply shaped_sub_row; (done || lia || by rewrite length_scale).
Qed.

Lemma interior_face_ok (n : nat) (s : State) :
  well_shaped nc nd s -> (1 <= n < nc)%nat ->
  interior_face numflux Vu (Z.of_nat n) s = Ok (after_interior_face numflux Vu n s).
Proof.
  intros (_ & Hr1 & _ & Hm1 & _ & He1 & Hrr & Hrm & Hre) Hn.
  unfold interior_face, after_interior_face, interior_flux, edge_state.
  pose proof (proj1 Vu_shape) as HL. rewrite HL.
  assert (index nc (Z.of_nat n - 1) = Ok (n - 1)%nat) as Ip by (apply index_pred; lia).
  assert (index nc (Z.of_nat n) = Ok n) as In by (apply index_of_nat; lia).
  assert (index nu 0 = Ok 0%nat) as J0 by (apply index_zero; lia).
  assert (index nu (-1) = Ok (nu - 1)%nat) as J1 by (apply index_last; lia).
  rewrite (edge_value_ok nc nd nu Vu Vu_shape (rho1 s) _ _ (n - 1) (nu - 1)) by done.
  cbn [bind].
  rewrite (edge_value_ok nc nd nu Vu Vu_shape (rho1 s) _ _ n 0) by done. cbn [bind].
  rewrite (edge_value_ok nc nd nu Vu Vu_shape (mom1 s) _ _ (n - 1) (nu - 1)) by done.
  cbn [bind].
  rewrite (edge_value_ok nc nd nu Vu Vu_shape (mom1 s) _ _ n 0) by done. cbn [bind].
  rewrite (edge_value_ok nc nd nu Vu Vu_shape (ene1 s) _ _ (n - 1) (nu - 1)) by done.
  cbn [bind].
  rewrite (edge_value_ok nc nd nu Vu Vu_shape (ene1 s) _ _ n 0) by done. cbn [bind].
  assert (length (Vu !!! 0%nat) = nd) as L0 by (apply Vu_row_length; lia).
  assert (length (Vu !!! (nu - 1)%nat) = nd) as L1 by (apply Vu_row_length; lia).
  rewrite (getitem_index Vu (-1) (nu - 1)) by (by eapply shaped_index). cbn [bind].
  rewrite (iadd_row_ok nc nd (resr s) _ (n - 1)) by (done || by rewrite length_scale).
  cbn [bind].
  rewrite (getitem_index Vu 0 0) by (by eapply shaped_index). cbn [bind].
  rewrite (isub_row_ok nc nd _ _ n); cycle 1.
  { apply shaped_add_row; (done || lia || by rewrite length_scale). }
  { done. }
  { by rewrite length_scale. }
  cbn [bind].
  rewrite (iadd_row_ok nc nd (resm s) _ (n - 1)) by (done || by rewrite length_scale).
  cbn [bind].
  rewrite (isub_row_ok nc nd _ _ n); cycle 1.
  { apply shaped_add_row; (done || lia || by rewrite length_scale). }
  { done. }
  { by rewrite length_scale. }
  cbn [bind].
  rewrite (iadd_row_ok nc nd (rese s) _ (n - 1)) by (done || by rewrite length_scale).
  cbn [bind].
  rewrite (isub_row_ok nc nd _ _ n); cycle 1.
  { apply shaped_add_row; (done || lia || by rewrite length_scale). }
  { done. }
  { by rewrite length_scale. }
  done.
Qed.

Lemma well_shaped_after_interior_face (n : nat) (s : State) :
  well_shaped nc nd s -> (1 <= n < nc)%nat ->
  well_shaped nc nd (after_interior_face numflux Vu n s).
Proof.
  intros Hs Hn. pose proof Hs as (_ & _ & _ & _ & _ & _ & Hrr & Hrm & Hre).
  pose proof (proj1 Vu_shape) as HL.
  assert (length (Vu !!! 0%nat) = nd) as L0 by (apply Vu_row_length; lia).
  assert (length (Vu !!! (length Vu - 1)%nat) = nd) as L1
      by (apply Vu_row_length; lia).
  unfold after_interior_face.
  apply well_shaped_set_res; [done|..];
    (apply shaped_sub_row; [apply shaped_add_row|..]);
    (done || lia || by rewrite length_scale).
Qed.

Lemma interior_faces_from (a : nat) (s : State) :
  well_shaped nc nd s -> (1 <= a)%nat -> (a <= nc)%nat ->
  for_each (range a nc) (interior_face numflux Vu) s
  = Ok (foldl (fun s i => after_interior_face numflux Vu i s) s (seq a (nc - a)))
  /\ well_shaped nc nd
       (foldl (fun s i => after_interior_face numflux Vu i s) s (seq a (nc - a))).
Proof.
  intros Hs Ha Hanc. unfold range.
  remember (nc - a)%nat as d eqn:Hd.
  revert a s Hs Ha Hanc Hd. induction d as [|d IH]; intros a s Hs Ha Hanc Hd.
  - done.
  - cbn [seq map for_each foldl].
    rewrite interior_face_ok by (done || lia). cbn [bind].
    apply IH; [|lia..]. apply well_shaped_after_interior_face; [done|lia].
Qed.

(** The loop over the internal faces, stopped after the faces
    [a .. a+d-1]. *)
Lemma interior_faces_upto (a d : nat) (s : State) :
  well_shaped nc nd s -> (1 <= a)%nat -> (a + d <= nc)%nat ->
  for_each (range a (a + d)) (interior_face numflux Vu) s
  = Ok (foldl (fun s i => after_interior_face numflux Vu i s) s (seq a d))
  /\ well_shaped nc nd
       (foldl (fun s i => after_interior_face numflux Vu i s) s (seq a d)).
Proof.
  intros Hs Ha Had. unfold range.
  replace (a + d - a)%nat with d by lia.
  revert a s Hs Ha Had. induction d as [|d IH]; intros a s Hs Ha Had.
  - done.
  - cbn [seq map for_each foldl].
    rewrite interior_face_ok by (done || lia). cbn [bind].
    apply IH; [|lia..]. apply well_shaped_after_interior_face; [done|lia].
Qed.

Lemma interior_faces_ok (s : State) :
  well_shaped nc nd s -> (1 <= nc)%nat ->
  interior_faces numflux nc Vu s = Ok (after_interior_faces numflux nc Vu s).
Proof. intros Hs Hnc. by apply interior_faces_from. Qed.

Lemma well_shaped_after_interior_faces (s : State) :
  well_shaped nc nd s -> (1 <= nc)%nat ->
  well_shaped nc nd (after_interior_faces numflux nc Vu s).
Proof. intros Hs Hnc. by apply interior_faces_from. Qed.

Lemma last_face_ok (s : State) :
  well_shaped nc nd s -> (1 <= nc)%nat ->
  last_face numflux Vu s = Ok (after_last_face numflux nc Vu s).
Proof.
  intros (_ & Hr1 & _ & Hm1 & _ & He1 & Hrr & Hrm & Hre) Hnc.
  unfold last_face, after_last_face, edge_state.
  assert (index nc (-1) = Ok (nc - 1)%nat) as I0 by (apply index_last; lia).
  assert (index nu 0 = Ok 0%nat) as J0 by (apply index_zero; lia).
  rewrite (edge_value_ok nc nd nu Vu Vu_shape (rho1 s) _ _ (nc - 1) 0) by done.
  cbn [bind].
  rewrite (edge_value_ok nc nd nu Vu Vu_shape (mom1 s) _ _ (nc - 1) 0) by done.
  cbn [bind].
  rewrite (edge_value_ok nc nd nu Vu Vu_shape (ene1 s) _ _ (nc - 1) 0) by done.
  cbn [bind].
  rewrite (getitem_index Vu 0 0) by (by eapply shaped_index). cbn [bind].
  assert (length (Vu !!! 0%nat) = nd) as L0 by (apply Vu_row_length; lia).
  rewrite !(iadd_row_ok nc nd _ _ (nc - 1)) by (done || by rewrite length_scale).
  done.
Qed.

Lemma well_shaped_after_last_face (s : State) :
  well_shaped nc nd s -> (1 <= nc)%nat ->
  well_shaped nc nd (after_last_face numflux nc Vu s).
Proof.
  intros Hs Hnc. pose proof Hs as (_ & _ & _ & _ & _ & _ & Hrr & Hrm & Hre).
  assert (length (Vu !!! 0%nat) = nd) as L0 by (apply Vu_row_length; lia).
  unfold after_last_face.
  apply well_shaped_set_res; [done|..];
    apply shaped_add_row; (done || lia || by rewrite length_scale).
Qed.

End Faces.

(** ** Frame and dependency of the assembler's closed form *)

Section AssemblerFrame.

Variable flux : vector -> vector -> vector -> vector * vector * vector.
Variable numflux : R * R * R -> R * R * R -> R * R * R.
Variables nc nd : nat.
Variable wg : vector.
Variables Vf Vg Vu : matrix.

Lemma only_res_changed_refl (s : State) : only_res_changed s s.
Proof. unfold only_res_changed. by destruct s. Qed.

Lemma only_res_changed_trans (s1 s2 s3 : State) :
  only_res_changed s1 s2 -> only_res_changed s2 s3 -> only_res_changed s1 s3.
Proof.
  unfold only_res_changed. intros H12 H23. rewrite H23 at 1. rewrite H12 at 1.
  reflexivity.
Qed.

Lemma only_res_changed_set_res (s : State) (r m e : matrix) :
  only_res_changed s (set_res s r m e).
Proof. reflexivity. Qed.

Lemma after_interior_faces_frame_from (l : list nat) (s : State) :
  only_res_changed s (foldl (fun s i => after_interior_face numflux Vu i s) s l).
Proof.
  revert s. induction l as [|i l IH]; intros s.
  - apply only_res_changed_refl.
  - cbn [foldl]. eapply only_res_changed_trans; [|apply IH].
    apply only_res_changed_set_res.
Qed.

Lemma after_assemble_frame (s : State) :
  only_res_changed s (after_assemble flux numflux nc nd wg Vf Vg Vu s).
Proof.
  unfold after_assemble.
  eapply only_res_changed_trans; [|apply only_res_changed_set_res].
  eapply only_res_changed_trans; [|apply after_interior_faces_frame_from].
  eapply only_res_changed_trans; [|apply only_res_changed_set_res].
  apply only_res_changed_set_res.
Qed.

Lemma after_volume_congr (s s' : State) :
  same_u1 s s' ->
  same_u1 (after_volume flux nc nd wg Vf Vg s) (after_volume flux nc nd wg Vf Vg s')
  /\ same_res (after_volume flux nc nd wg Vf Vg s)
              (after_volume flux nc nd wg Vf Vg s').
Proof.
  intros (H1 & H2 & H3). unfold same_u1, same_res, after_volume, volume_rows, cell_flux.
  cbn [rho1 mom1 ene1 resr resm rese set_res]. rewrite H1, H2, H3. done.
Qed.

Lemma after_first_face_congr (s s' : State) :
  same_u1 s s' -> same_res s s' ->
  same_u1 (after_first_face numflux Vu s) (after_first_face numflux Vu s')
  /\ same_res (after_first_face numflux Vu s) (after_first_face numflux Vu s').
Proof.
  intros (H1 & H2 & H3) (H4 & H5 & H6).
  unfold same_u1, same_res, after_first_face, edge_state.
  cbn [rho1 mom1 ene1 resr resm rese set_res]. rewrite H1, H2, H3, H4, H5, H6. done.
Qed.

Lemma after_interior_face_congr (i : nat) (s s' : State) :
  same_u1 s s' -> same_res s s' ->
  same_u1 (after_interior_face numflux Vu i s) (after_interior_face numflux Vu i s')
  /\ same_res (after_interior_face numflux Vu i s)
              (after_interior_face numflux Vu i s').
Proof.
  intros (H1 & H2 & H3) (H4 & H5 & H6).
  unfold same_u1, same_res, after_interior_face, interior_flux, edge_state.
  cbn [rho1 mom1 ene1 resr resm rese set_res]. rewrite H1, H2, H3, H4, H5, H6. done.
Qed.

Lemma after_interior_faces_congr (s s' : State) :
  same_u1 s s' -> same_res s s' ->
  same_u1 (after_interior_faces numflux nc Vu s) (after_interior_faces numflux nc Vu s')
  /\ same_res (after_interior_faces numflux nc Vu s)
              (after_interior_faces numflux nc Vu s').
Proof.
  unfold after_interior_faces. generalize (seq 1 (nc - 1)). intros l.
  revert s s'. induction l as [|i l IH]; intros s s' Hu Hr; [done|].
  cbn [foldl]. by apply IH; apply after_interior_face_congr.
Qed.

Lemma after_last_face_congr (s s' : State) :
  same_u1 s s' -> same_res s s' ->
  same_u1 (after_last_face numflux nc Vu s) (after_last_face numflux nc Vu s')
  /\ same_res (after_last_face numflux nc Vu s) (after_last_face numflux nc Vu s').
Proof.
  intros (H1 & H2 & H3) (H4 & H5 & H6).
  unfold same_u1, same_res, after_last_face, edge_state.
  cbn [rho1 mom1 ene1 resr resm rese set_res]. rewrite H1, H2, H3, H4, H5, H6. done.
Qed.

(** The assembled residual is a function of the working fields alone. *)
Lemma after_assemble_congr (s s' : State) :
  same_u1 s s' ->
  same_res (after_assemble flux numflux nc nd wg Vf Vg Vu s)
           (after_assemble flux numflux nc nd wg Vf Vg Vu s').
Proof.
  intros Hu. unfold after_assemble.
  destruct (after_volume_congr s s' Hu) as [Hu1 Hr1].
  destruct (after_first_face_congr _ _ Hu1 Hr1) as [Hu2 Hr2].
  destruct (after_interior_faces_congr _ _ Hu2 Hr2) as [Hu3 Hr3].
  by apply after_last_face_congr.
Qed.

End AssemblerFrame.

(** * Runge-Kutta stages and the time step *)

Lemma shaped_combine (a b lam : R) (n m : nat) (u0 u1 res : matrix) :
  shaped n m u0 -> shaped n m u1 -> shaped n m res ->
  shaped n m (combine a b lam u0 u1 res).
Proof.
  intros H0 H1 Hr. unfold combine.
  apply shaped_zip_with; [by apply shaped_scale2|].
  apply shaped_scale2, shaped_zip_with; [done|by apply shaped_scale2].
Qed.

Lemma rk_update_ok (rk : nat) (lam : R) (n m : nat) (u0 u1 res : matrix) :
  (rk < 3)%nat -> shaped n m u0 -> shaped n m u1 -> shaped n m res ->
  rk_update (Z.of_nat rk) lam u0 u1 res
  = Ok (combine (ark !!! rk) (brk !!! rk) lam u0 u1 res).
Proof.
  intros Hrk H0 H1 Hr. unfold rk_update, combine.
  rewrite (getitem_index ark _ rk) by (by apply index_of_nat). cbn [bind].
  rewrite (getitem_index brk _ rk) by (by apply index_of_nat). cbn [bind].
  rewrite (elementwise2_ok _ n m) by (done || by apply shaped_scale2). cbn [bind].
  rewrite (elementwise2_ok _ n m); cycle 1.
  { by apply shaped_scale2. }
  { apply shaped_scale2, shaped_zip_with; [done|by apply shaped_scale2]. }
  cbn [bind]. apply (assign_all_ok n m); [done|].
  by apply (shaped_combine _ _ _ n m).
Qed.

Lemma lookup_total_zip_with {A B C : Type} `{Inhabited A, Inhabited B, Inhabited C}
      (f : A -> B -> C) (l : list A) (k : list B) (i : nat) :
  (i < length l)%nat -> (i < length k)%nat ->
  zip_with f l k !!! i = f (l !!! i) (k !!! i).
Proof.
  intros Hl Hk. apply list_lookup_total_correct.
  rewrite lookup_zip_with.
  rewrite (list_lookup_lookup_total_lt l i Hl), (list_lookup_lookup_total_lt k i Hk).
  done.
Qed.

Lemma lookup_total_map {A B : Type} `{Inhabited A, Inhabited B}
      (f : A -> B) (l : list A) (i : nat) :
  (i < length l)%nat -> map f l !!! i = f (l !!! i).
Proof.
  intros Hl. apply list_lookup_total_correct.
  rewrite list_lookup_fmap, (list_lookup_lookup_total_lt l i Hl). done.
Qed.

Lemma entry_zip_with (f : R -> R -> R) (n m : nat) (a b : matrix) (i j : nat) :
  shaped n m a -> shaped n m b -> (i < n)%nat -> (j < m)%nat ->
  entry (zip_with (zip_with f) a b) i j = f (entry a i j) (entry b i j).
Proof.
  intros Ha Hb Hi Hj. unfold entry.
  pose proof (proj1 Ha) as La. pose proof (proj1 Hb) as Lb.
  pose proof (shaped_total n m a i Ha Hi) as Ra.
  pose proof (shaped_total n m b i Hb Hi) as Rb.
  rewrite lookup_total_zip_with by lia.
  rewrite lookup_total_zip_with by lia.
  reflexivity.
Qed.

Lemma entry_scale2 (c : R) (n m : nat) (a : matrix) (i j : nat) :
  shaped n m a -> (i < n)%nat -> (j < m)%nat ->
  entry (scale2 c a) i j = c * entry a i j.
Proof.
  intros Ha Hi Hj. unfold entry, scale2, scale.
  pose proof (proj1 Ha) as La.
  pose proof (shaped_total n m a i Ha Hi) as Ra.
  rewrite lookup_total_map by lia.
  rewrite lookup_total_map by lia.
  reflexivity.
Qed.

(** Entrywise reading of the stage update. *)
Lemma combine_entry (a b lam : R) (n m : nat) (u0 u1 res : matrix) (i j : nat) :
  shaped n m u0 -> shaped n m u1 -> shaped n m res ->
  (i < n)%nat -> (j < m)%nat ->
  entry (combine a b lam u0 u1 res) i j
  = a * entry u0 i j + b * (entry u1 i j - lam * entry res i j).
Proof.
  intros H0 H1 Hr Hi Hj. unfold combine.
  rewrite (entry_zip_with _ n m); try done; cycle 1.
  { by apply shaped_scale2. }
  { apply shaped_scale2, shaped_zip_with; [done|by apply shaped_scale2]. }
  rewrite !(entry_scale2 _ n m); try done; cycle 1.
  { apply shaped_zip_with; [done|by apply shaped_scale2]. }
  rewrite (entry_zip_with _ n m); try done; cycle 1.
  { by apply shaped_scale2. }
  rewrite (entry_scale2 _ n m) by done.
  reflexivity.
Qed.

Section Stage.

Variable flux : vector -> vector -> vector -> vector * vector * vector.
Variable numflux : R * R * R -> R * R * R -> R * R * R.
Variables nc nd nu : nat.
Variable dx : R.
Variable wg : vector.
Variables Vf Vg Vu : matrix.

Hypothesis flux_shape : elementwise_flux flux.
Hypothesis wg_shape : length wg = nd.
Hypothesis Vf_shape : shaped nd nd Vf.
Hypothesis Vg_shape : shaped nd nd Vg.
Hypothesis Vu_shape : shaped nu nd Vu.
Hypothesis nu_pos : (1 <= nu)%nat.
Hypothesis nc_pos : (1 <= nc)%nat.

Lemma well_shaped_after_volume (s : State) :
  well_shaped nc nd s -> well_shaped nc nd (after_volume flux nc nd wg Vf Vg s).
Proof.
  intros Hs. unfold after_volume.
  apply well_shaped_set_res; [done|..]; by apply shaped_volume_rows.
Qed.

Lemma assemble_ok (s : State) :
  well_shaped nc nd s ->
  assemble flux numflux nc nd wg Vf Vg Vu s
  = Ok (after_assemble flux numflux nc nd wg Vf Vg Vu s).
Proof.
  intros Hs. unfold assemble, after_assemble.
  rewrite volume_integrals_ok by done. cbn [bind].
  pose proof (well_shaped_after_volume s Hs) as H1.
  rewrite (first_face_ok numflux nc nd nu) by done. cbn [bind].
  pose proof (well_shaped_after_first_face numflux nc nd nu Vu Vu_shape nu_pos _ H1 nc_pos)
    as H2.
  rewrite (interior_faces_ok numflux nc nd nu) by done. cbn [bind].
  pose proof (well_shaped_after_interior_faces numflux nc nd nu Vu Vu_shape nu_pos _ H2
                nc_pos) as H3.
  by apply (last_face_ok numflux nc nd nu).
Qed.

Lemma well_shaped_after_assemble (s : State) :
  well_shaped nc nd s ->
  well_shaped nc nd (after_assemble flux numflux nc nd wg Vf Vg Vu s).
Proof.
  intros Hs. unfold after_assemble.
  apply (well_shaped_after_last_face numflux nc nd nu); try done.
  apply (well_shaped_after_interior_faces numflux nc nd nu); try done.
  apply (well_shaped_after_first_face numflux nc nd nu); try done.
  by apply well_shaped_after_volume.
Qed.

Lemma rk_stage_ok (lam : R) (rk : nat) (s : State) :
  (rk < 3)%nat -> well_shaped nc nd s ->
  rk_stage flux numflux nc nd wg Vf Vg Vu lam (Z.of_nat rk) s
  = Ok (after_stage flux numflux nc nd wg Vf Vg Vu lam rk s).
Proof.
  intros Hrk Hs. unfold rk_stage, after_stage.
  rewrite assemble_ok by done. cbn [bind].
  pose proof (well_shaped_after_assemble s Hs)
    as (H0 & H1 & H2 & H3 & H4 & H5 & H6 & H7 & H8).
  rewrite !(rk_update_ok rk lam nc nd) by done.
  done.
Qed.

Lemma well_shaped_after_stage (lam : R) (rk : nat) (s : State) :
  well_shaped nc nd s ->
  well_shaped nc nd (after_stage flux numflux nc nd wg Vf Vg Vu lam rk s).
Proof.
  intros Hs. unfold after_stage.
  pose proof (well_shaped_after_assemble s Hs)
    as (H0 & H1 & H2 & H3 & H4 & H5 & H6 & H7 & H8).
  unfold well_shaped. cbn [rho0 rho1 mom0 mom1 ene0 ene1 resr resm rese set_u1].
  repeat match goal with |- _ /\ _ => split end; try done; by apply shaped_combine.
Qed.

(** One pass through the loop body succeeds and yields [after_step]. *)
Lemma time_step_ok (Tf : R) (σ : Sim) :
  well_shaped nc nd (arrays σ) ->
  time_step flux numflux nc nd dx wg Vf Vg Vu Tf σ
  = Ok (after_step flux numflux nc nd dx wg Vf Vg Vu Tf σ).
Proof.
  intros Hs. unfold time_step, after_step, step_dt, step_lam.
  pose proof Hs as (H0 & H1 & H2 & H3 & H4 & H5 & H6 & H7 & H8).
  pose proof (well_shaped_set_u0 _ _ _ Hs) as Hs0.
  destruct (Rgt_dec (t σ + dt σ) Tf) as [Hclip|Hclip];
    rewrite !(assign_all_ok nc nd) by done; cbn [bind];
    change (range 0 3) with [Z.of_nat 0; Z.of_nat 1; Z.of_nat 2];
    cbn [for_each];
    rewrite (rk_stage_ok _ 0) by (done || lia); cbn [bind];
    rewrite (rk_stage_ok _ 1) by (lia || by apply well_shaped_after_stage); cbn [bind];
    rewrite (rk_stage_ok _ 2)
      by (lia || by do 2 apply well_shaped_after_stage); cbn [bind];
    reflexivity.
Qed.

Lemma well_shaped_after_step (Tf : R) (σ : Sim) :
  well_shaped nc nd (arrays σ) ->
  well_shaped nc nd (arrays (after_step flux numflux nc nd dx wg Vf Vg Vu Tf σ)).
Proof.
  intros Hs. unfold after_step. cbn [arrays].
  do 3 apply well_shaped_after_stage. by apply well_shaped_set_u0.
Qed.

End Stage.

(** * Projection of the initial condition *)

Section Projection.

Variable xmin : R.
Variable initial_condition : vector -> vector * vector * vector.
Variable max_speed : matrix -> matrix -> matrix -> R.
Variables nc nd : nat.
Variable dx : R.
Variables xg wg : vector.
Variable Vf : matrix.

Hypothesis ic_shape : vectorised initial_condition.
Hypothesis xg_shape : length xg = nd.
Hypothesis wg_shape : length wg = nd.
Hypothesis Vf_shape : shaped nd nd Vf.

Lemma shaped_projection_rows (pick : vector * vector * vector -> vector) :
  shaped nc nd (projection_rows xmin initial_condition nc nd dx xg wg Vf pick).
Proof.
  unfold projection_rows. split.
  - by rewrite length_map, length_seq.
  - apply Forall_map, Forall_forall. intros i _. simpl.
    by rewrite length_map, length_moments.
Qed.

Lemma lookup_projection_rows (pick : vector * vector * vector -> vector) (i : nat) :
  (i < nc)%nat ->
  projection_rows xmin initial_condition nc nd dx xg wg Vf pick !! i
  = Some (map (Rmult 0.5)
              (moments wg Vf nd (pick (initial_condition (cell_points xmin dx xg i))))).
Proof.
  intros Hi. unfold projection_rows. by rewrite list_lookup_fmap, lookup_seq_lt.
Qed.

Lemma project_ok (s : State) :
  well_shaped nc nd s ->
  project xmin initial_condition nc nd dx xg wg Vf s
  = Ok (after_project xmin initial_condition nc nd dx xg wg Vf s).
Proof.
  intros (_ & Hr1 & _ & Hm1 & _ & He1 & _ & _ & _).
  unfold project, after_project.
  set (PR := projection_rows xmin initial_condition nc nd dx xg wg Vf (fun f => f.1.1)).
  set (PM := projection_rows xmin initial_condition nc nd dx xg wg Vf (fun f => f.1.2)).
  set (PE := projection_rows xmin initial_condition nc nd dx xg wg Vf (fun f => f.2)).
  pose proof (shaped_projection_rows (fun f => f.1.1)) as [HPR _].
  pose proof (shaped_projection_rows (fun f => f.1.2)) as [HPM _].
  pose proof (shaped_projection_rows (fun f => f.2)) as [HPE _].
  fold PR in HPR. fold PM in HPM. fold PE in HPE.
  pose proof (proj1 Hr1) as Lr. pose proof (proj1 Hm1) as Lm.
  pose proof (proj1 He1) as Le.
  apply (for_each_range_eq
    (fun n => set_u1 s (fill n PR (rho1 s)) (fill n PM (mom1 s)) (fill n PE (ene1 s)))).
  - lia.
  - rewrite !fill_0. symmetry. apply set_u1_same.
  - by rewrite !(fill_full nc).
  - intros n [_ Hn].
    fold (cell_points xmin dx xg n).
    pose proof (lookup_projection_rows (fun f => f.1.1) n Hn) as Hnr.
    pose proof (lookup_projection_rows (fun f => f.1.2) n Hn) as Hnm.
    pose proof (lookup_projection_rows (fun f => f.2) n Hn) as Hne.
    fold PR in Hnr. fold PM in Hnm. fold PE in Hne.
    destruct (ic_shape (cell_points xmin dx xg n)) as (Hf1 & Hf2 & Hf3).
    assert (length (cell_points xmin dx xg n) = nd) as Lx
        by (unfold cell_points; by rewrite length_map).
    rewrite Lx in Hf1, Hf2, Hf3.
    destruct (initial_condition (cell_points xmin dx xg n)) as [[rho mom] ene].
    cbn [fst snd] in Hf1, Hf2, Hf3, Hnr, Hnm, Hne.
    destruct (shaped_row _ _ _ n Hr1 Hn) as [Or Lor].
    destruct (shaped_row _ _ _ n Hm1 Hn) as [Om Lom].
    destruct (shaped_row _ _ _ n He1 Hn) as [Oe Loe].
    set (nr := map (Rmult 0.5) (moments wg Vf nd rho)) in *.
    set (nm := map (Rmult 0.5) (moments wg Vf nd mom)) in *.
    set (ne := map (Rmult 0.5) (moments wg Vf nd ene)) in *.
    assert (length nr = nd /\ length nm = nd /\ length ne = nd) as (Lnr & Lnm & Lne).
    { unfold nr, nm, ne. by rewrite !length_map, !length_moments. }
    apply (for_each_range_eq
      (fun j => set_u1 s (<[n := fill j nr (rho1 s !!! n)]> (fill n PR (rho1 s)))
                         (<[n := fill j nm (mom1 s !!! n)]> (fill n PM (mom1 s)))
                         (<[n := fill j ne (ene1 s !!! n)]> (fill n PE (ene1 s))))).
    + lia.
    + rewrite !fill_0. f_equal; symmetry; apply fill_row_start; (done || lia).
    + rewrite !(fill_full nd) by done.
      f_equal; symmetry; apply fill_insert; (done || lia).
    + intros j [_ Hj]. cbn [rho1 mom1 ene1 set_u1].
      assert (length (weighted_columnp wg Vf j) = nd) as Lw.
      { rewrite length_weighted_columnp; destruct Vf_shape as [-> _]; done. }
      rewrite (weighted_column_ok wg nd nd) by done. cbn [bind].
      rewrite dot_ok by lia. cbn [bind].
      rewrite setitem2_fill; cycle 1.
      { rewrite length_fill; lia. }
      { lia. }
      { unfold nr. by apply lookup_half_moments. }
      cbn [bind].
      rewrite dot_ok by lia. cbn [bind].
      rewrite setitem2_fill; cycle 1.
      { rewrite length_fill; lia. }
      { lia. }
      { unfold nm. by apply lookup_half_moments. }
      cbn [bind].
      rewrite dot_ok by lia. cbn [bind].
      rewrite setitem2_fill; cycle 1.
      { rewrite length_fill; lia. }
      { lia. }
      { unfold ne. by apply lookup_half_moments. }
      done.
Qed.

Lemma well_shaped_zero_state : well_shaped nc nd (zero_state nc nd).
Proof.
  unfold well_shaped, zero_state. cbn.
  repeat match goal with |- _ /\ _ => split end; apply shaped_zeros2.
Qed.

Lemma well_shaped_after_project (s : State) :
  well_shaped nc nd s ->
  well_shaped nc nd (after_project xmin initial_condition nc nd dx xg wg Vf s).
Proof.
  intros (H0 & H1 & H2 & H3 & H4 & H5 & H6 & H7 & H8).
  unfold well_shaped, after_project. cbn [rho0 rho1 mom0 mom1 ene0 ene1 resr resm rese set_u1].
  repeat match goal with |- _ /\ _ => split end; try done;
    apply shaped_projection_rows.
Qed.

Lemma start_ok (cfl : R) :
  start xmin initial_condition max_speed nc nd dx xg wg Vf cfl
  = Ok (initial_sim xmin initial_condition max_speed nc nd dx xg wg Vf cfl).
Proof.
  unfold start, initial_sim. fold (zero_state nc nd).
  rewrite project_ok by apply well_shaped_zero_state. done.
Qed.

End Projection.

(** * Uniform points and the edge rows of [Vu] *)

Lemma length_linspace (a b : R) (n : nat) : length (linspace a b n) = n.
Proof. unfold linspace. by rewrite length_map, length_seq. Qed.

Lemma linspace_first (a b : R) (n : nat) :
  (2 <= n)%nat -> linspace a b n !! 0%nat = Some a.
Proof.
  intros Hn. unfold linspace.
  rewrite list_lookup_fmap, lookup_seq_lt by lia. cbn [fmap option_fmap option_map].
  rewrite decide_False by lia. f_equal.
  change (INR (0 + 0)) with 0. lra.
Qed.

Lemma linspace_last (a b : R) (n : nat) :
  (1 <= n)%nat -> linspace a b n !! (n - 1)%nat = Some b.
Proof.
  intros Hn. unfold linspace.
  rewrite list_lookup_fmap, lookup_seq_lt by lia. cbn [fmap option_fmap option_map].
  rewrite decide_True by lia. done.
Qed.

Lemma lookup_total_table (f : Z -> R -> R) (nd i : nat) (pts : vector) (x : R) :
  pts !! i = Some x -> table f nd pts !!! i = basis_row f nd x.
Proof. intros H. apply list_lookup_total_correct. by apply lookup_table. Qed.

(** * The time step in terms of the residual operator *)

Section StepFormula.

Variable flux : vector -> vector -> vector -> vector * vector * vector.
Variable numflux : R * R * R -> R * R * R -> R * R * R.
Variables nc nd : nat.
Variable dx : R.
Variable wg : vector.
Variables Vf Vg Vu : matrix.

Local Abbreviation asm := (after_assemble flux numflux nc nd wg Vf Vg Vu).
Local Abbreviation Res := (residual flux numflux nc nd wg Vf Vg Vu).

Lemma after_assemble_set_res (s : State) :
  asm s = set_res s (resr (asm s)) (resm (asm s)) (rese (asm s)).
Proof. apply after_assemble_frame. Qed.

Lemma residuals_after_assemble (s : State) : residuals (asm s) = Res (fields s).
Proof.
  unfold residuals, residual, fields. cbn [fst snd].
  destruct (after_assemble_congr flux numflux nc nd wg Vf Vg Vu s
              (mkState (rho1 s) (rho1 s) (mom1 s) (mom1 s) (ene1 s) (ene1 s)
                       (rho1 s) (mom1 s) (ene1 s))) as (H1 & H2 & H3).
  { by unfold same_u1. }
  by rewrite H1, H2, H3.
Qed.

(** The residual arrays found on entry do not matter. *)
Lemma after_assemble_ignores_res (s : State) (r m e : matrix) :
  asm (set_res s r m e) = asm s.
Proof.
  rewrite (after_assemble_set_res (set_res s r m e)), (after_assemble_set_res s).
  destruct (after_assemble_congr flux numflux nc nd wg Vf Vg Vu (set_res s r m e) s)
    as (H1 & H2 & H3).
  { by unfold same_u1. }
  rewrite H1, H2, H3. reflexivity.
Qed.

Lemma brk_ark (rk : nat) : (rk < 3)%nat -> brk !!! rk = 1 - ark !!! rk.
Proof.
  intros Hrk. destruct rk as [|[|[|rk]]]; [reflexivity..|lia].
Qed.

Lemma fields_after_stage (lam : R) (rk : nat) (s : State) :
  (rk < 3)%nat ->
  fields (after_stage flux numflux nc nd wg Vf Vg Vu lam rk s)
  = ssprk_stage Res lam (start_fields s) (ark !!! rk) (fields s).
Proof.
  intros Hrk. unfold after_stage, ssprk_stage, fields at 1.
  cbn [rho1 mom1 ene1 set_u1]. rewrite brk_ark by done.
  rewrite <- residuals_after_assemble.
  rewrite (after_assemble_set_res s) at 1 2 4 5 7 8.
  reflexivity.
Qed.

Lemma start_fields_after_stage (lam : R) (rk : nat) (s : State) :
  start_fields (after_stage flux numflux nc nd wg Vf Vg Vu lam rk s) = start_fields s.
Proof.
  unfold after_stage, start_fields. cbn [rho0 mom0 ene0 set_u1].
  rewrite (after_assemble_set_res s). reflexivity.
Qed.

Lemma after_stage_ignores_res (lam : R) (rk : nat) (s : State) (r m e : matrix) :
  after_stage flux numflux nc nd wg Vf Vg Vu lam rk (set_res s r m e)
  = after_stage flux numflux nc nd wg Vf Vg Vu lam rk s.
Proof. unfold after_stage. by rewrite after_assemble_ignores_res. Qed.

Lemma fields_after_step (Tf : R) (σ : Sim) :
  let u0 := fields (arrays σ) in
  let S := ssprk_stage Res (step_lam dx Tf σ) u0 in
  fields (arrays (after_step flux numflux nc nd dx wg Vf Vg Vu Tf σ))
  = S (1 / 3) (S (3 / 4) (S 0 u0))
  /\ start_fields (arrays (after_step flux numflux nc nd dx wg Vf Vg Vu Tf σ)) = u0.
Proof.
  intros u0 S. unfold after_step. cbn [arrays]. split.
  - rewrite !fields_after_stage by lia.
    rewrite !start_fields_after_stage. reflexivity.
  - rewrite !start_fields_after_stage. reflexivity.
Qed.

End StepFormula.

Section LoopInvariants.

Variable flux : vector -> vector -> vector -> vector * vector * vector.
Variable numflux : R * R * R -> R * R * R -> R * R * R.
Variables nc nd nu : nat.
Variable dx : R.
Variable wg : vector.
Variables Vf Vg Vu : matrix.

Hypothesis flux_shape : elementwise_flux flux.
Hypothesis wg_shape : length wg = nd.
Hypothesis Vf_shape : shaped nd nd Vf.
Hypothesis Vg_shape : shaped nd nd Vg.
Hypothesis Vu_shape : shaped nu nd Vu.
Hypothesis nu_pos : (1 <= nu)%nat.
Hypothesis nc_pos : (1 <= nc)%nat.

Local Abbreviation asm := (after_assemble flux numflux nc nd wg Vf Vg Vu).
Local Abbreviation Res := (residual flux numflux nc nd wg Vf Vg Vu).

Lemma shaped3_residual (u : matrix * matrix * matrix) :
  shaped3 nc nd u -> shaped3 nc nd (Res u).
Proof.
  intros (H1 & H2 & H3). unfold residual, shaped3. cbn [fst snd].
  assert (well_shaped nc nd
            (mkState u.1.1 u.1.1 u.1.2 u.1.2 u.2 u.2 u.1.1 u.1.2 u.2)) as Hs.
  { unfold well_shaped. cbn. tauto. }
  assert (well_shaped nc nd
            (asm (mkState u.1.1 u.1.1 u.1.2 u.1.2 u.2 u.2 u.1.1 u.1.2 u.2)))
    as (_ & _ & _ & _ & _ & _ & H7 & H8 & H9)
    by (by apply (well_shaped_after_assemble flux numflux nc nd nu)).
  done.
Qed.

(** Invariants of the loop head. *)
Lemma loop_state_well_shaped (Tf : R) (σ0 σ : Sim) :
  loop_state flux numflux nc nd dx wg Vf Vg Vu Tf σ0 σ ->
  well_shaped nc nd (arrays σ0) -> well_shaped nc nd (arrays σ).
Proof.
  induction 1 as [|σ σ' Hσ IH Ht Hstep]; intros H0; [done|].
  rewrite (time_step_ok flux numflux nc nd nu) in Hstep by auto.
  injection Hstep as <-.
  apply (well_shaped_after_step flux numflux nc nd nu); auto.
Qed.

Lemma loop_state_lam (Tf : R) (σ0 σ : Sim) :
  loop_state flux numflux nc nd dx wg Vf Vg Vu Tf σ0 σ ->
  well_shaped nc nd (arrays σ0) -> lam σ0 = dt σ0 / dx -> lam σ = dt σ / dx.
Proof.
  induction 1 as [|σ σ' Hσ IH Ht Hstep]; intros H0 Hl; [done|].
  rewrite (time_step_ok flux numflux nc nd nu) in Hstep
    by (auto; by eapply loop_state_well_shaped).
  injection Hstep as <-.
  unfold after_step, step_lam, step_dt. cbn [lam dt].
  destruct (Rgt_dec (t σ + dt σ) Tf); auto.
Qed.

End LoopInvariants.

(** * Evaluation on concrete arrays *)

(** Unfold everything but the arithmetic of the reals, then compare arrays
    entry by entry. *)
Ltac evaluate :=
  cbv -[IZR Rplus Rmult Rminus Ropp Rdiv Rinv Rlt_dec Rgt_dec sqrt].
Ltac vec_eq := repeat first [ reflexivity | apply (f_equal2 (@cons _)) | lra ].

Lemma advection_flux_elementwise : elementwise_flux Advection.flux.
Proof.
  intros a b c Hab Hbc. unfold Advection.flux. cbn [fst snd].
  repeat split; congruence.
Qed.

Lemma advection_ic_vectorised : vectorised Advection.initial_condition.
Proof.
  intros x. unfold Advection.initial_condition. cbn [fst snd].
  by rewrite !length_map.
Qed.

(** * Claims *)

Section Safety.

Variables shape_value shape_grad : Z -> R -> R.
Variable flux : vector -> vector -> vector -> vector * vector * vector.
Variable numflux : R * R * R -> R * R * R -> R * R * R.

(** C9: for every degree [k >= 0] the table [Vu] has
    [nu = max(2, k+1) >= 2] rows, so the edge rows [Vu[0]] and [Vu[-1]]
    (the basis at [-1] and at [+1]) are distinct rows within bounds, also
    when [nd = 1]; and for every [nc >= 1] the cell indices [0], [-1],
    [i-1] and [i] ([1 <= i < nc]) used by the cell and face loops are
    within the [nc] by [nd] arrays, so that the assembler raises no
    exception. *)
Theorem C9_edge_rows_and_cells_in_bounds (k : Z) (nc : nat) (xg wg : vector) :
  (0 <= k)%Z -> (1 <= nc)%nat ->
  length xg = Z.to_nat (k + 1) -> length wg = Z.to_nat (k + 1) ->
  elementwise_flux flux ->
  let nd := Z.to_nat (k + 1) in
  let nu := Z.to_nat (Z.max 2 (k + 1)) in
  exists Vf Vg Vu : matrix,
    gauss_tables shape_value shape_grad nd xg = Ok (Vf, Vg) /\
    uniform_table shape_value nu nd (linspace (-1) 1 nu) = Ok Vu /\
    shaped nu nd Vu /\ (2 <= nu)%nat /\
    index nu 0 = Ok 0%nat /\ index nu (-1) = Ok (nu - 1)%nat /\
    0%nat <> (nu - 1)%nat /\
    getitem Vu 0 = Ok (basis_row shape_value nd (-1)) /\
    getitem Vu (-1) = Ok (basis_row shape_value nd 1) /\
    index nc 0 = Ok 0%nat /\ index nc (-1) = Ok (nc - 1)%nat /\
    (forall i : nat, (i < nc)%nat -> index nc (Z.of_nat i) = Ok i) /\
    (forall i : nat, (1 <= i < nc)%nat ->
                     index nc (Z.of_nat i - 1) = Ok (i - 1)%nat) /\
    (forall s : State, well_shaped nc nd s ->
       exists s' : State,
         assemble flux numflux nc nd wg Vf Vg Vu s = Ok s' /\
         well_shaped nc nd s').
Proof.
  intros Hk Hnc Hxg Hwg Hflux nd nu.
  assert (2 <= nu)%nat as Hnu by (unfold nu; lia).
  set (xu := linspace (-1) 1 nu).
  assert (length xu = nu) as Hxu by apply length_linspace.
  exists (table shape_value nd xg), (table shape_grad nd xg), (table shape_value nd xu).
  assert (shaped nu nd (table shape_value nd xu)) as HVu.
  { rewrite <- Hxu at 1. apply shaped_table. }
  assert (shaped nd nd (table shape_value nd xg)) as HVf.
  { replace nd with (length xg) at 1 by done. apply shaped_table. }
  assert (shaped nd nd (table shape_grad nd xg)) as HVg.
  { replace nd with (length xg) at 1 by done. apply shaped_table. }
  split; [by apply gauss_tables_ok|].
  split; [by apply uniform_table_ok|].
  split; [done|]. split; [done|].
  split; [apply index_zero; lia|].
  split; [apply index_last; lia|].
  split; [lia|].
  split.
  { rewrite (getitem_index _ 0 0).
    - f_equal. apply lookup_total_table. apply linspace_first. lia.
    - rewrite (proj1 HVu). apply index_zero. lia. }
  split.
  { rewrite (getitem_index _ (-1) (nu - 1)).
    - f_equal. apply lookup_total_table. apply linspace_last. lia.
    - rewrite (proj1 HVu). apply index_last. lia. }
  split; [apply index_zero; lia|].
  split; [apply index_last; lia|].
  split; [intros i Hi; by apply index_of_nat|].
  split; [intros i Hi; apply index_pred; lia|].
  intros s Hs. eexists. split.
  - apply (assemble_ok flux numflux nc nd nu); (done || lia).
  - apply (well_shaped_after_assemble flux numflux nc nd nu); (done || lia).
Qed.

End Safety.

Lemma C9_edge_rows_and_cells_in_bounds_witness :
  exists Vf Vg Vu : matrix,
    gauss_tables Advection.shape_value Advection.shape_grad 1 [0] = Ok (Vf, Vg) /\
    uniform_table Advection.shape_value 2 1 (linspace (-1) 1 2) = Ok Vu /\
    shaped 2 1 Vu /\ (2 <= 2)%nat /\
    index 2 0 = Ok 0%nat /\ index 2 (-1) = Ok 1%nat /\ 0%nat <> 1%nat /\
    getitem Vu 0 = Ok (basis_row Advection.shape_value 1 (-1)) /\
    getitem Vu (-1) = Ok (basis_row Advection.shape_value 1 1) /\
    index 3 0 = Ok 0%nat /\ index 3 (-1) = Ok 2%nat /\
    (forall i : nat, (i < 3)%nat -> index 3 (Z.of_nat i) = Ok i) /\
    (forall i : nat, (1 <= i < 3)%nat -> index 3 (Z.of_nat i - 1) = Ok (i - 1)%nat) /\
    (forall s : State, well_shaped 3 1 s ->
       exists s' : State,
         assemble Advection.flux Advection.numflux 3 1 [2]
                  Vf Vg Vu s = Ok s' /\
         well_shaped 3 1 s').
Proof.
  apply (C9_edge_rows_and_cells_in_bounds
           Advection.shape_value Advection.shape_grad
           Advection.flux Advection.numflux 0 3 [0] [2]).
  - lia.
  - lia.
  - reflexivity.
  - reflexivity.
  - exact advection_flux_elementwise.
Defined.

Section TimeStep.

Variable flux : vector -> vector -> vector -> vector * vector * vector.
Variable numflux : R * R * R -> R * R * R -> R * R * R.
Variables nc nd nu : nat.
Variable dx : R.
Variable wg : vector.
Variables Vf Vg Vu : matrix.

Hypothesis flux_shape : elementwise_flux flux.
Hypothesis wg_shape : length wg = nd.
Hypothesis Vf_shape : shaped nd nd Vf.
Hypothesis Vg_shape : shaped nd nd Vg.
Hypothesis Vu_shape : shaped nu nd Vu.
Hypothesis nu_pos : (1 <= nu)%nat.
Hypothesis nc_pos : (1 <= nc)%nat.

Local Abbreviation stage := (rk_stage flux numflux nc nd wg Vf Vg Vu).
Local Abbreviation step := (time_step flux numflux nc nd dx wg Vf Vg Vu).
Local Abbreviation Res := (residual flux numflux nc nd wg Vf Vg Vu).

(** C10: within one time step the step-start copies [rho0], [mom0],
    [ene0] are written once, before stage 0, and no stage modifies them,
    so every stage combines with the state at step start; and the
    residual arrays are overwritten completely by the cell-integral loop
    of each stage, so whatever they held before has no influence. *)
Theorem C10_step_start_copies_and_residual_overwrite (Tf : R) (σ : Sim) :
  well_shaped nc nd (arrays σ) ->
  let u := fields (arrays σ) in
  let l := step_lam dx Tf σ in
  let s0 := set_u0 (arrays σ) (rho1 (arrays σ)) (mom1 (arrays σ)) (ene1 (arrays σ)) in
  (exists s1 s2 s3 : State,
      stage l 0 s0 = Ok s1 /\ stage l 1 s1 = Ok s2 /\ stage l 2 s2 = Ok s3 /\
      step Tf σ = Ok (mkSim s3 (it σ + 1) (t σ + step_dt Tf σ) (step_dt Tf σ) l) /\
      start_fields s0 = u /\ start_fields s1 = u /\
      start_fields s2 = u /\ start_fields s3 = u) /\
  (forall (lam : R) (rk : nat) (s : State),
      (rk < 3)%nat -> well_shaped nc nd s ->
      exists s' : State,
        stage lam (Z.of_nat rk) s = Ok s' /\ start_fields s' = start_fields s) /\
  (forall (s : State) (r m e : matrix),
      well_shaped nc nd s ->
      shaped nc nd r -> shaped nc nd m -> shaped nc nd e ->
      exists v : State,
        volume_integrals flux nc nd wg Vf Vg s = Ok v /\
        volume_integrals flux nc nd wg Vf Vg (set_res s r m e) = Ok v) /\
  (forall (lam : R) (rk : nat) (s : State) (r m e : matrix),
      (rk < 3)%nat -> well_shaped nc nd s ->
      shaped nc nd r -> shaped nc nd m -> shaped nc nd e ->
      exists s' : State,
        stage lam (Z.of_nat rk) s = Ok s' /\
        stage lam (Z.of_nat rk) (set_res s r m e) = Ok s').
Proof.
  intros Hs u l s0.
  assert (well_shaped nc nd s0) as Hs0 by (by apply well_shaped_set_u0).
  split; [|split; [|split]].
  - exists (after_stage flux numflux nc nd wg Vf Vg Vu l 0 s0).
    exists (after_stage flux numflux nc nd wg Vf Vg Vu l 1
              (after_stage flux numflux nc nd wg Vf Vg Vu l 0 s0)).
    exists (after_stage flux numflux nc nd wg Vf Vg Vu l 2
              (after_stage flux numflux nc nd wg Vf Vg Vu l 1
                 (after_stage flux numflux nc nd wg Vf Vg Vu l 0 s0))).
    assert (forall rk s, well_shaped nc nd s ->
              well_shaped nc nd (after_stage flux numflux nc nd wg Vf Vg Vu l rk s))
      as Hpres by (intros; eapply well_shaped_after_stage; eauto).
    split.
    { eapply (rk_stage_ok flux numflux nc nd nu) with (rk := 0%nat); eauto. }
    split.
    { eapply (rk_stage_ok flux numflux nc nd nu) with (rk := 1%nat); eauto. }
    split.
    { eapply (rk_stage_ok flux numflux nc nd nu) with (rk := 2%nat); eauto. }
    split; [by apply (time_step_ok flux numflux nc nd nu)|].
    rewrite !start_fields_after_stage. done.
  - intros lam rk s Hrk Hws. eexists. split.
    + by apply (rk_stage_ok flux numflux nc nd nu).
    + apply start_fields_after_stage.
  - intros s r m e Hws Hr Hm He. eexists. split.
    + by apply volume_integrals_ok.
    + rewrite volume_integrals_ok; try done.
      by apply well_shaped_set_res.
  - intros lam rk s r m e Hrk Hws Hr Hm He. eexists. split.
    + by apply (rk_stage_ok flux numflux nc nd nu).
    + rewrite (rk_stage_ok flux numflux nc nd nu);
        [by rewrite after_stage_ignores_res|done..|].
      by apply well_shaped_set_res.
Qed.

(** C3: every pass through the loop body advances the working fields by
    exactly three stages with coefficients [a = 0, 3/4, 1/3] and
    [b = 1 - a], each stage replacing [u1], in all three fields, by
    [a*u0 + b*(u1 - lambda*residual(u1))] with [lambda = dt/dx], where
    [u0] is the state at the start of the step; the result of the third
    stage is the new state. *)
Theorem C3_three_stage_runge_kutta (Tf : R) (σ0 σ : Sim) :
  well_shaped nc nd (arrays σ0) -> lam σ0 = dt σ0 / dx ->
  loop_state flux numflux nc nd dx wg Vf Vg Vu Tf σ0 σ -> t σ < Tf ->
  exists σ' : Sim,
    step Tf σ = Ok σ' /\
    let u0 := fields (arrays σ) in
    let S := ssprk_stage Res (dt σ' / dx) u0 in
    ark = [0; 3 / 4; 1 / 3] /\ brk = [1 - 0; 1 - 3 / 4; 1 - 1 / 3] /\
    lam σ' = dt σ' / dx /\ t σ' = t σ + dt σ' /\
    fields (arrays σ') = S (1 / 3) (S (3 / 4) (S 0 u0)) /\
    start_fields (arrays σ') = u0 /\
    (forall s : State, well_shaped nc nd s ->
       exists s' : State,
         assemble flux numflux nc nd wg Vf Vg Vu s = Ok s' /\
         residuals s' = Res (fields s)) /\
    (forall (a : R) (u : matrix * matrix * matrix) (i j : nat),
       shaped3 nc nd u -> (i < nc)%nat -> (j < nd)%nat ->
       let l := dt σ' / dx in
       entry (S a u).1.1 i j
       = a * entry u0.1.1 i j
         + (1 - a) * (entry u.1.1 i j - l * entry (Res u).1.1 i j) /\
       entry (S a u).1.2 i j
       = a * entry u0.1.2 i j
         + (1 - a) * (entry u.1.2 i j - l * entry (Res u).1.2 i j) /\
       entry (S a u).2 i j
       = a * entry u0.2 i j
         + (1 - a) * (entry u.2 i j - l * entry (Res u).2 i j)).
Proof.
  intros Hs0 Hl0 Hloop Ht.
  assert (well_shaped nc nd (arrays σ)) as Hs
      by (eapply (loop_state_well_shaped flux numflux nc nd nu dx wg Vf Vg Vu); eauto).
  assert (lam σ = dt σ / dx) as Hl
      by (eapply (loop_state_lam flux numflux nc nd nu dx wg Vf Vg Vu); eauto).
  exists (after_step flux numflux nc nd dx wg Vf Vg Vu Tf σ).
  split; [by apply (time_step_ok flux numflux nc nd nu)|].
  assert (step_lam dx Tf σ = step_dt Tf σ / dx) as Hlam.
  { unfold step_lam, step_dt. destruct (Rgt_dec (t σ + dt σ) Tf); done. }
  cbn zeta.
  replace (dt (after_step flux numflux nc nd dx wg Vf Vg Vu Tf σ) / dx)
    with (step_lam dx Tf σ) by (by rewrite Hlam).
  split; [reflexivity|]. split; [reflexivity|].
  split; [reflexivity|]. split; [reflexivity|].
  destruct (fields_after_step flux numflux nc nd dx wg Vf Vg Vu Tf σ) as [HF HS].
  split; [exact HF|]. split; [exact HS|].
  split.
  - intros s Hws. eexists. split.
    + by apply (assemble_ok flux numflux nc nd nu).
    + apply residuals_after_assemble.
  - intros a u i j Hu Hi Hj.
    pose proof Hs as (_ & H1 & _ & H3 & _ & H5 & _ & _ & _).
    assert (shaped3 nc nd (Res u)) as (R1 & R2 & R3)
        by (eapply (shaped3_residual flux numflux nc nd nu); eauto).
    destruct Hu as (U1 & U2 & U3).
    unfold ssprk_stage, fields. cbn [fst snd].
    rewrite !(combine_entry _ _ _ nc nd) by done.
    done.
Qed.

End TimeStep.

Lemma advection_tables_shaped :
  length Advection.wg0 = 1%nat /\ shaped 1 1 Advection.Vf0 /\
  shaped 1 1 Advection.Vg0 /\ shaped 2 1 Advection.Vu0.
Proof.
  unfold shaped. cbn. repeat split; repeat constructor.
Qed.

(** * Finite sums *)

Lemma sumn_ext (n : nat) (f g : nat -> R) :
  (forall k, (k < n)%nat -> f k = g k) -> sumn n f = sumn n g.
Proof.
  revert f g. induction n as [|n IH]; intros f g H; [done|].
  cbn [sumn]. rewrite (H 0%nat) by lia. f_equal.
  apply IH. intros k Hk. apply H. lia.
Qed.

Lemma sumn_zero (n : nat) : sumn n (fun _ => 0) = 0.
Proof. induction n as [|n IH]; cbn [sumn]; [done|]. rewrite IH. lra. Qed.

Lemma sumn_plus (n : nat) (f g : nat -> R) :
  sumn n (fun k => f k + g k) = sumn n f + sumn n g.
Proof.
  revert f g. induction n as [|n IH]; intros f g; cbn [sumn]; [lra|].
  rewrite IH. lra.
Qed.

Lemma sumn_scale (n : nat) (c : R) (f : nat -> R) :
  sumn n (fun k => c * f k) = c * sumn n f.
Proof.
  revert f. induction n as [|n IH]; intros f; cbn [sumn]; [lra|].
  rewrite IH. lra.
Qed.

Lemma sumn_swap (n m : nat) (f : nat -> nat -> R) :
  sumn n (fun q => sumn m (fun i => f q i))
  = sumn m (fun i => sumn n (fun q => f q i)).
Proof.
  revert f. induction n as [|n IH]; intros f; cbn [sumn].
  - by rewrite sumn_zero.
  - rewrite IH, <- sumn_plus. done.
Qed.

Lemma sumn_delta (n j : nat) (f : nat -> R) :
  (j < n)%nat ->
  sumn n (fun i => f i * (if decide (i = j) then 1 else 0)) = f j.
Proof.
  revert j f. induction n as [|n IH]; intros j f Hj; [lia|].
  cbn [sumn]. destruct j as [|j].
  - rewrite decide_True by done.
    rewrite (sumn_ext n _ (fun _ => 0)), sumn_zero; [lra|].
    intros k _. rewrite decide_False by lia. lra.
  - rewrite decide_False by lia.
    rewrite (sumn_ext n _ (fun i => f (S i) * (if decide (i = j) then 1 else 0))).
    + rewrite (IH j (fun i => f (S i))) by lia. lra.
    + intros k _. destruct (decide (k = j)) as [->|Hne].
      * by rewrite decide_True.
      * rewrite decide_False by lia. done.
Qed.

Lemma vsum_sumn (a : vector) : vsum a = sumn (length a) (fun k => a !!! k).
Proof.
  induction a as [|x a IH]; [done|].
  cbn [vsum foldr length sumn]. fold (vsum a). rewrite IH. done.
Qed.

Lemma dotp_sumn (n : nat) (a b : vector) :
  length a = n -> length b = n ->
  dotp a b = sumn n (fun k => a !!! k * b !!! k).
Proof.
  revert a b. induction n as [|n IH]; intros a b Ha Hb.
  - destruct a; [|done]. done.
  - destruct a as [|x a]; [done|]. destruct b as [|y b]; [done|].
    unfold dotp. cbn [zip_with vsum foldr sumn].
    fold (vsum (zip_with Rmult a b)). fold (dotp a b).
    rewrite (IH a b) by (simpl in *; lia). done.
Qed.

Lemma dotp_comm (a b : vector) : dotp a b = dotp b a.
Proof.
  unfold dotp. revert b. induction a as [|x a IH]; intros [|y b]; try done.
  cbn [zip_with vsum foldr]. fold (vsum (zip_with Rmult a b)).
  fold (vsum (zip_with Rmult b a)). rewrite IH. lra.
Qed.

Lemma dotp_scale_r (k : R) (a b : vector) : dotp a (scale k b) = k * dotp a b.
Proof.
  unfold dotp, scale. revert b. induction a as [|x a IH]; intros [|y b];
    cbn [map zip_with vsum foldr]; try lra.
  fold (vsum (zip_with Rmult a (map (Rmult k) b))).
  fold (vsum (zip_with Rmult a b)). rewrite IH. lra.
Qed.

Lemma dotp_plus_r (a b c : vector) :
  length b = length c ->
  dotp a (zip_with Rplus b c) = dotp a b + dotp a c.
Proof.
  unfold dotp. revert b c.
  induction a as [|x a IH]; intros [|y b] [|z c] H; try done;
    cbn [zip_with vsum foldr]; try lra.
  fold (vsum (zip_with Rmult a (zip_with Rplus b c))).
  fold (vsum (zip_with Rmult a b)). fold (vsum (zip_with Rmult a c)).
  rewrite IH by (simpl in H; lia). lra.
Qed.

Lemma dotp_minus_r (a b c : vector) :
  length b = length c ->
  dotp a (zip_with Rminus b c) = dotp a b - dotp a c.
Proof.
  unfold dotp. revert b c.
  induction a as [|x a IH]; intros [|y b] [|z c] H; try done;
    cbn [zip_with vsum foldr]; try lra.
  fold (vsum (zip_with Rmult a (zip_with Rminus b c))).
  fold (vsum (zip_with Rmult a b)). fold (vsum (zip_with Rmult a c)).
  rewrite IH by (simpl in H; lia). lra.
Qed.

Lemma dotp_replicate_l (n : nat) (c : R) (a : vector) :
  length a = n -> dotp (replicate n c) a = c * vsum a.
Proof.
  unfold dotp. revert a. induction n as [|n IH]; intros [|x a] H; try done;
    cbn [replicate zip_with vsum foldr]; try lra.
  fold (vsum (zip_with Rmult (replicate n c) a)). fold (vsum a).
  rewrite IH by (simpl in H; lia). lra.
Qed.

(** * Consequences of an orthonormal basis that contains the constants *)

Section Orthonormal.

Variable nd : nat.
Variable wg : vector.
Variable Vf : matrix.
Variable c : vector.

Hypothesis wg_shape : length wg = nd.
Hypothesis Vf_shape : shaped nd nd Vf.
Hypothesis c_shape : length c = nd.
Hypothesis Vf_orthonormal : orthonormal nd wg Vf.
Hypothesis Vf_one : reproduces_one c Vf.

Lemma weighted_columnp_entry (j q : nat) :
  (q < nd)%nat ->
  weighted_columnp wg Vf j !!! q = (Vf !!! q) !!! j * wg !!! q.
Proof.
  intros Hq. unfold weighted_columnp, columnp.
  pose proof (proj1 Vf_shape) as L.
  rewrite lookup_total_zip_with by (rewrite ?length_map; lia).
  rewrite lookup_total_map by lia. done.
Qed.

Lemma Vf_row_one (q : nat) : (q < nd)%nat -> dotp (Vf !!! q) c = 1.
Proof.
  intros Hq. unfold reproduces_one in Vf_one. rewrite Forall_forall in Vf_one.
  apply Vf_one. apply list_elem_of_lookup_2 with q.
  apply list_lookup_lookup_total_lt. rewrite (proj1 Vf_shape). done.
Qed.

(** [sum_q wg[q]*Vf[q,j] = 2*c[j]]: the integral of basis function [j]. *)
Lemma weighted_column_sum (j : nat) :
  (j < nd)%nat -> vsum (weighted_columnp wg Vf j) = 2 * c !!! j.
Proof.
  intros Hj. pose proof (proj1 Vf_shape) as L.
  assert (length (weighted_columnp wg Vf j) = nd) as LW
      by (rewrite length_weighted_columnp; lia).
  rewrite vsum_sumn, LW.
  rewrite (sumn_ext nd _
    (fun q => sumn nd (fun i => c !!! i *
       (weighted_columnp wg Vf j !!! q * columnp Vf i !!! q)))).
  2:{ intros q Hq.
      rewrite <- (Rmult_1_r (weighted_columnp wg Vf j !!! q)) at 1.
      rewrite <- (Vf_row_one q Hq).
      rewrite (dotp_sumn nd) by (done || by apply (shaped_total nd nd)).
      rewrite <- sumn_scale. apply sumn_ext. intros i Hi.
      unfold columnp. rewrite lookup_total_map by lia. ring. }
  rewrite sumn_swap.
  rewrite (sumn_ext nd _ (fun i => (2 * c !!! i) * (if decide (i = j) then 1 else 0))).
  2:{ intros i Hi. rewrite sumn_scale.
      rewrite <- (dotp_sumn nd) by (done || (rewrite length_columnp; lia)).
      pose proof (Vf_orthonormal j i Hj Hi) as HO.
      destruct (decide (j = i)) as [->|Hne].
      - rewrite decide_True by done.
        replace (dotp (weighted_columnp wg Vf i) (columnp Vf i)) with 2 by lra. ring.
      - rewrite decide_False by congruence.
        replace (dotp (weighted_columnp wg Vf j) (columnp Vf i)) with 0 by lra. ring. }
  by rewrite (sumn_delta nd j (fun i => 2 * c !!! i)).
Qed.

(** The Gauss rule integrates the polynomial with coefficients [v] to
    twice its component along the constant. *)
Lemma cell_integral_constant_part (v : vector) :
  length v = nd -> cell_integral wg Vf v = 2 * dotp c v.
Proof.
  intros Hv. pose proof (proj1 Vf_shape) as L. unfold cell_integral.
  rewrite (dotp_sumn nd) by (done || (rewrite length_at_points; lia)).
  rewrite (sumn_ext nd _
    (fun q => sumn nd (fun j => v !!! j * weighted_columnp wg Vf j !!! q))).
  2:{ intros q Hq. unfold at_points. rewrite lookup_total_map by lia.
      rewrite (dotp_sumn nd) by (done || by apply (shaped_total nd nd)).
      rewrite <- sumn_scale. apply sumn_ext. intros j Hj.
      rewrite weighted_columnp_entry by done. ring. }
  rewrite sumn_swap.
  rewrite (dotp_sumn nd c v) by done. rewrite <- sumn_scale.
  apply sumn_ext. intros j Hj. rewrite sumn_scale.
  assert (length (weighted_columnp wg Vf j) = nd) as LW
      by (rewrite length_weighted_columnp; lia).
  rewrite <- LW at 1. rewrite <- vsum_sumn, weighted_column_sum by done. ring.
Qed.

End Orthonormal.

(** * Conservation *)

Lemma vsum_map_insert {A : Type} `{Inhabited A} (g : A -> R) (l : list A)
      (i : nat) (x : A) :
  (i < length l)%nat ->
  vsum (map g (<[i:=x]> l)) = vsum (map g l) - g (l !!! i) + g x.
Proof.
  unfold vsum. revert i. induction l as [|y l IH]; intros i Hi; [simpl in Hi; lia|].
  destruct i as [|i].
  - simpl. lra.
  - simpl. simpl in Hi. rewrite IH by lia. lra.
Qed.

Lemma total_integral_insert (dx : R) (wg : vector) (Vf : matrix) (a : matrix)
      (i : nat) (r : vector) :
  (i < length a)%nat ->
  total_integral dx wg Vf (<[i:=r]> a)
  = total_integral dx wg Vf a
    - 0.5 * dx * cell_integral wg Vf (a !!! i) + 0.5 * dx * cell_integral wg Vf r.
Proof. intros Hi. unfold total_integral. by rewrite vsum_map_insert. Qed.

Lemma weighted_columnp_lookup (wg : vector) (n m : nat) (V : matrix) (j q : nat) :
  shaped n m V -> length wg = n -> (q < n)%nat ->
  weighted_columnp wg V j !!! q = (V !!! q) !!! j * wg !!! q.
Proof.
  intros HV Hw Hq. unfold weighted_columnp, columnp.
  pose proof (proj1 HV) as L.
  rewrite lookup_total_zip_with by (rewrite ?length_map; lia).
  rewrite lookup_total_map by lia. done.
Qed.

Lemma total_integral_zero (dx : R) (wg : vector) (Vf : matrix) (a : matrix) :
  Forall (fun r => cell_integral wg Vf r = 0) a -> total_integral dx wg Vf a = 0.
Proof.
  unfold total_integral, vsum. induction 1 as [|r a Hr _ IH]; [done|].
  simpl. rewrite Hr, IH. lra.
Qed.

Lemma edge_state_frame (Vu : matrix) (e i : nat) (s s' : State) :
  only_res_changed s s' -> edge_state Vu e s' i = edge_state Vu e s i.
Proof. unfold only_res_changed. intros ->. reflexivity. Qed.

Lemma face_exchange_rows (nc nd : nat) (a : matrix) (i : nat) (f : R)
      (vl vr : vector) :
  shaped nc nd a -> (1 <= i < nc)%nat ->
  face_exchange f vl vr i a
    (sub_row (add_row a (i - 1) (scale f vl)) i (scale f vr)).
Proof.
  intros Ha Hi. pose proof (proj1 Ha) as L.
  unfold face_exchange, sub_row, add_row. split; [|split].
  - rewrite list_lookup_total_insert_ne by lia.
    apply list_lookup_total_insert_eq. lia.
  - rewrite list_lookup_total_insert_eq by (rewrite length_insert; lia).
    by rewrite list_lookup_total_insert_ne by lia.
  - intros k Hk1 Hk2. by rewrite !list_lookup_total_insert_ne by lia.
Qed.

(** * The assembled residual, cell by cell *)

Section ExchangeLoop.

Variables nc nd nu : nat.
Variable Vu : matrix.
Hypothesis Vu_shape : shaped nu nd Vu.
Hypothesis nu_pos : (1 <= nu)%nat.

Lemma length_Vu_nu : length Vu = nu.
Proof. exact (proj1 Vu_shape). Qed.

Lemma shaped_exchange (F : nat -> R) (a : matrix) (i : nat) :
  shaped nc nd a -> (1 <= i < nc)%nat -> shaped nc nd (exchange F Vu i a).
Proof.
  intros Ha Hi. unfold exchange.
  apply shaped_sub_row; [|lia|].
  - apply shaped_add_row; [done|lia|].
    rewrite length_scale. apply (Vu_row_length nd nu); [done|].
    rewrite length_Vu_nu. lia.
  - rewrite length_scale. apply (Vu_row_length nd nu); [done|lia].
Qed.

(** Rows of a residual array after the faces [1 .. m] have been visited:
    row [r] has lost the flux of its left face when [1 <= r <= m] and
    gained the flux of its right face when [r < m]. *)
Lemma exchanges_rows (F : nat -> R) (a : matrix) (m : nat) :
  shaped nc nd a -> (m < nc)%nat ->
  shaped nc nd (foldl (fun a i => exchange F Vu i a) a (seq 1 m)) /\
  forall r : nat, (r < nc)%nat ->
    foldl (fun a i => exchange F Vu i a) a (seq 1 m) !!! r =
    let b := if decide (1 <= r <= m)%nat
             then zip_with Rminus (a !!! r) (scale (F r) (Vu !!! 0%nat))
             else a !!! r in
    if decide (r < m)%nat
    then zip_with Rplus b (scale (F (r + 1)%nat) (Vu !!! (length Vu - 1)%nat))
    else b.
Proof.
  intros Ha. induction m as [|m IH]; intros Hm.
  - split; [done|]. intros r Hr. cbn.
    destruct (decide (1 <= r <= 0)%nat); [lia|].
    destruct (decide (r < 0)%nat); [lia|done].
  - destruct IH as [Hs IH]; [lia|].
    rewrite seq_S, foldl_app. cbn [foldl Nat.add].
    set (A := foldl (fun a i => exchange F Vu i a) a (seq 1 m)) in *.
    split; [apply shaped_exchange; [done|lia]|].
    intros r Hr.
    destruct (face_exchange_rows nc nd A (S m) (F (S m))
                (Vu !!! (length Vu - 1)%nat) (Vu !!! 0%nat) Hs ltac:(lia))
      as (Hl & Hr' & Ho).
    fold (exchange F Vu (S m) A) in Hl, Hr', Ho.
    replace (S m - 1)%nat with m in * by lia.
    destruct (decide (r = m)) as [->|Hrm].
    + rewrite Hl, (IH m) by lia. cbn zeta.
      destruct (decide (m < m)%nat); [lia|].
      destruct (decide (m < S m)%nat); [|lia].
      replace (m + 1)%nat with (S m) by lia.
      destruct (decide (1 <= m <= m)%nat), (decide (1 <= m <= S m)%nat);
        try lia; done.
    + destruct (decide (r = S m)) as [->|Hrs].
      * rewrite Hr', (IH (S m)) by lia. cbn zeta.
        destruct (decide (S m < m)%nat); [lia|].
        destruct (decide (S m < S m)%nat); [lia|].
        destruct (decide (1 <= S m <= m)%nat); [lia|].
        destruct (decide (1 <= S m <= S m)%nat); [done|lia].
      * rewrite Ho, (IH r) by (done || lia). cbn zeta.
        destruct (decide (1 <= r <= m)%nat), (decide (1 <= r <= S m)%nat);
          try lia;
          destruct (decide (r < m)%nat), (decide (r < S m)%nat);
          try lia; done.
Qed.

End ExchangeLoop.

Section FaceLoopArrays.

Variable numflux : R * R * R -> R * R * R -> R * R * R.
Variable Vu : matrix.

(** The internal-face loop acts on each residual array on its own, with
    fluxes that are fixed by the state the loop starts from. *)
Lemma interior_faces_arrays (l : list nat) (s : State) :
  let s' := foldl (fun s i => after_interior_face numflux Vu i s) s l in
  resr s' = foldl (fun a i =>
              exchange (fun i => (interior_flux numflux Vu s i).1.1) Vu i a)
              (resr s) l /\
  resm s' = foldl (fun a i =>
              exchange (fun i => (interior_flux numflux Vu s i).1.2) Vu i a)
              (resm s) l /\
  rese s' = foldl (fun a i =>
              exchange (fun i => (interior_flux numflux Vu s i).2) Vu i a)
              (rese s) l.
Proof.
  revert s. induction l as [|i l IH]; intros s; [done|].
  cbn [foldl]. exact (IH (after_interior_face numflux Vu i s)).
Qed.

End FaceLoopArrays.
Section CellResidual.

Variable flux : vector -> vector -> vector -> vector * vector * vector.
Variable numflux : R * R * R -> R * R * R -> R * R * R.
Variables nc nd nu : nat.
Variable wg : vector.
Variables Vf Vg Vu : matrix.

Hypothesis Vu_shape : shaped nu nd Vu.
Hypothesis nu_pos : (1 <= nu)%nat.
Hypothesis nc_pos : (1 <= nc)%nat.

(** One residual array through the three face blocks. *)
Lemma assembled_rows (F : nat -> R) (fl fr : R) (vol : matrix) (r : nat) :
  shaped nc nd vol -> (r < nc)%nat ->
  add_row (foldl (fun a i => exchange F Vu i a)
                 (sub_row vol 0 (scale fl (Vu !!! 0%nat))) (seq 1 (nc - 1)))
          (nc - 1) (scale fr (Vu !!! 0%nat)) !!! r
  = cell_residual (vol !!! r)
      (if decide (r = 0%nat) then fl else F r) (Vu !!! 0%nat)
      (if decide (r = (nc - 1)%nat) then fr else F (r + 1)%nat)
      (outflow_row nc Vu r).
Proof.
  intros Hvol Hr.
  assert (length (Vu !!! 0%nat) = nd) as Hv0
    by (apply (Vu_row_length nd nu); [done|lia]).
  assert (shaped nc nd (sub_row vol 0 (scale fl (Vu !!! 0%nat)))) as Ha1.
  { apply shaped_sub_row; [done|lia|]. by rewrite length_scale. }
  destruct (exchanges_rows nc nd nu Vu Vu_shape nu_pos F _ (nc - 1) Ha1
              ltac:(lia)) as [HA Hrows].
  assert (forall k : nat,
            sub_row vol 0 (scale fl (Vu !!! 0%nat)) !!! k =
            if decide (k = 0%nat)
            then zip_with Rminus (vol !!! 0%nat) (scale fl (Vu !!! 0%nat))
            else vol !!! k) as Hfirst.
  { intros k. unfold sub_row. rewrite list_lookup_total_insert.
    rewrite (proj1 Hvol).
    destruct (decide (0%nat = k /\ (0 < nc)%nat)) as [[<- _]|Hn].
    - by destruct (decide (0%nat = 0%nat)).
    - destruct (decide (k = 0%nat)) as [->|]; [|done].
      exfalso. apply Hn. split; [done|lia]. }
  unfold add_row at 1. rewrite list_lookup_total_insert, (proj1 HA).
  unfold cell_residual, outflow_row.
  rewrite !Hrows by lia. cbn zeta. rewrite !Hfirst.
  repeat case_decide; try lia; try done.
  - by replace (nc - 1)%nat with r by lia.
  - by replace r with 0%nat by lia.
  - by replace r with 0%nat by lia.
Qed.

(** The rows of the three residual arrays once a stage has assembled
    them. *)
Lemma after_assemble_rows (s : State) (r : nat) :
  (r < nc)%nat ->
  let s' := after_assemble flux numflux nc nd wg Vf Vg Vu s in
  let fin := inflow numflux Vu s r in
  let fout := outflow numflux nc Vu s r in
  let vol pick := map Ropp (moments wg Vg nd (pick (cell_flux flux Vf s r))) in
  resr s' !!! r = cell_residual (vol (fun f => f.1.1)) fin.1.1 (Vu !!! 0%nat)
                    fout.1.1 (outflow_row nc Vu r) /\
  resm s' !!! r = cell_residual (vol (fun f => f.1.2)) fin.1.2 (Vu !!! 0%nat)
                    fout.1.2 (outflow_row nc Vu r) /\
  rese s' !!! r = cell_residual (vol (fun f => f.2)) fin.2 (Vu !!! 0%nat)
                    fout.2 (outflow_row nc Vu r).
Proof.
  intros Hr s' fin fout vol. unfold s', after_assemble.
  set (s2 := after_first_face numflux Vu (after_volume flux nc nd wg Vf Vg s)).
  pose proof (after_interior_faces_frame_from numflux Vu (seq 1 (nc - 1)) s2)
    as Hframe.
  fold (after_interior_faces numflux nc Vu s2) in Hframe.
  destruct (interior_faces_arrays numflux Vu (seq 1 (nc - 1)) s2)
    as (Er & Em & Ee).
  fold (after_interior_faces numflux nc Vu s2) in Er, Em, Ee.
  unfold after_last_face. cbn [resr resm rese set_res].
  rewrite (edge_state_frame Vu 0 (nc - 1) s2 _ Hframe), Er, Em, Ee.
  assert (forall pick, volume_rows flux nc nd wg Vf Vg pick s !!! r = vol pick)
    as Hvol.
  { intros pick. apply list_lookup_total_correct, lookup_volume_rows, Hr. }
  unfold fin, fout, inflow, outflow.
  repeat split.
  - etrans.
    { exact (assembled_rows
               (fun i => (interior_flux numflux Vu s i).1.1)
               (numflux (edge_state Vu 0 s 0) (edge_state Vu 0 s 0)).1.1
               (numflux (edge_state Vu 0 s (nc - 1))
                        (edge_state Vu 0 s (nc - 1))).1.1
               (volume_rows flux nc nd wg Vf Vg (fun f => f.1.1) s) r
               (shaped_volume_rows _ _ _ _ _ _ _ _) Hr). }
    rewrite Hvol. by repeat case_decide.
  - etrans.
    { exact (assembled_rows
               (fun i => (interior_flux numflux Vu s i).1.2)
               (numflux (edge_state Vu 0 s 0) (edge_state Vu 0 s 0)).1.2
               (numflux (edge_state Vu 0 s (nc - 1))
                        (edge_state Vu 0 s (nc - 1))).1.2
               (volume_rows flux nc nd wg Vf Vg (fun f => f.1.2) s) r
               (shaped_volume_rows _ _ _ _ _ _ _ _) Hr). }
    rewrite Hvol. by repeat case_decide.
  - etrans.
    { exact (assembled_rows
               (fun i => (interior_flux numflux Vu s i).2)
               (numflux (edge_state Vu 0 s 0) (edge_state Vu 0 s 0)).2
               (numflux (edge_state Vu 0 s (nc - 1))
                        (edge_state Vu 0 s (nc - 1))).2
               (volume_rows flux nc nd wg Vf Vg (fun f => f.2) s) r
               (shaped_volume_rows _ _ _ _ _ _ _ _) Hr). }
    rewrite Hvol. by repeat case_decide.
Qed.

End CellResidual.

(** * Conservation of the total mass *)

Section Conservation.

Variable flux : vector -> vector -> vector -> vector * vector * vector.
Variable numflux : R * R * R -> R * R * R -> R * R * R.
Variables nc nd nu : nat.
Variable dx : R.
Variable wg : vector.
Variables Vf Vg Vu : matrix.
Variable c : vector.

Hypothesis flux_shape : elementwise_flux flux.
Hypothesis wg_shape : length wg = nd.
Hypothesis Vf_shape : shaped nd nd Vf.
Hypothesis Vg_shape : shaped nd nd Vg.
Hypothesis Vu_shape : shaped nu nd Vu.
Hypothesis nu_pos : (1 <= nu)%nat.
Hypothesis nc_pos : (1 <= nc)%nat.
Hypothesis c_shape : length c = nd.
Hypothesis Vf_orthonormal : orthonormal nd wg Vf.
Hypothesis Vf_one : reproduces_one c Vf.
Hypothesis Vu_one : reproduces_one c Vu.

Local Abbreviation total := (total_integral dx wg Vf).

Lemma cell_integral_2c (v : vector) :
  length v = nd -> cell_integral wg Vf v = 2 * dotp c v.
Proof. intros Hv. by apply (cell_integral_constant_part nd). Qed.

Lemma Vu_row_one (e : nat) : (e < nu)%nat -> dotp c (Vu !!! e) = 1.
Proof.
  intros He. rewrite dotp_comm.
  unfold reproduces_one in Vu_one. rewrite Forall_forall in Vu_one.
  apply Vu_one. apply list_elem_of_lookup_2 with e.
  apply list_lookup_lookup_total_lt. rewrite (proj1 Vu_shape). done.
Qed.

Lemma total_add_row (a : matrix) (n : nat) (v : vector) :
  shaped nc nd a -> (n < nc)%nat -> length v = nd ->
  total (add_row a n v) = total a + dx * dotp c v.
Proof.
  intros Ha Hn Hv. unfold add_row.
  pose proof (shaped_total nc nd a n Ha Hn) as Hr.
  rewrite total_integral_insert by (rewrite (proj1 Ha); done).
  rewrite !cell_integral_2c by (done || (rewrite length_zip_with; lia)).
  rewrite dotp_plus_r by lia. lra.
Qed.

Lemma total_sub_row (a : matrix) (n : nat) (v : vector) :
  shaped nc nd a -> (n < nc)%nat -> length v = nd ->
  total (sub_row a n v) = total a - dx * dotp c v.
Proof.
  intros Ha Hn Hv. unfold sub_row.
  pose proof (shaped_total nc nd a n Ha Hn) as Hr.
  rewrite total_integral_insert by (rewrite (proj1 Ha); done).
  rewrite !cell_integral_2c by (done || (rewrite length_zip_with; lia)).
  rewrite dotp_minus_r by lia. lra.
Qed.

Lemma total_add_edge (a : matrix) (n e : nat) (f : R) :
  shaped nc nd a -> (n < nc)%nat -> (e < nu)%nat ->
  total (add_row a n (scale f (Vu !!! e))) = total a + dx * f.
Proof.
  intros Ha Hn He.
  rewrite total_add_row
    by (done || (rewrite length_scale; by apply (shaped_total nu nd))).
  rewrite dotp_scale_r, Vu_row_one by done. lra.
Qed.

Lemma total_sub_edge (a : matrix) (n e : nat) (f : R) :
  shaped nc nd a -> (n < nc)%nat -> (e < nu)%nat ->
  total (sub_row a n (scale f (Vu !!! e))) = total a - dx * f.
Proof.
  intros Ha Hn He.
  rewrite total_sub_row
    by (done || (rewrite length_scale; by apply (shaped_total nu nd))).
  rewrite dotp_scale_r, Vu_row_one by done. lra.
Qed.

Lemma total_exchange (a : matrix) (i : nat) (f : R) :
  shaped nc nd a -> (1 <= i < nc)%nat ->
  total (sub_row (add_row a (i - 1) (scale f (Vu !!! (length Vu - 1)%nat)))
                 i (scale f (Vu !!! 0%nat)))
  = total a.
Proof.
  intros Ha Hi. pose proof (proj1 Vu_shape) as L.
  rewrite total_sub_edge; [|apply (shaped_add_row nc nd)|..]; try (done || lia).
  - rewrite total_add_edge by (done || lia). lra.
  - rewrite length_scale. apply (shaped_total nu nd); (done || lia).
Qed.

(** One interior face leaves the total of each residual array unchanged. *)
Lemma total_after_interior_face (i : nat) (s : State) :
  well_shaped nc nd s -> (1 <= i < nc)%nat ->
  total (resr (after_interior_face numflux Vu i s)) = total (resr s) /\
  total (resm (after_interior_face numflux Vu i s)) = total (resm s) /\
  total (rese (after_interior_face numflux Vu i s)) = total (rese s).
Proof.
  intros (_ & _ & _ & _ & _ & _ & Hr & Hm & He) Hi.
  unfold after_interior_face. cbn [resr resm rese set_res].
  by rewrite !total_exchange.
Qed.

Lemma total_after_interior_faces_from (a : nat) (d : nat) (s : State) :
  well_shaped nc nd s -> (1 <= a)%nat -> (a + d <= nc)%nat ->
  let s' := foldl (fun s i => after_interior_face numflux Vu i s) s (seq a d) in
  total (resr s') = total (resr s) /\
  total (resm s') = total (resm s) /\
  total (rese s') = total (rese s).
Proof.
  revert a s. induction d as [|d IH]; intros a s Hs Ha Had; [done|].
  cbn [seq foldl]. cbn zeta.
  destruct (total_after_interior_face a s Hs) as (E1 & E2 & E3); [lia|].
  destruct (IH (S a) (after_interior_face numflux Vu a s)) as (F1 & F2 & F3);
    [|lia|lia|].
  { apply (well_shaped_after_interior_face numflux nc nd nu); (done || lia). }
  cbn zeta in F1, F2, F3. rewrite F1, F2, F3. done.
Qed.

(** The interior-face loop leaves the totals unchanged. *)
Lemma total_after_interior_faces (s : State) :
  well_shaped nc nd s ->
  total (resr (after_interior_faces numflux nc Vu s)) = total (resr s) /\
  total (resm (after_interior_faces numflux nc Vu s)) = total (resm s) /\
  total (rese (after_interior_faces numflux nc Vu s)) = total (rese s).
Proof.
  intros Hs. unfold after_interior_faces.
  apply (total_after_interior_faces_from 1 (nc - 1) s Hs); lia.
Qed.

Lemma total_after_first_face (s : State) :
  well_shaped nc nd s ->
  total (resr (after_first_face numflux Vu s))
  = total (resr s)
    - dx * (numflux (edge_state Vu 0 s 0) (edge_state Vu 0 s 0)).1.1.
Proof.
  intros (_ & _ & _ & _ & _ & _ & Hr & _ & _).
  unfold after_first_face. cbn [resr set_res].
  by rewrite total_sub_edge by (done || lia).
Qed.

Lemma total_after_last_face (s : State) :
  well_shaped nc nd s ->
  total (resr (after_last_face numflux nc Vu s))
  = total (resr s)
    + dx * (numflux (edge_state Vu 0 s (nc - 1)) (edge_state Vu 0 s (nc - 1))).1.1.
Proof.
  intros (_ & _ & _ & _ & _ & _ & Hr & _ & _).
  unfold after_last_face. cbn [resr set_res].
  by rewrite total_add_edge by (done || lia).
Qed.

(** The cell integrals contribute nothing to the total when the basis
    gradient kills the constants. *)
Lemma total_volume_rows (pick : vector * vector * vector -> vector) (s : State) :
  (forall i, length (pick (cell_flux flux Vf s i)) = nd) ->
  flat c Vg ->
  total (volume_rows flux nc nd wg Vf Vg pick s) = 0.
Proof.
  intros Hpick Hflat. apply total_integral_zero.
  unfold volume_rows. apply Forall_map, Forall_forall. intros i _. cbn beta.
  set (f := pick (cell_flux flux Vf s i)).
  assert (length f = nd) as Lf by apply Hpick.
  pose proof (proj1 Vg_shape) as Lg.
  rewrite cell_integral_2c by (by rewrite length_map, length_moments).
  rewrite (dotp_sumn nd) by (done || by rewrite length_map, length_moments).
  rewrite (sumn_ext nd _
    (fun j => sumn nd (fun q => - (f !!! q * wg !!! q) * ((Vg !!! q) !!! j * c !!! j)))).
  2:{ intros j Hj. rewrite lookup_total_map by (rewrite length_moments; lia).
      unfold moments. rewrite lookup_total_map by (rewrite length_seq; lia).
      rewrite lookup_total_seq_lt by lia. cbn [plus].
      rewrite (dotp_sumn nd)
        by (done || (rewrite length_weighted_columnp; lia)).
      replace (c !!! j * - sumn nd (fun k => f !!! k * weighted_columnp wg Vg j !!! k))
        with ((- c !!! j) * sumn nd (fun k => f !!! k * weighted_columnp wg Vg j !!! k))
        by ring.
      rewrite <- sumn_scale. apply sumn_ext. intros q Hq.
      rewrite (weighted_columnp_lookup wg nd nd) by done. ring. }
  rewrite sumn_swap.
  rewrite (sumn_ext nd _ (fun _ => 0)), sumn_zero; [ring|].
  intros q Hq. rewrite sumn_scale.
  rewrite <- (dotp_sumn nd) by (done || by apply (shaped_total nd nd)).
  unfold flat in Hflat. rewrite Forall_forall in Hflat.
  rewrite (Hflat (Vg !!! q)); [ring|].
  apply list_elem_of_lookup_2 with q. apply list_lookup_lookup_total_lt. lia.
Qed.

(** C1: every interior face [i] ([1 <= i < nc]) adds the numerical flux
    times the edge row [Vu[-1]] to the residual of cell [i-1] and subtracts
    the same flux times the edge row [Vu[0]] from the residual of cell [i],
    touching no other cell; this holds of the loop body on any state, and
    of every pass of the loop of lines 160-173, from the state the earlier
    faces have left.  After the loop, row [r] of each residual array has
    lost the flux of its left face and gained the flux of its right face,
    as far as these are interior faces, and nothing else has changed, so
    that the interior faces contribute nothing to the domain integral of
    the density residual.  In the assembled residual every cell holds its
    cell integral, minus the flux of its left face, plus the flux of its
    right face, and the total of the density residual is the two boundary
    fluxes (plus the cell integrals, which vanish when the basis gradient
    kills the constants).  The basis, which is not part of the script, is
    assumed orthonormal for the Gauss rule and to contain the constants. *)
Theorem C1_interior_faces_conserve_mass (s : State) :
  well_shaped nc nd s ->
  let F := interior_flux numflux Vu s in
  (forall i : nat, (1 <= i < nc)%nat ->
     exists s' : State,
       interior_face numflux Vu (Z.of_nat i) s = Ok s' /\
       let f := numflux (edge_state Vu (nu - 1) s (i - 1)) (edge_state Vu 0 s i) in
       let vl := Vu !!! (nu - 1)%nat in
       let vr := Vu !!! 0%nat in
       face_exchange f.1.1 vl vr i (resr s) (resr s') /\
       face_exchange f.1.2 vl vr i (resm s) (resm s') /\
       face_exchange f.2 vl vr i (rese s) (rese s') /\
       total (resr s') = total (resr s)) /\
  (forall i : nat, (1 <= i < nc)%nat ->
     exists si si' : State,
       for_each (range 1 i) (interior_face numflux Vu) s = Ok si /\
       interior_face numflux Vu (Z.of_nat i) si = Ok si' /\
       for_each (range 1 (S i)) (interior_face numflux Vu) s = Ok si' /\
       fields si = fields s /\
       let f := numflux (edge_state Vu (nu - 1) s (i - 1)) (edge_state Vu 0 s i) in
       let vl := Vu !!! (nu - 1)%nat in
       let vr := Vu !!! 0%nat in
       F i = f /\
       face_exchange f.1.1 vl vr i (resr si) (resr si') /\
       face_exchange f.1.2 vl vr i (resm si) (resm si') /\
       face_exchange f.2 vl vr i (rese si) (rese si') /\
       total (resr si') = total (resr si)) /\
  (exists s' : State,
     interior_faces numflux nc Vu s = Ok s' /\
     fields s' = fields s /\ start_fields s' = start_fields s /\
     (forall r : nat, (r < nc)%nat ->
        resr s' !!! r
        = exchanged_row (fun i => (F i).1.1) Vu (nc - 1) (resr s) r /\
        resm s' !!! r
        = exchanged_row (fun i => (F i).1.2) Vu (nc - 1) (resm s) r /\
        rese s' !!! r
        = exchanged_row (fun i => (F i).2) Vu (nc - 1) (rese s) r) /\
     total (resr s') = total (resr s) /\
     total (resm s') = total (resm s) /\
     total (rese s') = total (rese s)) /\
  (exists s' : State,
     assemble flux numflux nc nd wg Vf Vg Vu s = Ok s' /\
     let fl := numflux (edge_state Vu 0 s 0) (edge_state Vu 0 s 0) in
     let fr := numflux (edge_state Vu 0 s (nc - 1)) (edge_state Vu 0 s (nc - 1)) in
     (forall r : nat, (r < nc)%nat ->
        resr s' !!! r
        = cell_residual
            (map Ropp (moments wg Vg nd (cell_flux flux Vf s r).1.1))
            (if decide (r = 0%nat) then fl else F r).1.1 (Vu !!! 0%nat)
            (if decide (r = (nc - 1)%nat) then fr else F (r + 1)%nat).1.1
            (if decide (r = (nc - 1)%nat) then Vu !!! 0%nat
             else Vu !!! (nu - 1)%nat)) /\
     total (resr s')
     = total (volume_rows flux nc nd wg Vf Vg (fun f => f.1.1) s)
       + dx * (fr.1.1 - fl.1.1) /\
     (flat c Vg -> total (resr s') = dx * (fr.1.1 - fl.1.1))).
Proof.
  intros Hs F. pose proof Hs as (_ & _ & _ & _ & _ & _ & Hr & Hm & He).
  pose proof (proj1 Vu_shape) as L.
  split; [|split; [|split]].
  - intros i Hi. exists (after_interior_face numflux Vu i s).
    split; [by apply (interior_face_ok numflux nc nd nu)|].
    cbn zeta. unfold after_interior_face, interior_flux.
    cbn [resr resm rese set_res]. rewrite L.
    split; [by apply (face_exchange_rows nc nd)|].
    split; [by apply (face_exchange_rows nc nd)|].
    split; [by apply (face_exchange_rows nc nd)|].
    rewrite <- L. by apply total_exchange.
  - intros i Hi.
    set (si := foldl (fun s i => after_interior_face numflux Vu i s) s
                     (seq 1 (i - 1))).
    destruct (interior_faces_upto numflux nc nd nu Vu Vu_shape nu_pos
                1 (i - 1) s Hs ltac:(lia) ltac:(lia)) as [Hpre Hsi].
    fold si in Hpre, Hsi.
    replace (1 + (i - 1))%nat with i in Hpre by lia.
    destruct (interior_faces_upto numflux nc nd nu Vu Vu_shape nu_pos
                1 i s Hs ltac:(lia) ltac:(lia)) as [Hpost _].
    change (1 + i)%nat with (S i) in Hpost.
    replace (seq 1 i) with (seq 1 (i - 1) ++ [i]) in Hpost.
    2:{ replace i with (S (i - 1)) at 3 by lia. rewrite seq_S.
        by replace (1 + (i - 1))%nat with i by lia. }
    rewrite foldl_app in Hpost. cbn [foldl] in Hpost. fold si in Hpost.
    pose proof (after_interior_faces_frame_from numflux Vu (seq 1 (i - 1)) s)
      as Hframe.
    fold si in Hframe.
    pose proof Hsi as (_ & _ & _ & _ & _ & _ & Hri & Hmi & Hei).
    exists si, (after_interior_face numflux Vu i si).
    split; [exact Hpre|].
    split; [by apply (interior_face_ok numflux nc nd nu)|].
    split; [exact Hpost|].
    split; [unfold only_res_changed in Hframe; by rewrite Hframe|].
    cbn zeta. split; [unfold F, interior_flux; by rewrite L|].
    unfold after_interior_face, interior_flux.
    cbn [resr resm rese set_res].
    rewrite !(edge_state_frame Vu _ _ s si Hframe). rewrite L.
    split; [by apply (face_exchange_rows nc nd)|].
    split; [by apply (face_exchange_rows nc nd)|].
    split; [by apply (face_exchange_rows nc nd)|].
    rewrite <- L. by apply total_exchange.
  - exists (after_interior_faces numflux nc Vu s).
    split; [by apply (interior_faces_ok numflux nc nd nu)|].
    pose proof (after_interior_faces_frame_from numflux Vu (seq 1 (nc - 1)) s)
      as Hframe.
    fold (after_interior_faces numflux nc Vu s) in Hframe.
    split; [unfold only_res_changed in Hframe; by rewrite Hframe|].
    split; [unfold only_res_changed in Hframe; by rewrite Hframe|].
    split; [|by apply total_after_interior_faces].
    intros r Hrow.
    destruct (interior_faces_arrays numflux Vu (seq 1 (nc - 1)) s)
      as (Er & Em & Ee).
    fold (after_interior_faces numflux nc Vu s) in Er, Em, Ee.
    rewrite Er, Em, Ee. unfold exchanged_row, F.
    split; [|split];
      apply (exchanges_rows nc nd nu Vu Vu_shape nu_pos); (done || lia).
  - exists (after_assemble flux numflux nc nd wg Vf Vg Vu s).
    split; [by apply (assemble_ok flux numflux nc nd nu)|].
    cbn zeta.
    assert (total (resr (after_assemble flux numflux nc nd wg Vf Vg Vu s))
            = total (volume_rows flux nc nd wg Vf Vg (fun f => f.1.1) s)
              + dx * ((numflux (edge_state Vu 0 s (nc - 1))
                               (edge_state Vu 0 s (nc - 1))).1.1
                      - (numflux (edge_state Vu 0 s 0) (edge_state Vu 0 s 0)).1.1))
      as Htotal.
    { unfold after_assemble.
      set (s1 := after_volume flux nc nd wg Vf Vg s).
      set (s2 := after_first_face numflux Vu s1).
      set (s3 := after_interior_faces numflux nc Vu s2).
      assert (well_shaped nc nd s1) as H1
          by (by apply (well_shaped_after_volume flux nc nd wg Vf Vg)).
      assert (well_shaped nc nd s2) as H2
          by (by apply (well_shaped_after_first_face numflux nc nd nu)).
      assert (well_shaped nc nd s3) as H3
          by (by apply (well_shaped_after_interior_faces numflux nc nd nu)).
      rewrite total_after_last_face by done.
      destruct (total_after_interior_faces s2 H2) as [E3 _].
      fold s3 in E3. rewrite E3.
      unfold s2 at 1. rewrite total_after_first_face by done.
      assert (only_res_changed s s3) as Hframe.
      { eapply only_res_changed_trans; [|apply after_interior_faces_frame_from].
        eapply only_res_changed_trans; apply only_res_changed_set_res. }
      rewrite (edge_state_frame Vu 0 (nc - 1) s s3 Hframe).
      change (edge_state Vu 0 s1 0) with (edge_state Vu 0 s 0).
      change (resr s1) with (volume_rows flux nc nd wg Vf Vg (fun f => f.1.1) s).
      lra. }
    split; [|split; [exact Htotal|]].
    + intros r Hrow.
      destruct (after_assemble_rows flux numflux nc nd nu wg Vf Vg Vu
                  Vu_shape nu_pos nc_pos s r Hrow) as (Er & _ & _).
      rewrite Er. unfold inflow, outflow, outflow_row, F. rewrite L.
      by repeat case_decide.
    + intros Hflat. rewrite Htotal, total_volume_rows; [lra| |done].
      intros i. by destruct (cell_flux_shape flux nd Vf flux_shape Vf_shape s i).
Qed.

End Conservation.

Lemma advection_orthonormal :
  orthonormal 1 Advection.wg0 Advection.Vf0 /\
  reproduces_one [1] Advection.Vf0 /\ reproduces_one [1] Advection.Vu0 /\
  flat [1] Advection.Vg0.
Proof.
  split; [|split; [|split]].
  - intros i j Hi Hj. assert (i = 0%nat) as -> by lia. assert (j = 0%nat) as -> by lia.
    rewrite decide_True by done.
    unfold Advection.wg0, Advection.Vf0, dotp, vsum. simpl. lra.
  - unfold reproduces_one, Advection.Vf0, dotp, vsum.
    repeat constructor. simpl. lra.
  - unfold reproduces_one, Advection.Vu0, dotp, vsum.
    repeat constructor; simpl; lra.
  - unfold flat, Advection.Vg0, dotp, vsum.
    repeat constructor. simpl. lra.
Qed.

(** The three cells of [Stairs]: the two internal faces one after the
    other, and the assembled residual. *)
Lemma stairs_shaped : well_shaped 3 1 Stairs.state.
Proof.
  unfold well_shaped, shaped, Stairs.state. cbn.
  repeat match goal with |- _ /\ _ => split end;
    try reflexivity; repeat constructor.
Qed.

Lemma stairs_faces :
  let z := [[0]; [0]; [0]] in
  let r := [[1]; [2]; [4]] in
  let m := [[3]; [5]; [6]] in
  let e := [[7]; [8]; [9]] in
  let s1 := mkState z r z m z e [[11]; [19]; [30]] [[43]; [47]; [60]]
                    [[77]; [73]; [90]] in
  let s2 := mkState z r z m z e [[11]; [21]; [28]] [[43]; [52]; [55]]
                    [[77]; [81]; [82]] in
  let s3 := mkState z r z m z e [[0]; [1]; [2]] [[0]; [2]; [1]]
                    [[0]; [1]; [1]] in
  after_interior_face Advection.numflux Advection.Vu0 1 Stairs.state = s1 /\
  after_interior_face Advection.numflux Advection.Vu0 2 s1 = s2 /\
  after_assemble Advection.flux Advection.numflux 3 1 Advection.wg0
                 Advection.Vf0 Advection.Vg0 Advection.Vu0 Stairs.state = s3.
Proof.
  cbn zeta. split; [|split]; evaluate; f_equal; vec_eq.
Qed.

Lemma C1_interior_faces_conserve_mass_witness :
  well_shaped 3 1 Stairs.state /\
  let total := total_integral (1 / 3) Advection.wg0 Advection.Vf0 in
  let face := interior_face Advection.numflux Advection.Vu0 in
  let F := interior_flux Advection.numflux Advection.Vu0 Stairs.state in
  F 1%nat = (1, 3, 7) /\ F 2%nat = (2, 5, 8) /\
  exists s1 s2 s' : State,
    face 1%Z Stairs.state = Ok s1 /\ face 2%Z s1 = Ok s2 /\
    interior_faces Advection.numflux 3 Advection.Vu0 Stairs.state = Ok s2 /\
    resr Stairs.state = [[10]; [20]; [30]] /\
    resr s1 = [[11]; [19]; [30]] /\ resr s2 = [[11]; [21]; [28]] /\
    resm s2 = [[43]; [52]; [55]] /\ rese s2 = [[77]; [81]; [82]] /\
    total (resr s1) = total (resr Stairs.state) /\
    total (resr s2) = total (resr Stairs.state) /\
    total (resr Stairs.state) = 20 /\
    assemble Advection.flux Advection.numflux 3 1 Advection.wg0 Advection.Vf0
             Advection.Vg0 Advection.Vu0 Stairs.state = Ok s' /\
    resr s' = [[0]; [1]; [2]] /\
    total (resr s') = 1 / 3 * (4 - 1).
Proof.
  pose proof stairs_shaped as Hs.
  split; [exact Hs|]. cbn zeta.
  destruct advection_tables_shaped as (Hw & Hf & Hg & Hu).
  destruct advection_orthonormal as (HO & H1 & H2 & Hflat).
  destruct (C1_interior_faces_conserve_mass
              Advection.flux Advection.numflux 3 1 2 (1 / 3) Advection.wg0
              Advection.Vf0 Advection.Vg0 Advection.Vu0 [1]
              advection_flux_elementwise Hw Hf Hg Hu
              ltac:(lia) ltac:(lia) eq_refl HO H1 H2 Stairs.state Hs)
    as (_ & Hface & Hloop & Hasm).
  destruct (Hface 1%nat ltac:(lia))
    as (a1 & b1 & Ha1 & Hb1 & Hc1 & _ & HF1 & _ & _ & _ & T1).
  destruct (Hface 2%nat ltac:(lia))
    as (a2 & b2 & Ha2 & Hb2 & Hc2 & _ & HF2 & _ & _ & _ & T2).
  destruct Hloop as (l & Hl & _ & _ & _ & TL & _).
  destruct Hasm as (s' & Hs' & _ & _ & TA).
  destruct stairs_faces as (V1 & V2 & V3).
  assert (a1 = Stairs.state) as -> by (cbn in Ha1; congruence).
  assert (a2 = b1) as -> by congruence.
  assert (l = b2) as -> by (unfold interior_faces in Hl; congruence).
  pose proof (interior_face_ok Advection.numflux 3 1 2 Advection.Vu0 Hu
                ltac:(lia) 1 Stairs.state Hs ltac:(lia)) as K1.
  rewrite V1 in K1. change (Z.of_nat 1) with 1%Z in K1, Hb1.
  change (Z.of_nat 2) with 2%Z in Hb2.
  assert (well_shaped 3 1 b1) as Hs1.
  { assert (b1 = after_interior_face Advection.numflux Advection.Vu0 1
                   Stairs.state) as -> by (rewrite V1; congruence).
    apply (well_shaped_after_interior_face Advection.numflux 3 1 2);
      (done || lia). }
  pose proof (interior_face_ok Advection.numflux 3 1 2 Advection.Vu0 Hu
                ltac:(lia) 2 b1 Hs1 ltac:(lia)) as K2.
  change (Z.of_nat 2) with 2%Z in K2.
  assert (s' = after_assemble Advection.flux Advection.numflux 3 1 Advection.wg0
                 Advection.Vf0 Advection.Vg0 Advection.Vu0 Stairs.state) as E3.
  { rewrite (assemble_ok Advection.flux Advection.numflux 3 1 2) in Hs';
      (done || lia || congruence || exact advection_flux_elementwise). }
  rewrite V3 in E3.
  pose proof (TA Hflat) as TA'. clear TA.
  assert (b1 = mkState [[0]; [0]; [0]] [[1]; [2]; [4]] [[0]; [0]; [0]]
                       [[3]; [5]; [6]] [[0]; [0]; [0]] [[7]; [8]; [9]]
                       [[11]; [19]; [30]] [[43]; [47]; [60]]
                       [[77]; [73]; [90]]) as E1 by congruence.
  rewrite E1 in K2. rewrite V2 in K2.
  assert (b2 = mkState [[0]; [0]; [0]] [[1]; [2]; [4]] [[0]; [0]; [0]]
                       [[3]; [5]; [6]] [[0]; [0]; [0]] [[7]; [8]; [9]]
                       [[11]; [21]; [28]] [[43]; [52]; [55]]
                       [[77]; [81]; [82]]) as E2 by congruence.
  split; [rewrite HF1; evaluate; repeat (f_equal; try lra)|].
  split; [rewrite HF2; evaluate; repeat (f_equal; try lra)|].
  exists b1, b2, s'.
  split; [exact Hb1|]. split; [exact Hb2|]. split; [exact Hl|].
  split; [reflexivity|].
  split; [by rewrite E1|]. split; [by rewrite E2|].
  split; [by rewrite E2|]. split; [by rewrite E2|].
  split; [exact T1|]. split; [exact TL|].
  split; [evaluate; lra|].
  split; [exact Hs'|].
  split; [by rewrite E3|].
  rewrite TA'. evaluate. lra.
Defined.

(** C2, right boundary: on one cell of degree one whose density is [-1] at
    its left edge and [+1] at its right edge, with an upwind numerical
    flux, the last-face block evaluates the state with row [Vu[0]] (the
    left edge) and adds [-1 * Vu[0]] to the density residual, where the
    specification asks for the right edge: [+1 * Vu[-1]]. *)
Theorem C2_last_face_reads_left_edge :
  uniform_table Slope.shape_value 2 2 (linspace (-1) 1 2) = Ok Slope.Vu /\
  edge_value Slope.Vu (rho1 Slope.state) (-1) 0 = Ok (-1) /\
  edge_value Slope.Vu (rho1 Slope.state) (-1) (-1) = Ok 1 /\
  (exists s' : State,
     last_face Advection.numflux Slope.Vu Slope.state = Ok s' /\
     resr s' = [[0 + -1 * 1; 0 + -1 * -1]]) /\
  (exists s' : State,
     last_face_spec Advection.numflux Slope.Vu Slope.state = Ok s' /\
     resr s' = [[0 + 1 * 1; 0 + 1 * 1]]) /\
  last_face Advection.numflux Slope.Vu Slope.state
  <> last_face_spec Advection.numflux Slope.Vu Slope.state.
Proof.
  assert (edge_value Slope.Vu (rho1 Slope.state) (-1) 0 = Ok (-1)) as E0.
  { unfold edge_value, dot, elementwise, getitem, vsum. simpl. f_equal. lra. }
  assert (edge_value Slope.Vu (rho1 Slope.state) (-1) (-1) = Ok 1) as E1.
  { unfold edge_value, dot, elementwise, getitem, vsum. simpl. f_equal. lra. }
  assert (edge_value Slope.Vu (mom1 Slope.state) (-1) 0 = Ok 0) as M0.
  { unfold edge_value, dot, elementwise, getitem, vsum. simpl. f_equal. lra. }
  assert (edge_value Slope.Vu (mom1 Slope.state) (-1) (-1) = Ok 0) as M1.
  { unfold edge_value, dot, elementwise, getitem, vsum. simpl. f_equal. lra. }
  assert (last_face Advection.numflux Slope.Vu Slope.state
          = Ok (set_res Slope.state [[0 + -1 * 1; 0 + -1 * -1]]
                        [[0 + 0 * 1; 0 + 0 * -1]] [[0 + 0 * 1; 0 + 0 * -1]])) as HL.
  { unfold last_face. change (ene1 Slope.state) with (mom1 Slope.state).
    rewrite E0, M0. reflexivity. }
  assert (last_face_spec Advection.numflux Slope.Vu Slope.state
          = Ok (set_res Slope.state [[0 + 1 * 1; 0 + 1 * 1]]
                        [[0 + 0 * 1; 0 + 0 * 1]] [[0 + 0 * 1; 0 + 0 * 1]])) as HS.
  { unfold last_face_spec. change (ene1 Slope.state) with (mom1 Slope.state).
    rewrite E1, M1. reflexivity. }
  split.
  { rewrite uniform_table_ok by apply length_linspace. f_equal.
    evaluate. vec_eq. }
  split; [exact E0|]. split; [exact E1|].
  split; [eexists; split; [exact HL|reflexivity]|].
  split; [eexists; split; [exact HS|reflexivity]|].
  rewrite HL, HS. intros H. injection H as H _. lra.
Qed.

(** * The time loop *)


Section TimeLoop.

Variable flux : vector -> vector -> vector -> vector * vector * vector.
Variable numflux : R * R * R -> R * R * R -> R * R * R.
Variables nc nd nu : nat.
Variable dx : R.
Variable wg : vector.
Variables Vf Vg Vu : matrix.
Variable Tf : R.

Hypothesis flux_shape : elementwise_flux flux.
Hypothesis wg_shape : length wg = nd.
Hypothesis Vf_shape : shaped nd nd Vf.
Hypothesis Vg_shape : shaped nd nd Vg.
Hypothesis Vu_shape : shaped nu nd Vu.
Hypothesis nu_pos : (1 <= nu)%nat.
Hypothesis nc_pos : (1 <= nc)%nat.

Local Abbreviation step := (time_step flux numflux nc nd dx wg Vf Vg Vu Tf).
Local Abbreviation next := (after_step flux numflux nc nd dx wg Vf Vg Vu Tf).
Local Abbreviation loop := (time_loop flux numflux nc nd dx wg Vf Vg Vu Tf).
Local Abbreviation reached := (loop_state flux numflux nc nd dx wg Vf Vg Vu Tf).
Local Abbreviation Res := (residual flux numflux nc nd wg Vf Vg Vu).

Lemma step_next (σ : Sim) : well_shaped nc nd (arrays σ) -> step σ = Ok (next σ).
Proof. intros Hs. by apply (time_step_ok flux numflux nc nd nu). Qed.

Lemma next_well_shaped (σ : Sim) :
  well_shaped nc nd (arrays σ) -> well_shaped nc nd (arrays (next σ)).
Proof. intros Hs. by apply (well_shaped_after_step flux numflux nc nd nu). Qed.

Lemma reached_well_shaped (σ0 σ : Sim) :
  well_shaped nc nd (arrays σ0) -> reached σ0 σ -> well_shaped nc nd (arrays σ).
Proof.
  intros H0 Hr.
  by apply (loop_state_well_shaped flux numflux nc nd nu dx wg Vf Vg Vu
              flux_shape wg_shape Vf_shape Vg_shape Vu_shape nu_pos nc_pos Tf σ0 σ).
Qed.

Lemma loop_done (fuel : nat) (σ : Sim) :
  ~ t σ < Tf -> loop fuel σ = Ok (Completed σ).
Proof.
  intros Ht. destruct fuel; cbn [time_loop]; by destruct (Rlt_dec (t σ) Tf).
Qed.

Lemma loop_step (fuel : nat) (σ : Sim) :
  well_shaped nc nd (arrays σ) -> t σ < Tf ->
  loop (S fuel) σ = loop fuel (next σ).
Proof.
  intros Hs Ht. cbn [time_loop]. destruct (Rlt_dec (t σ) Tf); [|done].
  rewrite step_next by done. reflexivity.
Qed.

Lemma next_time (σ : Sim) : t (next σ) = t σ + step_dt Tf σ.
Proof. reflexivity. Qed.

Lemma next_dt (σ : Sim) : dt (next σ) = step_dt Tf σ.
Proof. reflexivity. Qed.



Lemma step_dt_clipped (σ : Sim) :
  t σ + dt σ > Tf -> step_dt Tf σ = Tf - t σ /\ step_lam dx Tf σ = (Tf - t σ) / dx.
Proof.
  intros H. unfold step_dt, step_lam. by destruct (Rgt_dec (t σ + dt σ) Tf).
Qed.

Lemma step_dt_unclipped (σ : Sim) :
  ~ t σ + dt σ > Tf -> step_dt Tf σ = dt σ /\ step_lam dx Tf σ = lam σ.
Proof.
  intros H. unfold step_dt, step_lam. by destruct (Rgt_dec (t σ + dt σ) Tf).
Qed.

(** A step never carries the time past [Tf]. *)
Lemma next_time_le (σ : Sim) : t σ < Tf -> t (next σ) <= Tf.
Proof.
  intros Ht. rewrite next_time. unfold step_dt.
  destruct (Rgt_dec (t σ + dt σ) Tf); lra.
Qed.

(** While the loop goes on, [dt] is still the value computed before it. *)
Lemma reached_dt (σ0 σ : Sim) :
  well_shaped nc nd (arrays σ0) -> reached σ0 σ -> t σ < Tf -> dt σ = dt σ0.
Proof.
  intros H0 Hr. induction Hr as [|σ σ' Hr IH Ht Hstep]; intros Ht'; [done|].
  rewrite step_next in Hstep by (by eapply reached_well_shaped).
  injection Hstep as <-.
  rewrite next_time in Ht'. rewrite next_dt.
  unfold step_dt in *. destruct (Rgt_dec (t σ + dt σ) Tf); [lra|]. by apply IH.
Qed.


(** With a positive step the loop is left after at most [n+1] passes when
    [n] steps of size [dt] cover the remaining time. *)
Lemma loop_terminates_within (n : nat) (σ : Sim) :
  well_shaped nc nd (arrays σ) -> 0 < dt σ -> Tf - t σ <= INR n * dt σ ->
  exists σ' : Sim, loop (S n) σ = Ok (Completed σ') /\ ~ t σ' < Tf.
Proof.
  revert σ. induction n as [|n IH]; intros σ Hs Hdt Hn.
  - exists σ. cbn [INR] in Hn. assert (~ t σ < Tf) as Ht by lra.
    split; [by apply loop_done|done].
  - destruct (Rlt_dec (t σ) Tf) as [Ht|Ht].
    2:{ exists σ. split; [by apply loop_done|done]. }
    rewrite loop_step by done.
    destruct (Rgt_dec (t σ + dt σ) Tf) as [Hclip|Hclip].
    + exists (next σ). destruct (step_dt_clipped σ Hclip) as [Hd _].
      assert (~ t (next σ) < Tf) as Hend by (rewrite next_time, Hd; lra).
      split; [by apply loop_done|done].
    + destruct (step_dt_unclipped σ Hclip) as [Hd _].
      apply IH.
      * by apply next_well_shaped.
      * by rewrite next_dt, Hd.
      * rewrite next_time, next_dt, Hd. rewrite S_INR in Hn. lra.
Qed.



End TimeLoop.


Lemma drift_sim0_value : Drift.sim0 = Drift.sim0_value.
Proof.
  evaluate. f_equal; [f_equal; vec_eq|lra|lra].
Qed.

Lemma drift_stage0 :
  after_stage Advection.flux Advection.numflux 2 1 Advection.wg0
              Advection.Vf0 Advection.Vg0 Advection.Vu0 (2 / 5) 0
    (mkState [[1 / 4]; [3 / 4]] [[1 / 4]; [3 / 4]] Drift.zeros Drift.zeros
             Drift.zeros Drift.zeros Drift.zeros Drift.zeros Drift.zeros)
  = mkState [[1 / 4]; [3 / 4]] [[1 / 4]; [11 / 20]] Drift.zeros Drift.zeros
            Drift.zeros Drift.zeros [[0]; [1 / 2]] Drift.zeros Drift.zeros.
Proof. evaluate. f_equal; vec_eq. Qed.

Lemma drift_stage1 :
  after_stage Advection.flux Advection.numflux 2 1 Advection.wg0
              Advection.Vf0 Advection.Vg0 Advection.Vu0 (2 / 5) 1
    (mkState [[1 / 4]; [3 / 4]] [[1 / 4]; [11 / 20]] Drift.zeros Drift.zeros
             Drift.zeros Drift.zeros [[0]; [1 / 2]] Drift.zeros Drift.zeros)
  = mkState [[1 / 4]; [3 / 4]] [[1 / 4]; [67 / 100]] Drift.zeros Drift.zeros
            Drift.zeros Drift.zeros [[0]; [3 / 10]] Drift.zeros Drift.zeros.
Proof. evaluate. f_equal; vec_eq. Qed.

Lemma drift_stage2 :
  after_stage Advection.flux Advection.numflux 2 1 Advection.wg0
              Advection.Vf0 Advection.Vg0 Advection.Vu0 (2 / 5) 2
    (mkState [[1 / 4]; [3 / 4]] [[1 / 4]; [67 / 100]] Drift.zeros Drift.zeros
             Drift.zeros Drift.zeros [[0]; [3 / 10]] Drift.zeros Drift.zeros)
  = mkState [[1 / 4]; [3 / 4]] [[1 / 4]; [877 / 1500]] Drift.zeros Drift.zeros
            Drift.zeros Drift.zeros [[0]; [21 / 50]] Drift.zeros Drift.zeros.
Proof. evaluate. f_equal; vec_eq. Qed.

Lemma drift_first_step :
  after_step Advection.flux Advection.numflux 2 1 (1 / 2) Advection.wg0
             Advection.Vf0 Advection.Vg0 Advection.Vu0 1 Drift.sim0
  = Drift.sim1.
Proof.
  rewrite drift_sim0_value. unfold after_step, step_dt, step_lam, Drift.sim0_value.
  cbn [t dt lam it arrays rho1 mom1 ene1 set_u0 rho0 mom0 ene0 resr resm rese].
  destruct (Rgt_dec (0 + 1 / 5) 1) as [H|_]; [lra|].
  unfold set_u0. cbn [rho1 mom1 ene1 resr resm rese].
  rewrite drift_stage0, drift_stage1, drift_stage2.
  unfold Drift.sim1. f_equal. lra.
Qed.

(** The state of [Drift] at the head of the first step has the shape of
    the mesh; its three stages. *)
Lemma drift_sim0_shaped : well_shaped 2 1 (arrays Drift.sim0).
Proof.
  rewrite drift_sim0_value.
  unfold well_shaped, shaped, Drift.sim0_value, Drift.zeros. cbn.
  repeat match goal with |- _ /\ _ => split end;
    try reflexivity; repeat constructor.
Qed.

Lemma drift_stages :
  let stage := after_stage Advection.flux Advection.numflux 2 1 Advection.wg0
                           Advection.Vf0 Advection.Vg0 Advection.Vu0 (2 / 5) in
  let u := [[1 / 4]; [3 / 4]] in
  let z := Drift.zeros in
  let s0 := set_u0 (arrays Drift.sim0) (rho1 (arrays Drift.sim0))
                   (mom1 (arrays Drift.sim0)) (ene1 (arrays Drift.sim0)) in
  let s1 := mkState u [[1 / 4]; [11 / 20]] z z z z [[0]; [1 / 2]] z z in
  let s2 := mkState u [[1 / 4]; [67 / 100]] z z z z [[0]; [3 / 10]] z z in
  let s3 := mkState u [[1 / 4]; [877 / 1500]] z z z z [[0]; [21 / 50]] z z in
  step_lam (1 / 2) 1 Drift.sim0 = 2 / 5 /\
  s0 = mkState u u z z z z z z z /\
  stage 0%nat s0 = s1 /\ stage 1%nat s1 = s2 /\ stage 2%nat s2 = s3.
Proof.
  cbn zeta. rewrite drift_sim0_value. split; [|split; [|split; [|split]]].
  - unfold step_lam, Drift.sim0_value. cbn [t dt lam].
    destruct (Rgt_dec (0 + 1 / 5) 1); [lra|done].
  - reflexivity.
  - apply drift_stage0.
  - apply drift_stage1.
  - apply drift_stage2.
Qed.

Lemma C10_step_start_copies_and_residual_overwrite_witness :
  well_shaped 2 1 (arrays Drift.sim0) /\
  exists s1 s2 s3 : State,
    let stage := rk_stage Advection.flux Advection.numflux 2 1 Advection.wg0
                          Advection.Vf0 Advection.Vg0 Advection.Vu0 in
    let u := fields (arrays Drift.sim0) in
    let l := step_lam (1 / 2) 1 Drift.sim0 in
    let junk := [[7]; [-9]] in
    stage l 0%Z (set_u0 (arrays Drift.sim0) u.1.1 u.1.2 u.2) = Ok s1 /\
    stage l 1%Z s1 = Ok s2 /\ stage l 2%Z s2 = Ok s3 /\
    u = ([[1 / 4]; [3 / 4]], Drift.zeros, Drift.zeros) /\
    start_fields s1 = u /\ start_fields s2 = u /\ start_fields s3 = u /\
    rho1 s1 = [[1 / 4]; [11 / 20]] /\ rho1 s2 = [[1 / 4]; [67 / 100]] /\
    rho1 s3 = [[1 / 4]; [877 / 1500]] /\
    resr s1 = [[0]; [1 / 2]] /\ resr s2 = [[0]; [3 / 10]] /\
    resr s3 = [[0]; [21 / 50]] /\
    stage l 1%Z (set_res s1 junk junk junk) = Ok s2 /\
    stage l 2%Z (set_res s2 junk junk junk) = Ok s3.
Proof.
  pose proof drift_sim0_shaped as Hs.
  split; [exact Hs|].
  destruct advection_tables_shaped as (Hw & Hf & Hg & Hu).
  destruct (C10_step_start_copies_and_residual_overwrite
              Advection.flux Advection.numflux 2 1 2 (1 / 2) Advection.wg0
              Advection.Vf0 Advection.Vg0 Advection.Vu0
              advection_flux_elementwise Hw Hf Hg Hu
              ltac:(lia) ltac:(lia) 1 Drift.sim0 Hs)
    as [(s1 & s2 & s3 & H1 & H2 & H3 & _ & _ & E1 & E2 & E3) (_ & _ & Hres)].
  destruct drift_stages as (Hl & Hs0 & V1 & V2 & V3).
  assert (forall (rk : nat) (s : State), (rk < 3)%nat -> well_shaped 2 1 s ->
            rk_stage Advection.flux Advection.numflux 2 1 Advection.wg0
                     Advection.Vf0 Advection.Vg0 Advection.Vu0
                     (step_lam (1 / 2) 1 Drift.sim0) (Z.of_nat rk) s
            = Ok (after_stage Advection.flux Advection.numflux 2 1 Advection.wg0
                     Advection.Vf0 Advection.Vg0 Advection.Vu0 (2 / 5) rk s))
    as Hstage.
  { intros rk s Hrk Hws. rewrite Hl.
    apply (rk_stage_ok Advection.flux Advection.numflux 2 1 2);
      (done || lia || exact advection_flux_elementwise). }
  assert (well_shaped 2 1
            (set_u0 (arrays Drift.sim0) (rho1 (arrays Drift.sim0))
                    (mom1 (arrays Drift.sim0)) (ene1 (arrays Drift.sim0))))
    as W0 by (by apply well_shaped_set_u0).
  assert (forall a b : matrix, shaped 2 1 a -> shaped 2 1 b ->
            well_shaped 2 1 (mkState [[1 / 4]; [3 / 4]] a Drift.zeros Drift.zeros
                               Drift.zeros Drift.zeros b Drift.zeros Drift.zeros))
    as W.
  { intros a b Ha Hb. unfold well_shaped, Drift.zeros.
    cbn [rho0 rho1 mom0 mom1 ene0 ene1 resr resm rese].
    repeat match goal with |- _ /\ _ => split end; try done;
      (split; [reflexivity|repeat constructor]). }
  assert (forall x y : R, shaped 2 1 [[x]; [y]]) as Sh
      by (intros; split; [reflexivity|repeat constructor]).
  pose proof (Hstage 0%nat _ ltac:(lia) W0) as A1. rewrite V1 in A1.
  pose proof (Hstage 1%nat _ ltac:(lia)
                (W _ _ (Sh (1 / 4) (11 / 20)) (Sh 0 (1 / 2)))) as A2.
  rewrite V2 in A2.
  pose proof (Hstage 2%nat _ ltac:(lia)
                (W _ _ (Sh (1 / 4) (67 / 100)) (Sh 0 (3 / 10)))) as A3.
  rewrite V3 in A3.
  change (Z.of_nat 0) with 0%Z in A1. change (Z.of_nat 1) with 1%Z in A2.
  change (Z.of_nat 2) with 2%Z in A3.
  assert (s1 = mkState [[1 / 4]; [3 / 4]] [[1 / 4]; [11 / 20]] Drift.zeros
                       Drift.zeros Drift.zeros Drift.zeros [[0]; [1 / 2]]
                       Drift.zeros Drift.zeros) as -> by congruence.
  assert (s2 = mkState [[1 / 4]; [3 / 4]] [[1 / 4]; [67 / 100]] Drift.zeros
                       Drift.zeros Drift.zeros Drift.zeros [[0]; [3 / 10]]
                       Drift.zeros Drift.zeros) as -> by congruence.
  assert (s3 = mkState [[1 / 4]; [3 / 4]] [[1 / 4]; [877 / 1500]] Drift.zeros
                       Drift.zeros Drift.zeros Drift.zeros [[0]; [21 / 50]]
                       Drift.zeros Drift.zeros) as -> by congruence.
  eexists _, _, _. cbn zeta.
  split; [exact H1|]. split; [exact H2|]. split; [exact H3|].
  split; [by rewrite drift_sim0_value|].
  split; [exact E1|]. split; [exact E2|]. split; [exact E3|].
  do 6 (split; [reflexivity|]).
  split.
  - destruct (Hres (step_lam (1 / 2) 1 Drift.sim0) 1%nat _
                   [[7]; [-9]] [[7]; [-9]] [[7]; [-9]] ltac:(lia)
                   (W _ _ (Sh (1 / 4) (11 / 20)) (Sh 0 (1 / 2)))
                   (Sh 7 (-9)) (Sh 7 (-9)) (Sh 7 (-9)))
      as (s' & A & B).
    change (Z.of_nat 1) with 1%Z in A, B. rewrite B. congruence.
  - destruct (Hres (step_lam (1 / 2) 1 Drift.sim0) 2%nat _
                   [[7]; [-9]] [[7]; [-9]] [[7]; [-9]] ltac:(lia)
                   (W _ _ (Sh (1 / 4) (67 / 100)) (Sh 0 (3 / 10)))
                   (Sh 7 (-9)) (Sh 7 (-9)) (Sh 7 (-9)))
      as (s' & A & B).
    change (Z.of_nat 2) with 2%Z in A, B. rewrite B. congruence.
Defined.

Lemma C3_three_stage_runge_kutta_witness :
  well_shaped 2 1 (arrays Drift.sim0) /\
  lam Drift.sim0 = dt Drift.sim0 / (1 / 2) /\
  t Drift.sim0 < 1 /\
  exists σ' : Sim,
    let Res := residual Advection.flux Advection.numflux 2 1 Advection.wg0
                        Advection.Vf0 Advection.Vg0 Advection.Vu0 in
    let u0 := fields (arrays Drift.sim0) in
    let S := ssprk_stage Res (dt σ' / (1 / 2)) u0 in
    time_step Advection.flux Advection.numflux 2 1 (1 / 2) Advection.wg0
              Advection.Vf0 Advection.Vg0 Advection.Vu0 1 Drift.sim0 = Ok σ' /\
    u0 = ([[1 / 4]; [3 / 4]], Drift.zeros, Drift.zeros) /\
    dt σ' / (1 / 2) = 2 / 5 /\
    fields (arrays σ') = S (1 / 3) (S (3 / 4) (S 0 u0)) /\
    fields (arrays σ') = ([[1 / 4]; [877 / 1500]], Drift.zeros, Drift.zeros) /\
    Res u0 = ([[0]; [1 / 2]], Drift.zeros, Drift.zeros) /\
    S 0 u0 = ([[1 / 4]; [11 / 20]], Drift.zeros, Drift.zeros) /\
    S (3 / 4) (S 0 u0) = ([[1 / 4]; [67 / 100]], Drift.zeros, Drift.zeros).
Proof.
  pose proof drift_sim0_shaped as Hs.
  assert (lam Drift.sim0 = dt Drift.sim0 / (1 / 2)) as Hl
      by (rewrite drift_sim0_value; cbn; lra).
  assert (t Drift.sim0 < 1) as Ht by (rewrite drift_sim0_value; cbn; lra).
  split; [exact Hs|]. split; [exact Hl|]. split; [exact Ht|].
  destruct advection_tables_shaped as (Hw & Hf & Hg & Hu).
  destruct (C3_three_stage_runge_kutta
              Advection.flux Advection.numflux 2 1 2 (1 / 2) Advection.wg0
              Advection.Vf0 Advection.Vg0 Advection.Vu0
              advection_flux_elementwise Hw Hf Hg Hu
              ltac:(lia) ltac:(lia) 1 Drift.sim0 Drift.sim0 Hs Hl
              (loop_enter _ _ _ _ _ _ _ _ _ _ _) Ht)
    as (σ' & Hstep & _ & _ & _ & _ & HF & _).
  assert (σ' = Drift.sim1) as ->.
  { rewrite (time_step_ok Advection.flux Advection.numflux 2 1 2) in Hstep
      by (done || lia || exact advection_flux_elementwise).
    rewrite drift_first_step in Hstep. congruence. }
  exists Drift.sim1. cbn zeta.
  split; [exact Hstep|].
  split; [by rewrite drift_sim0_value|].
  split; [cbn; lra|].
  split; [exact HF|]. split; [reflexivity|].
  rewrite drift_sim0_value.
  replace (dt Drift.sim1 / (1 / 2)) with (2 / 5) by (cbn; lra).
  split; [|split]; evaluate; repeat (f_equal; try lra).
Defined.




Section StepSize.

Variable xmin : R.
Variable initial_condition : vector -> vector * vector * vector.
Variable flux : vector -> vector -> vector -> vector * vector * vector.
Variable numflux : R * R * R -> R * R * R -> R * R * R.
Variable max_speed : matrix -> matrix -> matrix -> R.
Variables nc nd nu : nat.
Variable dx : R.
Variables xg wg : vector.
Variables Vf Vg Vu : matrix.
Variable Tf : R.

Hypothesis flux_shape : elementwise_flux flux.
Hypothesis wg_shape : length wg = nd.
Hypothesis Vf_shape : shaped nd nd Vf.
Hypothesis Vg_shape : shaped nd nd Vg.
Hypothesis Vu_shape : shaped nu nd Vu.
Hypothesis nu_pos : (1 <= nu)%nat.
Hypothesis nc_pos : (1 <= nc)%nat.

Lemma well_shaped_initial_sim (cfl : R) :
  well_shaped nc nd
    (arrays (initial_sim xmin initial_condition max_speed nc nd dx xg wg Vf cfl)).
Proof.
  unfold initial_sim. cbn [arrays].
  apply well_shaped_after_project, well_shaped_zero_state.
Qed.

(** C4, as the script has it: on every pass through the loop whose
    unclipped step does not overshoot [Tf], the step size is
    [dt = cfl*dx/max_speed], where [cfl] is the command-line CFL number
    divided by [2k+1] and [max_speed] is the wave speed of the projected
    initial condition, computed once before the loop. *)
Theorem C4_step_size_from_initial_state (k : Z) (cfl_arg : R) (σ : Sim) :
  let cfl := cfl_arg / IZR (2 * k + 1) in
  let σ0 := initial_sim xmin initial_condition max_speed nc nd dx xg wg Vf cfl in
  loop_state flux numflux nc nd dx wg Vf Vg Vu Tf σ0 σ ->
  t σ < Tf -> ~ t σ + dt σ > Tf ->
  exists σ' : Sim,
    time_step flux numflux nc nd dx wg Vf Vg Vu Tf σ = Ok σ' /\
    t σ' = t σ + dt σ' /\ lam σ' = dt σ' / dx /\
    dt σ' = cfl * dx / max_speed (rho1 (arrays σ0)) (mom1 (arrays σ0))
                                 (ene1 (arrays σ0)) /\
    arrays σ0
    = after_project xmin initial_condition nc nd dx xg wg Vf (zero_state nc nd).
Proof.
  intros cfl σ0 Hr Ht Hclip.
  assert (well_shaped nc nd (arrays σ0)) as H0 by apply well_shaped_initial_sim.
  assert (well_shaped nc nd (arrays σ)) as Hs
      by (by apply (reached_well_shaped flux numflux nc nd nu dx wg Vf Vg Vu Tf
                      flux_shape wg_shape Vf_shape Vg_shape Vu_shape nu_pos nc_pos
                      σ0 σ)).
  exists (after_step flux numflux nc nd dx wg Vf Vg Vu Tf σ).
  split; [by apply (time_step_ok flux numflux nc nd nu)|].
  destruct (step_dt_unclipped dx Tf σ Hclip) as [Hd Hl].
  cbn [t dt lam after_step]. rewrite Hd, Hl.
  split; [done|]. split.
  { apply (loop_state_lam flux numflux nc nd nu dx wg Vf Vg Vu
             flux_shape wg_shape Vf_shape Vg_shape Vu_shape nu_pos nc_pos Tf σ0 σ);
      done. }
  split; [|done].
  by rewrite (reached_dt flux numflux nc nd nu dx wg Vf Vg Vu Tf
                flux_shape wg_shape Vf_shape Vg_shape Vu_shape nu_pos nc_pos σ0 σ).
Qed.

End StepSize.

Lemma drift_ic_vectorised : vectorised Drift.initial_condition.
Proof.
  intros x. unfold Drift.initial_condition. cbn [fst snd].
  by rewrite !length_map.
Qed.

Lemma C4_step_size_from_initial_state_witness :
  t Drift.sim0 < 1 /\ ~ t Drift.sim0 + dt Drift.sim0 > 1 /\
  exists σ' : Sim,
    time_step Advection.flux Advection.numflux 2 1 (1 / 2) Advection.wg0
              Advection.Vf0 Advection.Vg0 Advection.Vu0 1 Drift.sim0 = Ok σ' /\
    dt σ' = Drift.cfl * (1 / 2)
            / Drift.max_speed (rho1 (arrays Drift.sim0)) (mom1 (arrays Drift.sim0))
                              (ene1 (arrays Drift.sim0)).
Proof.
  assert (t Drift.sim0 < 1) as Ht by (rewrite drift_sim0_value; cbn; lra).
  assert (~ t Drift.sim0 + dt Drift.sim0 > 1) as Hclip
      by (rewrite drift_sim0_value; cbn; lra).
  split; [exact Ht|]. split; [exact Hclip|].
  destruct advection_tables_shaped as (Hw & Hf & Hg & Hu).
  destruct (C4_step_size_from_initial_state
              0 Drift.initial_condition Advection.flux Advection.numflux
              Drift.max_speed 2 1 2 (1 / 2) [0] Advection.wg0
              Advection.Vf0 Advection.Vg0 Advection.Vu0 1
              advection_flux_elementwise Hw Hf Hg Hu
              ltac:(lia) ltac:(lia) 0%Z 0.7 Drift.sim0
              (loop_enter _ _ _ _ _ _ _ _ _ _ _) Ht Hclip)
    as (σ' & Hstep & _ & _ & Hdt & _).
  exists σ'. split; assumption.
Defined.

(** C4 as the specification states it fails: with a wave speed that follows
    the state, the second step (from [t = 1/5], not clipped) still uses
    [dt = 1/5], the value computed from the initial state, while
    [cfl*dx/max_speed] of the state at the start of that step is
    [525/2377]. *)
Lemma C4_step_size_not_from_current_state :
  exists σ σ' : Sim,
    loop_state Advection.flux Advection.numflux 2 1 (1 / 2) Advection.wg0
               Advection.Vf0 Advection.Vg0 Advection.Vu0 1 Drift.sim0 σ /\
    t σ < 1 /\ ~ t σ + dt σ > 1 /\
    time_step Advection.flux Advection.numflux 2 1 (1 / 2) Advection.wg0
              Advection.Vf0 Advection.Vg0 Advection.Vu0 1 σ = Ok σ' /\
    dt σ' = 1 / 5 /\
    Drift.cfl * (1 / 2)
    / Drift.max_speed (rho1 (arrays σ)) (mom1 (arrays σ)) (ene1 (arrays σ))
    = 525 / 2377 /\
    dt σ' <> Drift.cfl * (1 / 2)
             / Drift.max_speed (rho1 (arrays σ)) (mom1 (arrays σ)) (ene1 (arrays σ)).
Proof.
  destruct advection_tables_shaped as (Hw & Hf & Hg & Hu).
  assert (well_shaped 2 1 (arrays Drift.sim0)) as H0.
  { apply (well_shaped_initial_sim 0 Drift.initial_condition Drift.max_speed 2 1). }
  assert (well_shaped 2 1 (arrays Drift.sim1)) as H1.
  { rewrite <- drift_first_step.
    apply (well_shaped_after_step Advection.flux Advection.numflux 2 1 2);
      (done || lia). }
  exists Drift.sim1.
  exists (after_step Advection.flux Advection.numflux 2 1 (1 / 2) Advection.wg0
                     Advection.Vf0 Advection.Vg0 Advection.Vu0 1 Drift.sim1).
  assert (Drift.cfl * (1 / 2)
          / Drift.max_speed (rho1 (arrays Drift.sim1)) (mom1 (arrays Drift.sim1))
                            (ene1 (arrays Drift.sim1)) = 525 / 2377) as Hnew.
  { evaluate. lra. }
  assert (dt (after_step Advection.flux Advection.numflux 2 1 (1 / 2) Advection.wg0
                         Advection.Vf0 Advection.Vg0 Advection.Vu0 1 Drift.sim1)
          = 1 / 5) as Hdt.
  { unfold after_step, step_dt. cbn [dt t Drift.sim1].
    destruct (Rgt_dec (1 / 5 + 1 / 5) 1); [lra|done]. }
  split.
  { apply (loop_again _ _ _ _ _ _ _ _ _ _ _ Drift.sim0 Drift.sim1).
    - apply loop_enter.
    - rewrite drift_sim0_value. cbn. lra.
    - rewrite <- drift_first_step.
      apply (time_step_ok Advection.flux Advection.numflux 2 1 2);
        (done || lia || exact advection_flux_elementwise). }
  split; [cbn; lra|]. split; [cbn; lra|].
  split.
  { apply (time_step_ok Advection.flux Advection.numflux 2 1 2);
      (done || lia || exact advection_flux_elementwise). }
  split; [exact Hdt|]. split; [exact Hnew|].
  rewrite Hdt, Hnew. lra.
Qed.



(** * The script as a whole *)

Section Script.

Variables shape_value shape_grad : Z -> R -> R.
Variables xmin xmax : R.
Variable initial_condition : vector -> vector * vector * vector.
Variable flux : vector -> vector -> vector -> vector * vector * vector.
Variable numflux : R * R * R -> R * R * R -> R * R * R.
Variable max_speed : matrix -> matrix -> matrix -> R.
Variable leggauss : Z -> vector * vector.

Local Abbreviation run :=
  (main shape_value shape_grad xmin xmax initial_condition flux numflux max_speed
        leggauss).

(** With a valid degree and cell count the script reaches the time loop
    with the tables in closed form and the projected initial condition. *)
Lemma main_ok (args : Args) (fuel : nat) (xg wg : vector) :
  ic args = "sod"%string -> (0 <= degree args)%Z -> (1 <= ncell args)%Z ->
  leggauss (degree args + 1) = (xg, wg) ->
  length xg = Z.to_nat (degree args + 1) ->
  length wg = Z.to_nat (degree args + 1) ->
  vectorised initial_condition ->
  let nc := Z.to_nat (ncell args) in
  let nd := Z.to_nat (degree args + 1) in
  let nu := Z.to_nat (Z.max 2 (degree args + 1)) in
  let dx := (xmax - xmin) / IZR (ncell args) in
  let Vf := table shape_value nd xg in
  let Vg := table shape_grad nd xg in
  let Vu := table shape_value nd (linspace (-1) 1 nu) in
  run args fuel
  = time_loop flux numflux nc nd dx wg Vf Vg Vu (Tf_arg args) fuel
      (initial_sim xmin initial_condition max_speed nc nd dx xg wg Vf
                   (cfl_arg args / IZR (2 * degree args + 1))).
Proof.
  intros Hic Hk Hnc Hleg Hxg Hwg Hvec nc nd nu dx Vf Vg Vu.
  unfold main. rewrite Hic. cbn [String.eqb Ascii.eqb Bool.eqb].
  unfold pydiv. rewrite (proj2 (Z.eqb_neq (ncell args) 0)) by lia. cbn [bind].
  unfold np_leggauss. rewrite (proj2 (Z.ltb_ge (degree args + 1) 1)) by lia.
  rewrite Hleg. cbn [bind]. unfold np_zeros.
  rewrite !decide_False by lia. cbn [bind].
  rewrite gauss_tables_ok by done. cbn [bind].
  rewrite uniform_table_ok by apply length_linspace. cbn [bind].
  rewrite start_ok; [reflexivity|done..|].
  rewrite <- Hxg at 1. apply shaped_table.
Qed.

(** C5: the outcome of the script does not depend on [-limit] or [-tvbM]:
    with [-limit yes] it is the outcome of the unlimited run, no limiter is
    applied after any stage, and the threshold [tvbM*dx^2] is not used. *)
Theorem C5_limit_flag_has_no_effect (args : Args) (fuel : nat) (m : R) :
  run (set_limit args yes m) fuel = run (set_limit args no 0) fuel.
Proof. reflexivity. Qed.

Hypothesis ic_shape : vectorised initial_condition.
Hypothesis flux_shape : elementwise_flux flux.


End Script.



(** * Projection of constants *)

Lemma map_const_replicate {A : Type} (a : R) (x : list A) :
  map (fun _ => a) x = replicate (length x) a.
Proof. induction x as [|y x IH]; [done|]. simpl. by rewrite IH. Qed.

Section ConstantProjection.

Variable shape_value : Z -> R -> R.
Variable xmin : R.
Variable initial_condition : vector -> vector * vector * vector.
Variables nc nd : nat.
Variable dx : R.
Variables xg wg : vector.
Variable c : vector.

Hypothesis xg_shape : length xg = nd.
Hypothesis wg_shape : length wg = nd.
Hypothesis c_shape : length c = nd.
Hypothesis basis_orthonormal : orthonormal nd wg (table shape_value nd xg).
Hypothesis basis_one : forall x : R, dotp (basis_row shape_value nd x) c = 1.

Local Abbreviation Vf := (table shape_value nd xg).

Lemma table_shaped : shaped nd nd Vf.
Proof. rewrite <- xg_shape at 1. apply shaped_table. Qed.

Lemma table_reproduces_one (pts : vector) :
  reproduces_one c (table shape_value nd pts).
Proof.
  unfold reproduces_one, table. apply Forall_map, Forall_forall.
  intros x _. apply basis_one.
Qed.

(** The coefficients obtained from samples that are all [a] represent the
    constant [a]. *)
Lemma constant_row (a : R) (b : vector) :
  length b = nd ->
  dotp (map (Rmult 0.5) (moments wg Vf nd (replicate nd a))) b = a * dotp c b.
Proof.
  intros Hb.
  rewrite (dotp_sumn nd) by (done || by rewrite length_map, length_moments).
  rewrite (dotp_sumn nd c b) by done. rewrite <- sumn_scale.
  apply sumn_ext. intros j Hj.
  rewrite lookup_total_map by (rewrite length_moments; lia).
  unfold moments. rewrite lookup_total_map by (rewrite length_seq; lia).
  rewrite lookup_total_seq_lt by lia. cbn [plus].
  assert (length (weighted_columnp wg Vf j) = nd) as LW.
  { rewrite length_weighted_columnp; rewrite (proj1 table_shaped); done. }
  rewrite dotp_replicate_l by done.
  rewrite (weighted_column_sum nd wg Vf c); try done.
  - lra.
  - apply table_shaped.
  - apply table_reproduces_one.
Qed.

(** C7: for every degree [k >= 0] and every cell, the L2 projection of an
    initial condition that is constant in each field gives modal
    coefficients whose polynomial is that constant at every point, for a
    basis that is orthonormal under the half-weight inner product computed
    by the Gauss rule (what an orthonormal basis and a rule exact through
    degree [2k+1] give, the products having degree at most [2k]) and whose
    span contains the constants. *)
Theorem C7_projection_of_constants (k : Z) (cr cm ce : R) :
  (0 <= k)%Z -> nd = Z.to_nat (k + 1) ->
  (forall x : vector,
     initial_condition x
     = (replicate (length x) cr, replicate (length x) cm, replicate (length x) ce)) ->
  exists s : State,
    project xmin initial_condition nc nd dx xg wg Vf (zero_state nc nd) = Ok s /\
    forall i : nat, (i < nc)%nat ->
      (forall j : nat, (j < nd)%nat ->
         entry (rho1 s) i j
         = 0.5 * dotp (replicate nd cr) (weighted_columnp wg Vf j)) /\
      forall x : R,
        dotp (rho1 s !!! i) (basis_row shape_value nd x) = cr /\
        dotp (mom1 s !!! i) (basis_row shape_value nd x) = cm /\
        dotp (ene1 s !!! i) (basis_row shape_value nd x) = ce.
Proof.
  intros Hk Hnd Hic.
  assert (vectorised initial_condition) as Hvec.
  { intros x. rewrite Hic. cbn [fst snd]. by rewrite !length_replicate. }
  exists (after_project xmin initial_condition nc nd dx xg wg Vf (zero_state nc nd)).
  split.
  { apply project_ok; try done; [apply table_shaped|apply well_shaped_zero_state]. }
  intros i Hi. unfold after_project. cbn [rho1 mom1 ene1 set_u1].
  assert (forall pick,
            projection_rows xmin initial_condition nc nd dx xg wg Vf pick !!! i
            = map (Rmult 0.5)
                (moments wg Vf nd
                   (pick (replicate nd cr, replicate nd cm, replicate nd ce)))) as Hrow.
  { intros pick. apply list_lookup_total_correct.
    rewrite lookup_projection_rows by done. rewrite Hic.
    unfold cell_points. by rewrite length_map, xg_shape. }
  split.
  - intros j Hj. unfold entry. rewrite Hrow. cbn [fst].
    rewrite lookup_total_map by (rewrite length_moments; lia).
    unfold moments. rewrite lookup_total_map by (rewrite length_seq; lia).
    by rewrite lookup_total_seq_lt by lia.
  - intros x. rewrite !Hrow. cbn [fst snd].
    rewrite !constant_row by apply length_basis_row.
    rewrite (dotp_comm c), basis_one. lra.
Qed.

End ConstantProjection.

(** The orthonormal Legendre basis of degree one at the two Gauss points. *)
Lemma legendre_table :
  table Advection.shape_value 2 Advection.xg1 = [[1; -1]; [1; 1]].
Proof.
  assert (sqrt 3 <> 0) as Hs by (apply Rgt_not_eq, sqrt_lt_R0; lra).
  evaluate.
  repeat first [ reflexivity | apply (f_equal2 (@cons _)) ]; by field.
Qed.

Lemma legendre_orthonormal :
  orthonormal 2 Advection.wg1 (table Advection.shape_value 2 Advection.xg1).
Proof.
  rewrite legendre_table. intros i j Hi Hj.
  destruct i as [|[|i]]; [| |lia]; (destruct j as [|[|j]]; [| |lia]);
    evaluate; lra.
Qed.

Lemma legendre_constants (x : R) :
  dotp (basis_row Advection.shape_value 2 x) [1; 0] = 1.
Proof. evaluate. lra. Qed.

Lemma C7_projection_of_constants_witness :
  exists s : State,
    project Advection.xmin Advection.initial_condition 2 2 (1 / 2)
            Advection.xg1 Advection.wg1
            (table Advection.shape_value 2 Advection.xg1) (zero_state 2 2) = Ok s /\
    forall i : nat, (i < 2)%nat ->
      forall x : R,
        dotp (rho1 s !!! i) (basis_row Advection.shape_value 2 x) = 1 /\
        dotp (mom1 s !!! i) (basis_row Advection.shape_value 2 x) = 0 /\
        dotp (ene1 s !!! i) (basis_row Advection.shape_value 2 x) = 2.5.
Proof.
  destruct (C7_projection_of_constants
              Advection.shape_value Advection.xmin Advection.initial_condition
              2 2 (1 / 2) Advection.xg1 Advection.wg1 [1; 0]
              eq_refl eq_refl eq_refl legendre_orthonormal legendre_constants
              1 1 0 2.5 ltac:(lia) eq_refl
              ltac:(intros x; unfold Advection.initial_condition;
                    by rewrite !map_const_replicate))
    as (s & Hproj & Hconst).
  exists s. split; [exact Hproj|].
  intros i Hi x. by destruct (Hconst i Hi) as [_ H].
Defined.

(** * Steady states *)

Lemma dotp_zero_r (f v : vector) :
  Forall (fun x => x = 0) v -> dotp f v = 0.
Proof.
  intros Hv. revert f. induction Hv as [|x v -> _ IH]; intros [|y f];
    try reflexivity.
  change (dotp (y :: f) (0 :: v)) with (y * 0 + dotp f v). rewrite IH. lra.
Qed.

Lemma columnp_zero (V : matrix) (j : nat) :
  all_zero V -> Forall (fun x => x = 0) (columnp V j).
Proof.
  intros HV. unfold columnp. apply Forall_map.
  eapply Forall_impl; [exact HV|]. intros r Hr. cbn.
  destruct (r !! j) as [x|] eqn:E.
  - rewrite (list_lookup_total_correct _ _ _ E).
    exact (proj1 (Forall_lookup _ _) Hr j x E).
  - rewrite list_lookup_total_alt, E. reflexivity.
Qed.

Lemma weighted_columnp_zero (wg : vector) (V : matrix) (j : nat) :
  all_zero V -> Forall (fun x => x = 0) (weighted_columnp wg V j).
Proof.
  intros HV. unfold weighted_columnp.
  pose proof (columnp_zero V j HV) as Hc. revert wg.
  induction Hc as [|x v -> _ IH]; intros [|w wg]; cbn; try constructor.
  - lra.
  - apply IH.
Qed.

(** With a derivative table that vanishes the cell integrals vanish. *)
Lemma moments_zero (wg : vector) (V : matrix) (nd : nat) (f : vector) :
  all_zero V -> Forall (fun x => x = 0) (map Ropp (moments wg V nd f)).
Proof.
  intros HV. unfold moments. rewrite map_map. apply Forall_map, Forall_forall.
  intros j _. cbn. rewrite dotp_zero_r by (by apply weighted_columnp_zero). lra.
Qed.

(** What enters a cell and leaves it again leaves nothing behind. *)
Lemma cell_residual_balanced (z v : vector) (f : R) :
  Forall (fun x => x = 0) z ->
  Forall (fun x => x = 0) (cell_residual z f v f v).
Proof.
  intros Hz. unfold cell_residual, scale. revert v.
  induction Hz as [|x z -> _ IH]; intros [|y v]; cbn; constructor.
  - lra.
  - apply IH.
Qed.

Lemma cell_residual_cancel (z v : vector) (f : R) :
  length z = length v -> cell_residual z f v f v = z.
Proof.
  unfold cell_residual, scale. revert v.
  induction z as [|x z IH]; intros [|y v] Hl; cbn in *; try done.
  f_equal; [lra|]. apply IH. lia.
Qed.

Lemma all_zero_rows (n m : nat) (a : matrix) :
  shaped n m a ->
  (forall r : nat, (r < n)%nat -> Forall (fun x => x = 0) (a !!! r)) ->
  all_zero a.
Proof.
  intros [Hl _] Hrows. apply Forall_lookup. intros i x Hx.
  rewrite <- (list_lookup_total_correct _ _ _ Hx). apply Hrows.
  rewrite <- Hl. by eapply lookup_lt_Some.
Qed.

Lemma row_steady (a lam : R) (r z : vector) :
  length z = length r -> Forall (fun x => x = 0) z ->
  zip_with Rplus (scale a r) (scale (1 - a) (zip_with Rminus r (scale lam z)))
  = r.
Proof.
  intros Hl Hz. revert r Hl. unfold scale.
  induction Hz as [|x z -> _ IH]; intros [|y r] Hl; cbn in *; try done.
  f_equal; [lra|]. apply IH. lia.
Qed.

(** A stage update with a vanishing residual returns the field it started
    from. *)
Lemma combine_steady (a lam : R) (n m : nat) (u z : matrix) :
  shaped n m u -> shaped n m z -> all_zero z ->
  combine a (1 - a) lam u u z = u.
Proof.
  intros [Hu Hur] [Hz Hzr] H0. unfold combine, scale2.
  revert n u Hu Hur Hz Hzr.
  induction H0 as [|x z Hx _ IH]; intros n [|y u] Hu Hur Hz Hzr;
    cbn in *; try done; try lia.
  apply Forall_cons in Hur as [Hy Hur]. apply Forall_cons in Hzr as [Hxl Hzr].
  f_equal.
  - apply row_steady; [congruence|done].
  - apply (IH (length u)); try done. lia.
Qed.

Section Steady.

Variable flux : vector -> vector -> vector -> vector * vector * vector.
Variable numflux : R * R * R -> R * R * R -> R * R * R.
Variables nc nd nu : nat.
Variable dx : R.
Variable wg : vector.
Variables Vf Vg Vu : matrix.
Variable Tf : R.

Hypothesis flux_shape : elementwise_flux flux.
Hypothesis wg_shape : length wg = nd.
Hypothesis Vf_shape : shaped nd nd Vf.
Hypothesis Vg_shape : shaped nd nd Vg.
Hypothesis Vu_shape : shaped nu nd Vu.
Hypothesis nu_pos : (1 <= nu)%nat.
Hypothesis nc_pos : (1 <= nc)%nat.

Local Abbreviation step := (time_step flux numflux nc nd dx wg Vf Vg Vu Tf).
Local Abbreviation next := (after_step flux numflux nc nd dx wg Vf Vg Vu Tf).
Local Abbreviation loop := (time_loop flux numflux nc nd dx wg Vf Vg Vu Tf).
Local Abbreviation Res := (residual flux numflux nc nd wg Vf Vg Vu).

Lemma stage_steady (lam a : R) (u : matrix * matrix * matrix) :
  shaped3 nc nd u -> all_zero3 (Res u) -> ssprk_stage Res lam u a u = u.
Proof.
  intros Hu Hz.
  assert (shaped3 nc nd (Res u)) as (R1 & R2 & R3)
    by (eapply (shaped3_residual flux numflux nc nd nu); eauto).
  destruct Hu as (U1 & U2 & U3). destruct Hz as (Z1 & Z2 & Z3).
  unfold ssprk_stage.
  rewrite !(combine_steady _ _ nc nd) by done.
  by destruct u as [[? ?] ?].
Qed.

Lemma next_steady (σ : Sim) :
  well_shaped nc nd (arrays σ) -> all_zero3 (Res (fields (arrays σ))) ->
  fields (arrays (next σ)) = fields (arrays σ).
Proof.
  intros Hs Hz.
  destruct (fields_after_step flux numflux nc nd dx wg Vf Vg Vu Tf σ) as [E _].
  cbn zeta in E. rewrite E.
  assert (shaped3 nc nd (fields (arrays σ))) as Hu.
  { destruct Hs as (_ & ? & _ & ? & _ & ? & _). split; [|split]; done. }
  by rewrite !stage_steady.
Qed.

Lemma loop_steady (fuel : nat) (σ : Sim) :
  well_shaped nc nd (arrays σ) -> all_zero3 (Res (fields (arrays σ))) ->
  exists σ' : Sim,
    (loop fuel σ = Ok (Completed σ') \/ loop fuel σ = Ok (Running σ')) /\
    fields (arrays σ') = fields (arrays σ).
Proof.
  revert σ. induction fuel as [|fuel IH]; intros σ Hs Hz.
  - exists σ. split; [|done]. cbn. destruct (Rlt_dec (t σ) Tf); auto.
  - destruct (Rlt_dec (t σ) Tf) as [Hlt|Hge].
    + rewrite (loop_step flux numflux nc nd nu) by done.
      pose proof (next_steady σ Hs Hz) as E.
      destruct (IH (next σ)) as (σ' & Hrun & E').
      * by apply (next_well_shaped flux numflux nc nd nu).
      * by rewrite E.
      * exists σ'. split; [done|]. by rewrite E'.
    + exists σ. split; [|done]. left. by apply loop_done.
Qed.

End Steady.

Section FreeStream.

Variable flux : vector -> vector -> vector -> vector * vector * vector.
Variable numflux : R * R * R -> R * R * R -> R * R * R.
Variables nc nd nu : nat.
Variable wg : vector.
Variables Vf Vg Vu : matrix.

Hypothesis flux_shape : elementwise_flux flux.
Hypothesis wg_shape : length wg = nd.
Hypothesis Vf_shape : shaped nd nd Vf.
Hypothesis Vg_shape : shaped nd nd Vg.
Hypothesis Vu_shape : shaped nu nd Vu.
Hypothesis nu_pos : (1 <= nu)%nat.
Hypothesis nc_pos : (1 <= nc)%nat.
Hypothesis Vg_zero : all_zero Vg.
Hypothesis Vu_ends : Vu !!! (length Vu - 1)%nat = Vu !!! 0%nat.

Local Abbreviation Res := (residual flux numflux nc nd wg Vf Vg Vu).

Lemma uniform_edge_state (s : State) (e i : nat) :
  well_shaped nc nd s ->
  uniform (rho1 s) -> uniform (mom1 s) -> uniform (ene1 s) ->
  (i < nc)%nat -> e = 0%nat \/ e = (length Vu - 1)%nat ->
  edge_state Vu e s i = edge_state Vu 0 s 0.
Proof.
  intros (_ & [Lr _] & _ & [Lm _] & _ & [Le _] & _) Ur Um Ue Hi He.
  unfold edge_state, edge.
  rewrite (Ur i 0%nat), (Um i 0%nat), (Ue i 0%nat) by lia.
  by destruct He as [->| ->]; rewrite ?Vu_ends.
Qed.

Lemma uniform_fluxes (s : State) (r : nat) :
  well_shaped nc nd s ->
  uniform (rho1 s) -> uniform (mom1 s) -> uniform (ene1 s) ->
  (r < nc)%nat ->
  inflow numflux Vu s r = numflux (edge_state Vu 0 s 0) (edge_state Vu 0 s 0) /\
  outflow numflux nc Vu s r
  = numflux (edge_state Vu 0 s 0) (edge_state Vu 0 s 0) /\
  outflow_row nc Vu r = Vu !!! 0%nat.
Proof.
  intros Hs Ur Um Ue Hr. unfold inflow, outflow, outflow_row, interior_flux.
  pose proof (fun e i => uniform_edge_state s e i Hs Ur Um Ue) as H.
  repeat split; case_decide; try done.
  - by rewrite (H _ (r - 1)%nat), (H 0%nat r) by (lia || auto).
  - by rewrite (H 0%nat (nc - 1)%nat) by (lia || auto).
  - by rewrite (H _ (r + 1 - 1)%nat), (H 0%nat (r + 1)%nat) by (lia || auto).
Qed.

(** The residual of a state that is the same in every cell vanishes when
    the derivative table is zero and both ends of a cell see the same
    basis values. *)
Lemma uniform_residual_zero (u : matrix * matrix * matrix) :
  shaped3 nc nd u -> uniform u.1.1 -> uniform u.1.2 -> uniform u.2 ->
  all_zero3 (Res u).
Proof.
  intros Hu Ur Um Ue.
  assert (shaped3 nc nd (Res u)) as (R1 & R2 & R3)
    by exact (shaped3_residual flux numflux nc nd nu 0 wg Vf Vg Vu
                Vu_shape nu_pos nc_pos u Hu).
  destruct Hu as (U1 & U2 & U3).
  set (s := mkState u.1.1 u.1.1 u.1.2 u.1.2 u.2 u.2 u.1.1 u.1.2 u.2).
  assert (well_shaped nc nd s) as Hs
    by (unfold well_shaped, s; cbn; repeat match goal with
                                           | |- _ /\ _ => split end; done).
  assert (forall r : nat, (r < nc)%nat ->
            Forall (fun x => x = 0) ((Res u).1.1 !!! r) /\
            Forall (fun x => x = 0) ((Res u).1.2 !!! r) /\
            Forall (fun x => x = 0) ((Res u).2 !!! r)) as Hrows.
  { intros r Hr.
    destruct (after_assemble_rows flux numflux nc nd nu wg Vf Vg Vu
                Vu_shape nu_pos nc_pos s r Hr) as (Er & Em & Ee).
    destruct (uniform_fluxes s r Hs Ur Um Ue Hr) as (Ei & Eo & Ev).
    unfold residual. cbn [fst snd]. fold s.
    rewrite Er, Em, Ee, Ei, Eo, Ev.
    repeat split; apply cell_residual_balanced, moments_zero, Vg_zero. }
  repeat split; (eapply all_zero_rows; [eassumption|]); intros r Hr;
    apply (Hrows r Hr).
Qed.

End FreeStream.

Lemma single_row (nd : nat) (a : matrix) : shaped 1 nd a -> a = [a !!! 0%nat].
Proof.
  intros [Hl _]. destruct a as [|r [|r' a]]; cbn in *; try lia. done.
Qed.

Lemma uniform_state_shaped : well_shaped 2 1 Uniform.state.
Proof.
  unfold well_shaped, shaped, Uniform.state. cbn.
  repeat match goal with |- _ /\ _ => split end;
    try reflexivity; repeat constructor.
Qed.

Lemma uniform_state_uniform :
  uniform (rho1 Uniform.state) /\ uniform (mom1 Uniform.state) /\
  uniform (ene1 Uniform.state).
Proof.
  repeat split; intros [|[|i]] [|[|j]] Hi Hj; cbn in *; try lia; reflexivity.
Qed.

Lemma advection_degree0_tables :
  all_zero Advection.Vg0 /\
  Advection.Vu0 !!! (length Advection.Vu0 - 1)%nat = Advection.Vu0 !!! 0%nat.
Proof. split; [repeat constructor|reflexivity]. Qed.

Section ResidualTheorems.

Variable flux : vector -> vector -> vector -> vector * vector * vector.
Variable numflux : R * R * R -> R * R * R -> R * R * R.
Variables nc nd nu : nat.
Variable dx : R.
Variable wg : vector.
Variables Vf Vg Vu : matrix.
Variable Tf : R.

Hypothesis flux_shape : elementwise_flux flux.
Hypothesis wg_shape : length wg = nd.
Hypothesis Vf_shape : shaped nd nd Vf.
Hypothesis Vg_shape : shaped nd nd Vg.
Hypothesis Vu_shape : shaped nu nd Vu.
Hypothesis nu_pos : (1 <= nu)%nat.
Hypothesis nc_pos : (1 <= nc)%nat.

Local Abbreviation step := (time_step flux numflux nc nd dx wg Vf Vg Vu Tf).
Local Abbreviation loop := (time_loop flux numflux nc nd dx wg Vf Vg Vu Tf).
Local Abbreviation Res := (residual flux numflux nc nd wg Vf Vg Vu).

(** X1, the residual cell by cell (lines 136-184): when the three face
    blocks have run, row [r] of each residual array holds the cell
    integral [-f.dot(Vg[:,j]*wg)], minus the flux of the cell's left face
    times [Vu[0,:]], plus the flux of its right face times [Vu[-1,:]] (times
    [Vu[0,:]] in the last cell).  The flux of an internal face takes the
    right edge of the left cell and the left edge of the right cell; the
    two outermost faces take the state of their own cell, evaluated with
    [Vu[0,:]], on both sides. *)
Theorem X1_residual_of_each_cell (s : State) (r : nat) :
  well_shaped nc nd s -> (r < nc)%nat ->
  let fin := inflow numflux Vu s r in
  let fout := outflow numflux nc Vu s r in
  let vol pick := map Ropp (moments wg Vg nd (pick (cell_flux flux Vf s r))) in
  exists s' : State,
    assemble flux numflux nc nd wg Vf Vg Vu s = Ok s' /\
    resr s' !!! r = cell_residual (vol (fun f => f.1.1)) fin.1.1 (Vu !!! 0%nat)
                      fout.1.1 (outflow_row nc Vu r) /\
    resm s' !!! r = cell_residual (vol (fun f => f.1.2)) fin.1.2 (Vu !!! 0%nat)
                      fout.1.2 (outflow_row nc Vu r) /\
    rese s' !!! r = cell_residual (vol (fun f => f.2)) fin.2 (Vu !!! 0%nat)
                      fout.2 (outflow_row nc Vu r).
Proof.
  intros Hs Hr fin fout vol.
  exists (after_assemble flux numflux nc nd wg Vf Vg Vu s).
  split; [by apply (assemble_ok flux numflux nc nd nu)|].
  exact (after_assemble_rows flux numflux nc nd nu wg Vf Vg Vu
           Vu_shape nu_pos nc_pos s r Hr).
Qed.

(** X3, steady states (lines 127-189): a state whose assembled residual
    vanishes is returned unchanged by the three-stage time step, whatever
    the step size, and so by every run that starts from it. *)
Theorem X3_steady_state_is_kept (σ : Sim) :
  well_shaped nc nd (arrays σ) -> all_zero3 (Res (fields (arrays σ))) ->
  (exists σ1 : Sim, step σ = Ok σ1 /\ fields (arrays σ1) = fields (arrays σ)) /\
  forall fuel : nat, exists σ' : Sim,
    (loop fuel σ = Ok (Completed σ') \/ loop fuel σ = Ok (Running σ')) /\
    fields (arrays σ') = fields (arrays σ).
Proof.
  intros Hs Hz. split.
  - exists (after_step flux numflux nc nd dx wg Vf Vg Vu Tf σ). split.
    + by apply (step_next flux numflux nc nd nu).
    + by apply (next_steady flux numflux nc nd nu).
  - intros fuel. by apply (loop_steady flux numflux nc nd nu).
Qed.

(** X4, a uniform state is preserved at degree 0 (lines 136-189): when
    the derivative table [Vg] is zero and the first and last rows of [Vu]
    agree, as for a single constant basis function, a state that is the
    same in every cell has a vanishing residual, for any flux and any
    numerical flux, and every run that starts from it keeps it. *)
Theorem X4_uniform_state_is_preserved (σ : Sim) :
  all_zero Vg -> Vu !!! (length Vu - 1)%nat = Vu !!! 0%nat ->
  well_shaped nc nd (arrays σ) ->
  uniform (rho1 (arrays σ)) -> uniform (mom1 (arrays σ)) ->
  uniform (ene1 (arrays σ)) ->
  (exists s' : State,
     assemble flux numflux nc nd wg Vf Vg Vu (arrays σ) = Ok s' /\
     all_zero3 (residuals s')) /\
  forall fuel : nat, exists σ' : Sim,
    (loop fuel σ = Ok (Completed σ') \/ loop fuel σ = Ok (Running σ')) /\
    fields (arrays σ') = fields (arrays σ).
Proof.
  intros Hg Hu Hs Ur Um Ue.
  assert (all_zero3 (Res (fields (arrays σ)))) as Hz.
  { apply (uniform_residual_zero flux numflux nc nd nu); try done.
    destruct Hs as (_ & ? & _ & ? & _ & ? & _). split; [|split]; done. }
  split.
  - exists (after_assemble flux numflux nc nd wg Vf Vg Vu (arrays σ)).
    split; [by apply (assemble_ok flux numflux nc nd nu)|].
    by rewrite residuals_after_assemble.
  - intros fuel. by apply (loop_steady flux numflux nc nd nu).
Qed.

End ResidualTheorems.

Section SingleCell.

Variable flux : vector -> vector -> vector -> vector * vector * vector.
Variable numflux : R * R * R -> R * R * R -> R * R * R.
Variables nd nu : nat.
Variable wg : vector.
Variables Vf Vg Vu : matrix.

Hypothesis flux_shape : elementwise_flux flux.
Hypothesis wg_shape : length wg = nd.
Hypothesis Vf_shape : shaped nd nd Vf.
Hypothesis Vg_shape : shaped nd nd Vg.
Hypothesis Vu_shape : shaped nu nd Vu.
Hypothesis nu_pos : (1 <= nu)%nat.

(** X2, a mesh of one cell (lines 147-184): the first-face and the
    last-face block evaluate the same state with the same row [Vu[0,:]],
    so what one subtracts the other adds: the residual is the cell
    integral alone and the numerical flux has no effect on it. *)
Theorem X2_single_cell_faces_cancel (s : State) :
  well_shaped 1 nd s ->
  exists s' : State,
    assemble flux numflux 1 nd wg Vf Vg Vu s = Ok s' /\
    residuals s' = (volume_rows flux 1 nd wg Vf Vg (fun f => f.1.1) s,
                    volume_rows flux 1 nd wg Vf Vg (fun f => f.1.2) s,
                    volume_rows flux 1 nd wg Vf Vg (fun f => f.2) s).
Proof.
  intros Hs.
  exists (after_assemble flux numflux 1 nd wg Vf Vg Vu s).
  split; [by apply (assemble_ok flux numflux 1 nd nu)|].
  assert (well_shaped 1 nd (after_assemble flux numflux 1 nd wg Vf Vg Vu s))
    as (_ & _ & _ & _ & _ & _ & Sr & Sm & Se)
    by (by apply (well_shaped_after_assemble flux numflux 1 nd nu)).
  destruct (after_assemble_rows flux numflux 1 nd nu wg Vf Vg Vu
              Vu_shape nu_pos ltac:(lia) s 0 ltac:(lia)) as (Er & Em & Ee).
  assert (length (Vu !!! 0%nat) = nd) as Hv
    by (apply (Vu_row_length nd nu); [done|lia]).
  unfold residuals.
  rewrite (single_row nd _ Sr), (single_row nd _ Sm), (single_row nd _ Se).
  rewrite Er, Em, Ee.
  change (outflow numflux 1 Vu s 0) with (inflow numflux Vu s 0).
  change (outflow_row 1 Vu 0) with (Vu !!! 0%nat).
  rewrite !cell_residual_cancel
    by (by rewrite length_map, length_moments, Hv).
  reflexivity.
Qed.

End SingleCell.

Lemma X1_residual_of_each_cell_witness :
  well_shaped 2 1 Uniform.state /\ (1 < 2)%nat /\
  exists s' : State,
    assemble Advection.flux Advection.numflux 2 1 Advection.wg0 Advection.Vf0
      Advection.Vg0 Advection.Vu0 Uniform.state = Ok s' /\
    resr s' !!! 1%nat = [- (1 * (0 * 2) + 0) - 1 * 1 + 1 * 1].
Proof.
  split; [exact uniform_state_shaped|]. split; [lia|].
  destruct advection_tables_shaped as (Hw & Hf & Hg & Hu).
  destruct (X1_residual_of_each_cell Advection.flux Advection.numflux 2 1 2
              Advection.wg0 Advection.Vf0 Advection.Vg0 Advection.Vu0
              advection_flux_elementwise Hw Hf Hg Hu ltac:(lia) ltac:(lia)
              Uniform.state 1 uniform_state_shaped ltac:(lia))
    as (s' & Hrun & Hr & _).
  exists s'. split; [exact Hrun|]. rewrite Hr.
  evaluate. vec_eq.
Defined.

Lemma lone_tables_shaped :
  length Lone.wg = 2%nat /\ shaped 2 2 Lone.Vf /\ shaped 2 2 Lone.Vg /\
  shaped 2 2 Lone.Vu /\ well_shaped 1 2 Lone.state.
Proof.
  unfold well_shaped, shaped. cbn.
  repeat match goal with |- _ /\ _ => split end;
    try reflexivity; repeat constructor.
Qed.

Lemma X2_single_cell_faces_cancel_witness :
  well_shaped 1 2 Lone.state /\
  let E := edge_state Lone.Vu 0 Lone.state 0 in
  E = (1, 1, 2) /\
  Advection.numflux E E = (1, 1, 2) /\ Lone.shifted_sum E E = (7, 7, 9) /\
  exists s' s'' : State,
    assemble Advection.flux Advection.numflux 1 2 Lone.wg Lone.Vf Lone.Vg
             Lone.Vu Lone.state = Ok s' /\
    assemble Advection.flux Lone.shifted_sum 1 2 Lone.wg Lone.Vf Lone.Vg
             Lone.Vu Lone.state = Ok s'' /\
    residuals s' = ([[0; -4]], [[0; -2]], [[0; -6]]) /\
    residuals s'' = residuals s'.
Proof.
  destruct lone_tables_shaped as (Hw & Hf & Hg & Hu & Hs).
  split; [exact Hs|]. cbn zeta.
  assert (edge_state Lone.Vu 0 Lone.state 0 = (1, 1, 2)) as HE
      by (evaluate; repeat (f_equal; try lra)).
  split; [exact HE|]. rewrite HE.
  split; [reflexivity|].
  split; [unfold Lone.shifted_sum; cbn [fst snd]; repeat (f_equal; try lra)|].
  destruct (X2_single_cell_faces_cancel Advection.flux Advection.numflux 2 2
              Lone.wg Lone.Vf Lone.Vg Lone.Vu
              advection_flux_elementwise Hw Hf Hg Hu ltac:(lia)
              Lone.state Hs)
    as (s' & Hrun & Hres).
  destruct (X2_single_cell_faces_cancel Advection.flux Lone.shifted_sum 2 2
              Lone.wg Lone.Vf Lone.Vg Lone.Vu
              advection_flux_elementwise Hw Hf Hg Hu ltac:(lia)
              Lone.state Hs)
    as (s'' & Hrun' & Hres').
  exists s', s''. split; [exact Hrun|]. split; [exact Hrun'|].
  split; [|by rewrite Hres, Hres'].
  rewrite Hres. evaluate. repeat (f_equal; try lra).
Defined.

Lemma X4_uniform_state_is_preserved_witness :
  all_zero Advection.Vg0 /\
  Advection.Vu0 !!! (length Advection.Vu0 - 1)%nat = Advection.Vu0 !!! 0%nat /\
  well_shaped 2 1 (arrays Uniform.sim) /\
  uniform (rho1 (arrays Uniform.sim)) /\ uniform (mom1 (arrays Uniform.sim)) /\
  uniform (ene1 (arrays Uniform.sim)) /\
  exists σ' : Sim,
    time_loop Advection.flux Advection.numflux 2 1 (1 / 2) Advection.wg0
      Advection.Vf0 Advection.Vg0 Advection.Vu0 1 5 Uniform.sim
    = Ok (Completed σ') /\
    fields (arrays σ') = ([[1]; [1]], [[0]; [0]], [[2.5]; [2.5]]).
Proof.
  destruct advection_degree0_tables as [Hz He].
  destruct uniform_state_uniform as (Ur & Um & Ue).
  destruct advection_tables_shaped as (Hw & Hf & Hg & Hu).
  repeat match goal with |- _ /\ _ => split; [assumption || exact uniform_state_shaped|] end.
  destruct (X4_uniform_state_is_preserved Advection.flux Advection.numflux
              2 1 2 (1 / 2) Advection.wg0 Advection.Vf0 Advection.Vg0
              Advection.Vu0 1 advection_flux_elementwise Hw Hf Hg Hu
              ltac:(lia) ltac:(lia) Uniform.sim Hz He uniform_state_shaped
              Ur Um Ue) as [_ Hrun].
  destruct (Hrun 5%nat) as (σ' & [Hc|Hr] & Hf').
  - exists σ'. split; [exact Hc|exact Hf'].
  - exfalso.
    destruct (loop_terminates_within Advection.flux Advection.numflux 2 1 2
                (1 / 2) Advection.wg0 Advection.Vf0 Advection.Vg0
                Advection.Vu0 1 advection_flux_elementwise Hw Hf Hg Hu
                ltac:(lia) ltac:(lia) 4 Uniform.sim uniform_state_shaped)
      as (σ2 & H2 & _).
    + unfold Uniform.sim. simpl. lra.
    + unfold Uniform.sim. simpl. lra.
    + rewrite H2 in Hr. discriminate.
Defined.

Lemma X3_steady_state_is_kept_witness :
  well_shaped 2 1 (arrays Uniform.sim) /\
  all_zero3 (residual Advection.flux Advection.numflux 2 1 Advection.wg0
               Advection.Vf0 Advection.Vg0 Advection.Vu0
               (fields (arrays Uniform.sim))) /\
  exists σ1 : Sim,
    time_step Advection.flux Advection.numflux 2 1 (1 / 2) Advection.wg0
      Advection.Vf0 Advection.Vg0 Advection.Vu0 1 Uniform.sim = Ok σ1 /\
    fields (arrays σ1) = ([[1]; [1]], [[0]; [0]], [[2.5]; [2.5]]).
Proof.
  destruct advection_degree0_tables as [Hz He].
  destruct uniform_state_uniform as (Ur & Um & Ue).
  destruct advection_tables_shaped as (Hw & Hf & Hg & Hu).
  assert (all_zero3 (residual Advection.flux Advection.numflux 2 1
                       Advection.wg0 Advection.Vf0 Advection.Vg0 Advection.Vu0
                       (fields (arrays Uniform.sim)))) as Hres.
  { apply (uniform_residual_zero Advection.flux Advection.numflux 2 1 2);
      try done; try lia.
    destruct uniform_state_shaped as (_ & ? & _ & ? & _ & ? & _).
    split; [|split]; done. }
  split; [exact uniform_state_shaped|]. split; [exact Hres|].
  destruct (X3_steady_state_is_kept Advection.flux Advection.numflux 2 1 2
              (1 / 2) Advection.wg0 Advection.Vf0 Advection.Vg0 Advection.Vu0
              1 advection_flux_elementwise Hw Hf Hg Hu ltac:(lia) ltac:(lia)
              Uniform.sim uniform_state_shaped Hres) as [Hstep _].
  exact Hstep.
Defined.

(** * A valid run ends at the final time *)

Section LoopEnds.

Variable flux : vector -> vector -> vector -> vector * vector * vector.
Variable numflux : R * R * R -> R * R * R -> R * R * R.
Variables nc nd nu : nat.
Variable dx : R.
Variable wg : vector.
Variables Vf Vg Vu : matrix.
Variable Tf : R.

Hypothesis flux_shape : elementwise_flux flux.
Hypothesis wg_shape : length wg = nd.
Hypothesis Vf_shape : shaped nd nd Vf.
Hypothesis Vg_shape : shaped nd nd Vg.
Hypothesis Vu_shape : shaped nu nd Vu.
Hypothesis nu_pos : (1 <= nu)%nat.
Hypothesis nc_pos : (1 <= nc)%nat.

Local Abbreviation next := (after_step flux numflux nc nd dx wg Vf Vg Vu Tf).
Local Abbreviation loop := (time_loop flux numflux nc nd dx wg Vf Vg Vu Tf).




End LoopEnds.

(** * The iteration counter *)

Section Counter.

Variable flux : vector -> vector -> vector -> vector * vector * vector.
Variable numflux : R * R * R -> R * R * R -> R * R * R.
Variables nc nd nu : nat.
Variable dx : R.
Variable wg : vector.
Variables Vf Vg Vu : matrix.
Variable Tf : R.

Hypothesis flux_shape : elementwise_flux flux.
Hypothesis wg_shape : length wg = nd.
Hypothesis Vf_shape : shaped nd nd Vf.
Hypothesis Vg_shape : shaped nd nd Vg.
Hypothesis Vu_shape : shaped nu nd Vu.
Hypothesis nu_pos : (1 <= nu)%nat.
Hypothesis nc_pos : (1 <= nc)%nat.

Local Abbreviation next := (after_step flux numflux nc nd dx wg Vf Vg Vu Tf).
Local Abbreviation loop := (time_loop flux numflux nc nd dx wg Vf Vg Vu Tf).


End Counter.




Section ScriptRuns.

Variables shape_value shape_grad : Z -> R -> R.
Variables xmin xmax : R.
Variable initial_condition : vector -> vector * vector * vector.
Variable flux : vector -> vector -> vector -> vector * vector * vector.
Variable numflux : R * R * R -> R * R * R -> R * R * R.
Variable max_speed : matrix -> matrix -> matrix -> R.
Variable leggauss : Z -> vector * vector.

Local Abbreviation run :=
  (main shape_value shape_grad xmin xmax initial_condition flux numflux
        max_speed leggauss).

(** X7, a negative cell count (lines 35-105): with a valid degree the
    tables are built, and the first allocation [np.zeros((nc,nd))] raises
    [ValueError]: nothing is projected and no time step is taken. *)
Theorem X7_negative_cell_count_raises (args : Args) (fuel : nat)
    (xg wg : vector) :
  ic args = "sod"%string -> (0 <= degree args)%Z -> (ncell args < 0)%Z ->
  leggauss (degree args + 1) = (xg, wg) ->
  length xg = Z.to_nat (degree args + 1) ->
  run args fuel = Raise ValueError.
Proof.
  intros Hic Hk Hnc Hleg Hxg.
  unfold main. rewrite Hic. cbn [String.eqb Ascii.eqb Bool.eqb].
  unfold pydiv. rewrite (proj2 (Z.eqb_neq (ncell args) 0)) by lia. cbn [bind].
  unfold np_leggauss. rewrite (proj2 (Z.ltb_ge (degree args + 1) 1)) by lia.
  rewrite Hleg. cbn [bind]. unfold np_zeros.
  rewrite (decide_False (P := (degree args + 1 < 0 \/ degree args + 1 < 0)%Z))
    by lia.
  cbn [bind]. rewrite gauss_tables_ok by done. cbn [bind].
  rewrite (decide_False
             (P := (Z.max 2 (degree args + 1) < 0 \/ degree args + 1 < 0)%Z))
    by lia.
  cbn [bind]. rewrite uniform_table_ok by apply length_linspace. cbn [bind].
  rewrite (decide_True (P := (ncell args < 0 \/ degree args + 1 < 0)%Z))
    by lia.
  reflexivity.
Qed.

Hypothesis ic_shape : vectorised initial_condition.
Hypothesis flux_shape : elementwise_flux flux.


End ScriptRuns.

Lemma X7_negative_cell_count_raises_witness :
  (ncell Commands.negative_cells < 0)%Z /\
  main Advection.shape_value Advection.shape_grad Advection.xmin Advection.xmax
       Advection.initial_condition Advection.flux Advection.numflux
       Advection.max_speed Advection.leggauss Commands.negative_cells 5
  = Raise ValueError.
Proof.
  split; [cbn; lia|].
  exact (X7_negative_cell_count_raises
           Advection.shape_value Advection.shape_grad
           Advection.xmin Advection.xmax Advection.initial_condition
           Advection.flux Advection.numflux Advection.max_speed
           Advection.leggauss Commands.negative_cells 5 [0] [2]
           eq_refl ltac:(cbn; lia) ltac:(cbn; lia) eq_refl eq_refl).
Defined.


(** * Projection and sampling are inverse to each other *)

Section RoundTrip.

Variable xmin : R.
Variable initial_condition : vector -> vector * vector * vector.
Variables nc nd : nat.
Variable dx : R.
Variables xg wg : vector.
Variable Vf : matrix.

Hypothesis ic_shape : vectorised initial_condition.
Hypothesis xg_shape : length xg = nd.
Hypothesis wg_shape : length wg = nd.
Hypothesis Vf_shape : shaped nd nd Vf.
Hypothesis Vf_orthonormal : orthonormal nd wg Vf.

(** The moments of the Gauss-point values of a polynomial are its
    coefficients. *)
Lemma half_moments_at_points (v : vector) :
  length v = nd -> map (Rmult 0.5) (moments wg Vf nd (at_points Vf v)) = v.
Proof.
  intros Hv. pose proof (proj1 Vf_shape) as L.
  apply list_eq. intros j.
  destruct (decide (j < nd)%nat) as [Hj|Hj].
  2:{ rewrite !(proj2 (lookup_ge_None _ _)); [done|lia|].
      rewrite length_map, length_moments. lia. }
  rewrite lookup_half_moments by done.
  rewrite (list_lookup_lookup_total_lt v j) by lia. f_equal.
  assert (length (weighted_columnp wg Vf j) = nd) as LW
      by (rewrite length_weighted_columnp; lia).
  rewrite (dotp_sumn nd) by (done || (rewrite length_at_points; lia)).
  rewrite (sumn_ext nd _
    (fun q => sumn nd (fun i => v !!! i *
       (weighted_columnp wg Vf j !!! q * columnp Vf i !!! q)))).
  2:{ intros q Hq. unfold at_points. rewrite lookup_total_map by lia.
      rewrite (dotp_sumn nd) by (done || by apply (shaped_total nd nd)).
      rewrite Rmult_comm, <- sumn_scale. apply sumn_ext. intros i Hi.
      unfold columnp. rewrite lookup_total_map by lia. ring. }
  rewrite sumn_swap, <- sumn_scale.
  rewrite (sumn_ext nd _ (fun i => v !!! i * (if decide (i = j) then 1 else 0))).
  2:{ intros i Hi. rewrite sumn_scale.
      rewrite <- (dotp_sumn nd) by (done || (rewrite length_columnp; lia)).
      pose proof (Vf_orthonormal j i Hj Hi) as HO.
      destruct (decide (j = i)) as [->|Hne].
      - rewrite decide_True by done.
        replace (dotp (weighted_columnp wg Vf i) (columnp Vf i)) with 2 by lra.
        lra.
      - rewrite decide_False by congruence.
        replace (dotp (weighted_columnp wg Vf j) (columnp Vf i)) with 0 by lra.
        lra. }
  by rewrite (sumn_delta nd j (fun i => v !!! i)).
Qed.

Lemma projection_rows_at_points
    (pick : vector * vector * vector -> vector) (a : matrix) :
  shaped nc nd a ->
  (forall i : nat, (i < nc)%nat ->
     pick (initial_condition (cell_points xmin dx xg i))
     = at_points Vf (a !!! i)) ->
  projection_rows xmin initial_condition nc nd dx xg wg Vf pick = a.
Proof.
  intros Ha Hic. apply list_eq. intros i.
  destruct (decide (i < nc)%nat) as [Hi|Hi].
  - rewrite lookup_projection_rows by done.
    destruct (shaped_row nc nd a i Ha Hi) as [-> Hl].
    by rewrite Hic, half_moments_at_points.
  - rewrite !(proj2 (lookup_ge_None _ _)); [done|rewrite (proj1 Ha); lia|].
    rewrite (proj1 (shaped_projection_rows _ _ nc nd _ _ _ _ _)). lia.
Qed.

(** X8, projection after sampling (lines 108-115): when the basis is
    orthonormal for the Gauss rule and the initial condition takes, at the
    Gauss points of every cell, the values [Vf.dot(c)] of the polynomial
    with the modal coefficients [c] of given arrays, the projection loop
    stores exactly those arrays: projecting is the inverse of sampling at
    the Gauss points. *)
Theorem X8_projection_recovers_coefficients (r m e : matrix) (s : State) :
  well_shaped nc nd s ->
  shaped nc nd r -> shaped nc nd m -> shaped nc nd e ->
  (forall i : nat, (i < nc)%nat ->
     initial_condition (cell_points xmin dx xg i)
     = (at_points Vf (r !!! i), at_points Vf (m !!! i),
        at_points Vf (e !!! i))) ->
  exists s' : State,
    project xmin initial_condition nc nd dx xg wg Vf s = Ok s' /\
    fields s' = (r, m, e).
Proof.
  intros Hs Hr Hm He Hic.
  exists (after_project xmin initial_condition nc nd dx xg wg Vf s).
  split; [by apply project_ok|].
  unfold fields, after_project. cbn [rho1 mom1 ene1 set_u1].
  rewrite (projection_rows_at_points (fun f => f.1.1) r),
          (projection_rows_at_points (fun f => f.1.2) m),
          (projection_rows_at_points (fun f => f.2) e); try done;
    intros i Hi; by rewrite Hic.
Qed.

End RoundTrip.

Lemma X8_projection_recovers_coefficients_witness :
  well_shaped 2 1 (zero_state 2 1) /\
  exists s' : State,
    project 0 Drift.initial_condition 2 1 (1 / 2) [0] Advection.wg0
            Advection.Vf0 (zero_state 2 1) = Ok s' /\
    fields s' = ([[1 / 4]; [3 / 4]], Drift.zeros, Drift.zeros).
Proof.
  split; [apply well_shaped_zero_state|].
  destruct advection_tables_shaped as (Hw & Hf & _ & _).
  destruct advection_orthonormal as (HO & _).
  assert (shaped 2 1 [[1 / 4]; [3 / 4]] /\ shaped 2 1 Drift.zeros) as [Hr Hz].
  { split; (split; [reflexivity|repeat constructor]). }
  apply (X8_projection_recovers_coefficients 0 Drift.initial_condition 2 1
           (1 / 2) [0] Advection.wg0 Advection.Vf0 drift_ic_vectorised
           eq_refl Hw Hf HO [[1 / 4]; [3 / 4]] Drift.zeros Drift.zeros
           (zero_state 2 1) (well_shaped_zero_state 2 1) Hr Hz Hz).
  intros [|[|i]] Hi; [| |lia]; evaluate;
    repeat (f_equal; try lra).
Defined.

(** * The figure *)

Lemma foldl_Rmin_le (x : R) (l : vector) :
  foldl Rmin x l <= x /\ Forall (fun y => foldl Rmin x l <= y) l.
Proof.
  revert x. induction l as [|y l IH]; intros x; cbn [foldl].
  - split; [lra|constructor].
  - destruct (IH (Rmin x y)) as [H1 H2].
    pose proof (Rmin_l x y). pose proof (Rmin_r x y).
    split; [lra|]. constructor; [lra|exact H2].
Qed.

Lemma foldl_Rmax_ge (x : R) (l : vector) :
  x <= foldl Rmax x l /\ Forall (fun y => y <= foldl Rmax x l) l.
Proof.
  revert x. induction l as [|y l IH]; intros x; cbn [foldl].
  - split; [lra|constructor].
  - destruct (IH (Rmax x y)) as [H1 H2].
    pose proof (Rmax_l x y). pose proof (Rmax_r x y).
    split; [lra|]. constructor; [lra|exact H2].
Qed.

Lemma smallest_le (f : vector) : Forall (fun y => smallest f <= y) f.
Proof.
  destruct f as [|x l]; [constructor|]. cbn [smallest].
  destruct (foldl_Rmin_le x l) as [H1 H2]. by constructor.
Qed.

Lemma largest_ge (f : vector) : Forall (fun y => y <= largest f) f.
Proof.
  destruct f as [|x l]; [constructor|]. cbn [largest].
  destruct (foldl_Rmax_ge x l) as [H1 H2]. by constructor.
Qed.

Lemma amin_ok (f : vector) : (1 <= length f)%nat -> amin f = Ok (smallest f).
Proof. destruct f; cbn; [lia|done]. Qed.

Lemma amax_ok (f : vector) : (1 <= length f)%nat -> amax f = Ok (largest f).
Proof. destruct f; cbn; [lia|done]. Qed.

Lemma curves_S (xmin dx : R) (Vu : matrix) (xu : vector) (n : nat)
      (rho : matrix) :
  curves xmin dx Vu xu (S n) rho
  = curves xmin dx Vu xu n rho ++ [curve xmin dx Vu xu rho n].
Proof. unfold curves. by rewrite seq_S, map_app. Qed.

Lemma lowest_S (Vu : matrix) (n : nat) (rho : matrix) :
  lowest Vu (S n) rho
  = Rmin (lowest Vu n rho) (smallest (at_points Vu (rho !!! n))).
Proof. unfold lowest. by rewrite seq_S, foldl_app. Qed.

Lemma highest_S (Vu : matrix) (n : nat) (rho : matrix) :
  highest Vu (S n) rho
  = Rmax (highest Vu n rho) (largest (at_points Vu (rho !!! n))).
Proof. unfold highest. by rewrite seq_S, foldl_app. Qed.

Lemma lowest_le (Vu : matrix) (n : nat) (rho : matrix) :
  lowest Vu n rho <= 1e20 /\
  forall i : nat, (i < n)%nat ->
    lowest Vu n rho <= smallest (at_points Vu (rho !!! i)).
Proof.
  induction n as [|n [IH0 IH]].
  - split; [cbn; lra|]. intros i Hi. lia.
  - rewrite lowest_S.
    pose proof (Rmin_l (lowest Vu n rho) (smallest (at_points Vu (rho !!! n)))).
    pose proof (Rmin_r (lowest Vu n rho) (smallest (at_points Vu (rho !!! n)))).
    split; [lra|]. intros i Hi.
    destruct (decide (i = n)) as [->|Hne]; [lra|].
    specialize (IH i ltac:(lia)). lra.
Qed.

Lemma highest_ge (Vu : matrix) (n : nat) (rho : matrix) :
  -1e20 <= highest Vu n rho /\
  forall i : nat, (i < n)%nat ->
    largest (at_points Vu (rho !!! i)) <= highest Vu n rho.
Proof.
  induction n as [|n [IH0 IH]].
  - split; [cbn; lra|]. intros i Hi. lia.
  - rewrite highest_S.
    pose proof (Rmax_l (highest Vu n rho) (largest (at_points Vu (rho !!! n)))).
    pose proof (Rmax_r (highest Vu n rho) (largest (at_points Vu (rho !!! n)))).
    split; [lra|]. intros i Hi.
    destruct (decide (i = n)) as [->|Hne]; [lra|].
    specialize (IH i ltac:(lia)). lra.
Qed.

Lemma length_curves (xmin dx : R) (Vu : matrix) (xu : vector) (n : nat)
      (rho : matrix) :
  length (curves xmin dx Vu xu n rho) = n.
Proof. unfold curves. by rewrite length_map, length_seq. Qed.

Lemma lookup_curves (xmin dx : R) (Vu : matrix) (xu : vector) (n i : nat)
      (rho : matrix) :
  (i < n)%nat ->
  curves xmin dx Vu xu n rho !! i = Some (curve xmin dx Vu xu rho i).
Proof.
  intros Hi. unfold curves. rewrite list_lookup_fmap.
  by rewrite lookup_seq_lt.
Qed.

Lemma length_redrawn (Vu : matrix) (lines : list Line) (rho : matrix) :
  length (redrawn Vu lines rho) = length lines.
Proof. apply length_imap. Qed.

Lemma lookup_redrawn (Vu : matrix) (lines : list Line) (rho : matrix)
      (i : nat) (l : Line) :
  lines !! i = Some l ->
  redrawn Vu lines rho !! i = Some (mkLine (xdata l) (at_points Vu (rho !!! i))).
Proof. intros Hl. unfold redrawn. by rewrite list_lookup_imap, Hl. Qed.

(** Drawing again keeps the abscissae and forgets the old ordinates. *)
Lemma redrawn_redrawn (Vu : matrix) (lines : list Line) (rho rho' : matrix) :
  redrawn Vu (redrawn Vu lines rho) rho' = redrawn Vu lines rho'.
Proof.
  apply list_eq. intros i. unfold redrawn.
  rewrite !list_lookup_imap. by destruct (lines !! i).
Qed.

(** Redrawing the curves of [init_plot] gives the curves [init_plot] draws
    for the new array. *)
Lemma redrawn_curves (xmin dx : R) (Vu : matrix) (xu : vector) (n : nat)
      (rho rho' : matrix) :
  redrawn Vu (curves xmin dx Vu xu n rho) rho' = curves xmin dx Vu xu n rho'.
Proof.
  apply list_eq. intros i. unfold redrawn. rewrite list_lookup_imap.
  destruct (decide (i < n)%nat) as [Hi|Hi].
  - by rewrite !lookup_curves.
  - rewrite !(proj2 (lookup_ge_None _ _)); [done|rewrite length_curves; lia..].
Qed.

Section PlotData.

Variables xmin xmax : R.
Variables nc nd nu : nat.
Variable dx : R.
Variable Vu : matrix.
Variable xu : vector.

Hypothesis Vu_shape : shaped nu nd Vu.
Hypothesis xu_shape : length xu = nu.
Hypothesis nu_pos : (1 <= nu)%nat.

Lemma samples_ok (rho : matrix) (i : nat) :
  shaped nc nd rho -> (i < nc)%nat ->
  getitem rho (Z.of_nat i) = Ok (rho !!! i) /\
  matvec Vu (rho !!! i) = Ok (at_points Vu (rho !!! i)) /\
  amin (at_points Vu (rho !!! i)) = Ok (smallest (at_points Vu (rho !!! i))) /\
  amax (at_points Vu (rho !!! i)) = Ok (largest (at_points Vu (rho !!! i))).
Proof.
  intros Hrho Hi. destruct (shaped_row nc nd rho i Hrho Hi) as [Hl Hlen].
  pose proof (proj1 Vu_shape) as L.
  split; [by apply getitem_of_nat|].
  split; [by apply (matvec_ok nu nd)|].
  split; [apply amin_ok|apply amax_ok]; rewrite length_at_points; lia.
Qed.

Lemma init_plot_ok (rho mom ene : matrix) :
  shaped nc nd rho ->
  init_plot xmin xmax nc dx Vu xu rho mom ene
  = Ok (mkFigure (curves xmin dx Vu xu nc rho) (limits xmin xmax Vu nc rho)
                 None).
Proof.
  intros Hrho. unfold init_plot.
  rewrite (for_each_range_eq
             (fun n => (curves xmin dx Vu xu n rho, lowest Vu n rho,
                        highest Vu n rho)) 0 nc _ _
             (curves xmin dx Vu xu nc rho, lowest Vu nc rho,
              highest Vu nc rho)); try done; [lia|].
  intros n Hn. destruct (samples_ok rho n Hrho ltac:(lia)) as (E1 & E2 & E3 & E4).
  rewrite E1. cbn [bind]. rewrite E2. cbn [bind]. unfold plot.
  rewrite decide_True
    by (rewrite length_map, length_at_points, (proj1 Vu_shape); done).
  cbn [bind]. rewrite E3. cbn [bind]. rewrite E4. cbn [bind].
  by rewrite curves_S, lowest_S, highest_S.
Qed.

Lemma update_plot_ok (lines : list Line) (t : R) (rho : matrix) :
  shaped nc nd rho -> length lines = nc ->
  update_plot xmin xmax nc dx Vu xu lines t rho
  = Ok (frame xmin xmax Vu nc lines t rho).
Proof.
  intros Hrho Hlines. unfold update_plot.
  assert (length (redrawn Vu lines rho) = length lines) as Hlen
    by apply length_redrawn.
  rewrite (for_each_range_eq
             (fun n => (fill n (redrawn Vu lines rho) lines, lowest Vu n rho,
                        highest Vu n rho)) 0 nc _ _
             (redrawn Vu lines rho, lowest Vu nc rho, highest Vu nc rho));
    try done; [lia| |].
  - f_equal. f_equal. symmetry. apply fill_full; [by rewrite Hlen|done].
  - intros n Hn.
    destruct (samples_ok rho n Hrho ltac:(lia)) as (E1 & E2 & E3 & E4).
    rewrite E1. cbn [bind]. rewrite E2. cbn [bind].
    destruct (lookup_lt_is_Some_2 lines n ltac:(lia)) as [l Hl].
    rewrite (getitem_of_nat _ n l) by (by rewrite fill_lookup_next).
    cbn [bind].
    rewrite setitem_of_nat by (rewrite length_fill; [lia|done]).
    cbn [bind]. rewrite E3. cbn [bind]. rewrite E4. cbn [bind].
    rewrite (fill_insert n) by (done || by apply lookup_redrawn).
    by rewrite lowest_S, highest_S.
Qed.

End PlotData.

Lemma xdata_redrawn (Vu : matrix) (lines : list Line) (rho : matrix) :
  map xdata (redrawn Vu lines rho) = map xdata lines.
Proof.
  apply list_eq. intros i. unfold redrawn.
  rewrite !list_lookup_fmap, list_lookup_imap. by destruct (lines !! i).
Qed.

(** The redrawn curves depend on the old ones through their abscissae
    only. *)
Lemma redrawn_ext (Vu : matrix) (l l' : list Line) (rho : matrix) :
  map xdata l = map xdata l' -> redrawn Vu l rho = redrawn Vu l' rho.
Proof.
  intros Hx. apply list_eq. intros i. unfold redrawn.
  rewrite !list_lookup_imap.
  apply (f_equal (fun x => x !! i)) in Hx. rewrite !list_lookup_fmap in Hx.
  destruct (l !! i), (l' !! i); cbn in *; congruence.
Qed.

Lemma plot_due_zero (Tf : R) (σ : Sim) : plot_due 0 Tf σ = None.
Proof. reflexivity. Qed.

Lemma plot_due_some (plot_freq : Z) (Tf : R) (σ : Sim) :
  plot_freq <> 0%Z -> exists b : bool, plot_due plot_freq Tf σ = Some b.
Proof.
  intros Hp. unfold plot_due, pymod.
  destruct (Z.eqb_spec plot_freq 0) as [?|_]; [done|]. eauto.
Qed.

Lemma plot_due_at_end (plot_freq : Z) (Tf : R) (σ : Sim) :
  plot_freq <> 0%Z -> t σ = Tf -> plot_due plot_freq Tf σ = Some true.
Proof.
  intros Hp Ht. unfold plot_due, pymod.
  destruct (Z.eqb_spec plot_freq 0) as [?|_]; [done|].
  destruct (_ =? 0)%Z; [done|].
  destruct (Rlt_dec (Rabs (Tf - t σ)) 1e-13) as [|Hn]; [done|].
  exfalso. apply Hn. rewrite Ht, Rminus_diag, Rabs_R0. lra.
Qed.

Lemma plot_due_multiple (plot_freq : Z) (Tf : R) (σ : Sim) :
  plot_freq <> 0%Z -> (it σ mod plot_freq = 0)%Z ->
  plot_due plot_freq Tf σ = Some true.
Proof.
  intros Hp Hm. unfold plot_due, pymod.
  destruct (Z.eqb_spec plot_freq 0) as [?|_]; [done|]. by rewrite Hm.
Qed.

Section PlotLoop.

Variable flux : vector -> vector -> vector -> vector * vector * vector.
Variable numflux : R * R * R -> R * R * R -> R * R * R.
Variables xmin xmax : R.
Variables nc nd nu : nat.
Variable dx : R.
Variable wg : vector.
Variables Vf Vg Vu : matrix.
Variable xu : vector.
Variable plot_freq : Z.
Variable Tf : R.

Hypothesis flux_shape : elementwise_flux flux.
Hypothesis wg_shape : length wg = nd.
Hypothesis Vf_shape : shaped nd nd Vf.
Hypothesis Vg_shape : shaped nd nd Vg.
Hypothesis Vu_shape : shaped nu nd Vu.
Hypothesis xu_shape : length xu = nu.
Hypothesis nu_pos : (1 <= nu)%nat.
Hypothesis nc_pos : (1 <= nc)%nat.

Local Abbreviation next := (after_step flux numflux nc nd dx wg Vf Vg Vu Tf).
Local Abbreviation loop := (time_loop flux numflux nc nd dx wg Vf Vg Vu Tf).
Local Abbreviation show :=
  (time_loop_plot flux numflux xmin xmax nc nd dx wg Vf Vg Vu xu plot_freq Tf).
Local Abbreviation redraw := (frame xmin xmax Vu nc).

Lemma show_done (fuel : nat) (σ : Sim) (fig : Figure) :
  ~ t σ < Tf -> show fuel σ fig = Ok (Drawn (Completed σ) fig).
Proof.
  intros Ht. destruct fuel; cbn [time_loop_plot];
    by destruct (Rlt_dec (t σ) Tf).
Qed.

Lemma show_step (fuel : nat) (σ : Sim) (fig : Figure) :
  well_shaped nc nd (arrays σ) -> t σ < Tf ->
  show (S fuel) σ fig
  = match plot_due plot_freq Tf (next σ) with
    | None => Ok (Raised ZeroDivisionError (next σ) fig)
    | Some true =>
        fig' <- update_plot xmin xmax nc dx Vu xu (lines fig) (t (next σ))
                            (rho1 (arrays (next σ))) ;;
        show fuel (next σ) fig'
    | Some false => show fuel (next σ) fig
    end.
Proof.
  intros Hs Ht. cbn [time_loop_plot]. destruct (Rlt_dec (t σ) Tf); [|done].
  rewrite (step_next flux numflux nc nd nu) by done. reflexivity.
Qed.

Lemma redraw_ok (σ : Sim) (fig : Figure) :
  well_shaped nc nd (arrays σ) -> length (lines fig) = nc ->
  update_plot xmin xmax nc dx Vu xu (lines fig) (t σ) (rho1 (arrays σ))
  = Ok (redraw (lines fig) (t σ) (rho1 (arrays σ))).
Proof.
  intros (_ & Hr & _) Hl.
  eapply (update_plot_ok xmin xmax nc nd nu); eauto.
Qed.

(** With a plot frequency that is not zero the figure is a spectator: the
    run ends as the run without figure ends. *)
Lemma show_refines (fuel : nat) (σ : Sim) (fig : Figure) :
  plot_freq <> 0%Z ->
  well_shaped nc nd (arrays σ) -> length (lines fig) = nc ->
  exists (o : outcome) (fig' : Figure),
    loop fuel σ = Ok o /\ show fuel σ fig = Ok (Drawn o fig') /\
    map xdata (lines fig') = map xdata (lines fig).
Proof.
  intros Hp. revert σ fig. induction fuel as [|fuel IH]; intros σ fig Hs Hl.
  - exists (if Rlt_dec (t σ) Tf then Running σ else Completed σ), fig.
    cbn. by destruct (Rlt_dec (t σ) Tf).
  - destruct (Rlt_dec (t σ) Tf) as [Hlt|Hge].
    2:{ exists (Completed σ), fig. rewrite loop_done, show_done by done. done. }
    assert (well_shaped nc nd (arrays (next σ))) as Hs'
      by (by apply (next_well_shaped flux numflux nc nd nu)).
    rewrite (loop_step flux numflux nc nd nu), show_step by done.
    destruct (plot_due_some plot_freq Tf (next σ) Hp) as [[|] ->].
    + rewrite redraw_ok by done. cbn [bind].
      destruct (IH (next σ) (redraw (lines fig) (t (next σ))
                                    (rho1 (arrays (next σ)))) Hs')
        as (o & fig' & H1 & H2 & H3).
      { cbn [lines frame]. by rewrite length_redrawn. }
      exists o, fig'. split; [done|]. split; [done|].
      rewrite H3. cbn [lines frame]. apply xdata_redrawn.
    + destruct (IH (next σ) fig Hs' Hl) as (o & fig' & H1 & H2 & H3).
      by exists o, fig'.
Qed.

(** When the loop is left after at least one pass, the last thing drawn is
    the final state, at time [Tf], whatever the plot frequency. *)
Lemma show_final (fuel : nat) (σ σ' : Sim) (fig0 fig : Figure) :
  plot_freq <> 0%Z ->
  well_shaped nc nd (arrays σ) -> length (lines fig) = nc ->
  map xdata (lines fig) = map xdata (lines fig0) ->
  t σ < Tf -> loop fuel σ = Ok (Completed σ') ->
  show fuel σ fig
  = Ok (Drawn (Completed σ') (redraw (lines fig0) Tf (rho1 (arrays σ')))).
Proof.
  intros Hp. revert σ fig.
  induction fuel as [|fuel IH]; intros σ fig Hs Hl Hx Hlt Hrun.
  - cbn in Hrun. by destruct (Rlt_dec (t σ) Tf).
  - assert (well_shaped nc nd (arrays (next σ))) as Hs'
      by (by apply (next_well_shaped flux numflux nc nd nu)).
    rewrite (loop_step flux numflux nc nd nu) in Hrun by done.
    rewrite show_step by done.
    destruct (Rlt_dec (t (next σ)) Tf) as [Hlt'|Hge].
    + destruct (plot_due_some plot_freq Tf (next σ) Hp) as [[|] ->].
      * rewrite redraw_ok by done. cbn [bind].
        apply IH; try done.
        -- cbn [lines frame]. by rewrite length_redrawn.
        -- cbn [lines frame]. by rewrite xdata_redrawn.
      * by apply IH.
    + rewrite loop_done in Hrun by done. injection Hrun as <-.
      pose proof (next_time_le flux numflux nc nd dx wg Vf Vg Vu Tf σ Hlt) as Hle.
      assert (t (next σ) = Tf) as Ht by lra.
      rewrite plot_due_at_end by done.
      rewrite redraw_ok by done. cbn [bind].
      rewrite show_done by done. rewrite Ht.
      unfold frame. by rewrite (redrawn_ext Vu _ _ _ Hx).
Qed.

End PlotLoop.

Lemma for_each_range_raise {S : Type} (F : nat -> S) (a m b : nat)
      (body : Z -> S -> result S) (e : exn) :
  (a <= m < b)%nat ->
  (forall n, (a <= n < m)%nat -> body (Z.of_nat n) (F n) = Ok (F (Datatypes.S n))) ->
  body (Z.of_nat m) (F m) = Raise e ->
  for_each (range a b) body (F a) = Raise e.
Proof.
  intros Hm Hstep Hfail. unfold range.
  remember (b - a)%nat as d eqn:Hd.
  revert a Hm Hd Hstep. induction d as [|d IH]; intros a Hm Hd Hstep; [lia|].
  simpl. destruct (decide (a = m)) as [->|Hne].
  - by rewrite Hfail.
  - rewrite Hstep by lia. simpl. apply IH; [lia|lia|].
    intros n Hn. apply Hstep. lia.
Qed.

Lemma getitem_past_end {A : Type} (a : list A) (n : nat) :
  (length a <= n)%nat -> getitem a (Z.of_nat n) = Raise IndexError.
Proof.
  intros Hn. unfold getitem, index.
  rewrite (proj2 (Z.leb_le 0 (Z.of_nat n))) by lia.
  by rewrite (proj2 (Z.ltb_ge (Z.of_nat n) (Z.of_nat (length a)))) by lia.
Qed.

Section FigureTheorems.

Variables xmin xmax : R.
Variables nc nd nu : nat.
Variable dx : R.
Variable Vu : matrix.
Variable xu : vector.

Hypothesis Vu_shape : shaped nu nd Vu.
Hypothesis xu_shape : length xu = nu.
Hypothesis nu_pos : (1 <= nu)%nat.

(** X9, the first figure (lines 64-79): [init_plot] draws one curve per
    cell, with the abscissae [xc + 0.5*dx*xu] of the cell and the ordinates
    [Vu.dot(rho[i,:])]; momentum and energy are not drawn.  The limits
    given to [plt.axis] are [xmin], [xmax] and a vertical range that holds
    every ordinate with a margin of 0.1 on both sides. *)
Theorem X9_initial_figure (rho mom ene : matrix) :
  shaped nc nd rho ->
  exists fig : Figure,
    init_plot xmin xmax nc dx Vu xu rho mom ene = Ok fig /\
    length (lines fig) = nc /\ title_time fig = None /\
    (forall i : nat, (i < nc)%nat ->
       lines fig !! i
       = Some (mkLine
                 (map (fun u => xmin + IZR (Z.of_nat i) * dx + 0.5 * dx
                                + 0.5 * dx * u) xu)
                 (at_points Vu (rho !!! i)))) /\
    exists lo hi : R,
      axis fig = (xmin, xmax, lo - 0.1, hi + 0.1) /\
      lo <= 1e20 /\ -1e20 <= hi /\
      forall (i : nat) (y : R), (i < nc)%nat ->
        y ∈ at_points Vu (rho !!! i) -> lo <= y <= hi.
Proof.
  intros Hrho. eexists. split; [by apply (init_plot_ok xmin xmax nc nd nu)|].
  cbn [lines axis title_time].
  split; [apply length_curves|]. split; [done|].
  split; [intros i Hi; by apply lookup_curves|].
  exists (lowest Vu nc rho), (highest Vu nc rho).
  destruct (lowest_le Vu nc rho) as [Hlo Hlow].
  destruct (highest_ge Vu nc rho) as [Hhi Hhigh].
  split; [done|]. split; [done|]. split; [done|].
  intros i y Hi Hy.
  pose proof (proj1 (Forall_forall _ _)
                (smallest_le (at_points Vu (rho !!! i))) y Hy) as H1.
  pose proof (proj1 (Forall_forall _ _)
                (largest_ge (at_points Vu (rho !!! i))) y Hy) as H2.
  cbn beta in H1, H2.
  specialize (Hlow i Hi). specialize (Hhigh i Hi). lra.
Qed.

(** X10, drawing again (lines 82-94): called with the curves of
    [init_plot] and a new array, [update_plot] leaves the curves and the
    limits that [init_plot] would draw for the new array, and puts the time
    in the title: nothing of the old ordinates or limits is kept. *)
Theorem X10_redrawing_is_drawing_anew (rho mom ene rho' : matrix) (t : R) :
  shaped nc nd rho -> shaped nc nd rho' ->
  exists fig0 fig fig' : Figure,
    init_plot xmin xmax nc dx Vu xu rho mom ene = Ok fig0 /\
    update_plot xmin xmax nc dx Vu xu (lines fig0) t rho' = Ok fig /\
    init_plot xmin xmax nc dx Vu xu rho' mom ene = Ok fig' /\
    lines fig = lines fig' /\ axis fig = axis fig' /\
    title_time fig = Some t.
Proof.
  intros Hrho Hrho'. do 3 eexists.
  split; [by apply (init_plot_ok xmin xmax nc nd nu)|].
  split.
  { eapply (update_plot_ok xmin xmax nc nd nu); eauto.
    cbn [lines]. apply length_curves. }
  split; [by apply (init_plot_ok xmin xmax nc nd nu)|].
  cbn [lines axis title_time frame].
  split; [apply redrawn_curves|done].
Qed.

(** X11, too few curves (lines 82-89): [update_plot] indexes the list of
    curves with the cell number, so a list shorter than the number of cells
    raises [IndexError]. *)
Theorem X11_update_needs_a_curve_per_cell (lines : list Line) (t : R)
    (rho : matrix) :
  shaped nc nd rho -> (length lines < nc)%nat ->
  update_plot xmin xmax nc dx Vu xu lines t rho = Raise IndexError.
Proof.
  intros Hrho Hl. unfold update_plot.
  assert (length (redrawn Vu lines rho) = length lines) as Hlen
    by apply length_redrawn.
  rewrite (for_each_range_raise
             (fun n => (fill n (redrawn Vu lines rho) lines, lowest Vu n rho,
                        highest Vu n rho)) 0 (length lines) nc _ IndexError);
    [done|lia| |].
  - intros n Hn.
    destruct (samples_ok nc nd nu Vu xu Vu_shape xu_shape nu_pos rho n Hrho ltac:(lia))
      as (E1 & E2 & E3 & E4).
    rewrite E1. cbn [bind]. rewrite E2. cbn [bind].
    destruct (lookup_lt_is_Some_2 lines n ltac:(lia)) as [l Hl'].
    rewrite (getitem_of_nat _ n l) by (by rewrite fill_lookup_next).
    cbn [bind].
    rewrite setitem_of_nat by (rewrite length_fill; [lia|done]).
    cbn [bind]. rewrite E3. cbn [bind]. rewrite E4. cbn [bind].
    rewrite (fill_insert n) by (done || by apply lookup_redrawn).
    by rewrite lowest_S, highest_S.
  - destruct (samples_ok nc nd nu Vu xu Vu_shape xu_shape nu_pos rho (length lines) Hrho Hl)
      as (E1 & E2 & _).
    rewrite E1. cbn [bind]. rewrite E2. cbn [bind].
    rewrite getitem_past_end; [done|].
    rewrite length_fill; [lia|done].
Qed.

End FigureTheorems.

Section CurveEnds.

Variables xmin xmax : R.
Variables nc nd nu : nat.
Variable dx : R.
Variable Vu : matrix.

Hypothesis Vu_shape : shaped nu nd Vu.
Hypothesis nu_two : (2 <= nu)%nat.

(** X12, the ends of the curves (lines 57, 66-69): with the [nu >= 2]
    uniform points [linspace(-1,1,nu)] the curve of cell [i] starts at
    [xmin + i*dx] and stops at [xmin + (i+1)*dx], so neighbouring curves
    meet at the face between their cells; its first and last ordinates are
    the two one-sided values [rho[i,:].dot(Vu[0,:])] and
    [rho[i,:].dot(Vu[-1,:])] that the face loop gives to the numerical
    flux. *)
Theorem X12_curves_span_their_cells (rho mom ene : matrix) :
  shaped nc nd rho ->
  exists fig : Figure,
    init_plot xmin xmax nc dx Vu (linspace (-1) 1 nu) rho mom ene = Ok fig /\
    forall i : nat, (i < nc)%nat ->
      exists (l : Line) (a b : R),
        lines fig !! i = Some l /\
        length (xdata l) = nu /\ length (ydata l) = nu /\
        xdata l !! 0%nat = Some a /\ a = xmin + IZR (Z.of_nat i) * dx /\
        xdata l !! (nu - 1)%nat = Some b /\
        b = xmin + IZR (Z.of_nat i + 1) * dx /\
        ydata l !! 0%nat = Some (edge Vu 0 rho i) /\
        ydata l !! (nu - 1)%nat = Some (edge Vu (nu - 1) rho i).
Proof.
  intros Hrho. eexists.
  split.
  { eapply (init_plot_ok xmin xmax nc nd nu); eauto.
    - apply length_linspace.
    - lia. }
  cbn [lines]. intros i Hi.
  pose proof (proj1 Vu_shape) as L.
  exists (curve xmin dx Vu (linspace (-1) 1 nu) rho i).
  eexists. eexists.
  split; [by apply lookup_curves|].
  cbn [xdata ydata curve]. unfold abscissae.
  split; [by rewrite length_map, length_linspace|].
  split; [by rewrite length_at_points|].
  split.
  { rewrite list_lookup_fmap, linspace_first by lia. reflexivity. }
  split; [lra|].
  split.
  { rewrite list_lookup_fmap, linspace_last by lia. reflexivity. }
  split; [rewrite plus_IZR; lra|].
  unfold at_points, edge. rewrite !list_lookup_fmap.
  rewrite !(list_lookup_lookup_total_lt Vu) by lia.
  cbn [fmap option_fmap option_map].
  by rewrite !(dotp_comm (rho !!! i)).
Qed.

End CurveEnds.

(** * The script with its figure *)

Section ShownScript.

Variables shape_value shape_grad : Z -> R -> R.
Variables xmin xmax : R.
Variable initial_condition : vector -> vector * vector * vector.
Variable flux : vector -> vector -> vector -> vector * vector * vector.
Variable numflux : R * R * R -> R * R * R -> R * R * R.
Variable max_speed : matrix -> matrix -> matrix -> R.
Variable leggauss : Z -> vector * vector.

Local Abbreviation run :=
  (main shape_value shape_grad xmin xmax initial_condition flux numflux
        max_speed leggauss).
Local Abbreviation run_shown :=
  (main_plot shape_value shape_grad xmin xmax initial_condition flux numflux
             max_speed leggauss).

Lemma main_plot_ok (args : Args) (fuel : nat) (xg wg : vector) :
  ic args = "sod"%string -> (0 <= degree args)%Z -> (1 <= ncell args)%Z ->
  leggauss (degree args + 1) = (xg, wg) ->
  length xg = Z.to_nat (degree args + 1) ->
  length wg = Z.to_nat (degree args + 1) ->
  vectorised initial_condition ->
  let nc := Z.to_nat (ncell args) in
  let nd := Z.to_nat (degree args + 1) in
  let nu := Z.to_nat (Z.max 2 (degree args + 1)) in
  let dx := (xmax - xmin) / IZR (ncell args) in
  let Vf := table shape_value nd xg in
  let Vg := table shape_grad nd xg in
  let xu := linspace (-1) 1 nu in
  let Vu := table shape_value nd xu in
  let σ0 := initial_sim xmin initial_condition max_speed nc nd dx xg wg Vf
                        (cfl_arg args / IZR (2 * degree args + 1)) in
  run_shown args fuel
  = (r <- time_loop_plot flux numflux xmin xmax nc nd dx wg Vf Vg Vu xu
                         (plot_freq args) (Tf_arg args) fuel σ0
                         (mkFigure (curves xmin dx Vu xu nc (rho1 (arrays σ0)))
                                   (limits xmin xmax Vu nc (rho1 (arrays σ0)))
                                   None) ;;
     Ok (Some r)).
Proof.
  intros Hic Hk Hnc Hleg Hxg Hwg Hvec nc nd nu dx Vf Vg xu Vu σ0.
  unfold main_plot. rewrite Hic. cbn [String.eqb Ascii.eqb Bool.eqb].
  unfold pydiv. rewrite (proj2 (Z.eqb_neq (ncell args) 0)) by lia. cbn [bind].
  unfold np_leggauss. rewrite (proj2 (Z.ltb_ge (degree args + 1) 1)) by lia.
  rewrite Hleg. cbn [bind]. unfold np_zeros.
  rewrite !decide_False by lia. cbn [bind].
  rewrite gauss_tables_ok by done. cbn [bind].
  rewrite uniform_table_ok by apply length_linspace. cbn [bind].
  assert (shaped nd nd Vf) as HVf.
  { pose proof (shaped_table shape_value nd xg) as H. by rewrite Hxg in H. }
  rewrite (project_ok xmin initial_condition nc nd dx xg wg Vf)
    by (done || apply well_shaped_zero_state).
  cbn [bind].
  assert (well_shaped nc nd (arrays σ0)) as (_ & Hrho & _)
    by apply well_shaped_initial_sim.
  pose proof (shaped_table shape_value nd xu) as HVu.
  unfold xu in HVu at 1. rewrite length_linspace in HVu.
  rewrite (init_plot_ok xmin xmax nc nd nu dx Vu xu HVu)
    by (done || apply length_linspace || (unfold nu; lia)).
  reflexivity.
Qed.

Hypothesis ic_shape : vectorised initial_condition.
Hypothesis flux_shape : elementwise_flux flux.

(** X13, a plot frequency of zero (lines 118-126, 127-191): on a command
    line that is valid otherwise and has a positive final time, the figure
    of the initial condition is drawn, the first time step is computed in
    full (the state [σ1] that the loop body returns from the projected
    initial state: three stages, the counter at 1, the time advanced by the
    step), and then [it%plot_freq] raises [ZeroDivisionError]: the run ends
    there, whatever the step budget, in the state [σ1] and with the figure
    that [init_plot] drew, never redrawn. *)
Theorem X13_zero_plot_frequency_stops_the_run (args : Args) (xg wg : vector) :
  ic args = "sod"%string -> (0 <= degree args)%Z -> (1 <= ncell args)%Z ->
  leggauss (degree args + 1) = (xg, wg) ->
  length xg = Z.to_nat (degree args + 1) ->
  length wg = Z.to_nat (degree args + 1) ->
  plot_freq args = 0%Z -> 0 < Tf_arg args ->
  let nc := Z.to_nat (ncell args) in
  let nd := Z.to_nat (degree args + 1) in
  let nu := Z.to_nat (Z.max 2 (degree args + 1)) in
  let dx := (xmax - xmin) / IZR (ncell args) in
  let Vf := table shape_value nd xg in
  let Vg := table shape_grad nd xg in
  let xu := linspace (-1) 1 nu in
  let Vu := table shape_value nd xu in
  let cfl := cfl_arg args / IZR (2 * degree args + 1) in
  let Tf := Tf_arg args in
  exists (σ0 σ1 : Sim) (fig0 : Figure),
    start xmin initial_condition max_speed nc nd dx xg wg Vf cfl = Ok σ0 /\
    init_plot xmin xmax nc dx Vu xu (rho1 (arrays σ0)) (mom1 (arrays σ0))
              (ene1 (arrays σ0)) = Ok fig0 /\
    fig0 = mkFigure (curves xmin dx Vu xu nc (rho1 (arrays σ0)))
                    (limits xmin xmax Vu nc (rho1 (arrays σ0))) None /\
    time_step flux numflux nc nd dx wg Vf Vg Vu Tf σ0 = Ok σ1 /\
    (let u0 := fields (arrays σ0) in
     let S := ssprk_stage (residual flux numflux nc nd wg Vf Vg Vu)
                          (step_lam dx Tf σ0) u0 in
     fields (arrays σ1) = S (1 / 3) (S (3 / 4) (S 0 u0))) /\
    it σ1 = 1%Z /\ t σ1 = step_dt Tf σ0 /\
    forall fuel : nat,
      run_shown args (S fuel) = Ok (Some (Raised ZeroDivisionError σ1 fig0)).
Proof.
  intros Hic Hk Hnc Hleg Hxg Hwg Hpf HTf.
  pose proof (main_plot_ok args) as Hmain. cbn zeta in Hmain. cbn zeta.
  set (nc := Z.to_nat (ncell args)) in *.
  set (nd := Z.to_nat (degree args + 1)) in *.
  set (nu := Z.to_nat (Z.max 2 (degree args + 1))) in *.
  set (dx := (xmax - xmin) / IZR (ncell args)) in *.
  set (Vf := table shape_value nd xg) in *.
  set (Vg := table shape_grad nd xg) in *.
  set (xu := linspace (-1) 1 nu) in *.
  set (Vu := table shape_value nd xu) in *.
  set (σ0 := initial_sim xmin initial_condition max_speed nc nd dx xg wg Vf
                         (cfl_arg args / IZR (2 * degree args + 1))) in *.
  assert (well_shaped nc nd (arrays σ0)) as H0 by apply well_shaped_initial_sim.
  pose proof (shaped_table shape_value nd xg) as HVf. rewrite Hxg in HVf.
  pose proof (shaped_table shape_grad nd xg) as HVg. rewrite Hxg in HVg.
  pose proof (shaped_table shape_value nd xu) as HVu.
  unfold xu in HVu at 1. rewrite length_linspace in HVu.
  assert (1 <= nu)%nat as Hnu by (unfold nu; lia).
  assert (1 <= nc)%nat as Hnc' by (unfold nc; lia).
  exists σ0, (after_step flux numflux nc nd dx wg Vf Vg Vu (Tf_arg args) σ0).
  eexists.
  split; [by apply start_ok|].
  split.
  { pose proof H0 as (_ & Hrho & _).
    apply (init_plot_ok xmin xmax nc nd nu dx Vu xu HVu);
      (done || apply length_linspace). }
  split; [reflexivity|].
  split; [by apply (step_next flux numflux nc nd nu)|].
  split; [apply fields_after_step|].
  split; [done|]. split; [unfold σ0, initial_sim; cbn [after_step t]; lra|].
  intros fuel. rewrite (Hmain (S fuel) xg wg) by done.
  rewrite (show_step flux numflux xmin xmax nc nd nu dx wg Vf Vg Vu xu
             (plot_freq args) (Tf_arg args)) by done.
  rewrite Hpf, plot_due_zero. cbn [bind]. reflexivity.
Qed.

(** X14, the figure is a spectator (lines 118-121, 190-191): on a valid
    command line whose plot frequency is not zero, drawing never raises and
    has no effect on the computation: the script with its figure ends
    exactly as the script without it does. *)
Theorem X14_drawing_does_not_change_the_run (args : Args) (fuel : nat)
    (xg wg : vector) :
  ic args = "sod"%string -> (0 <= degree args)%Z -> (1 <= ncell args)%Z ->
  leggauss (degree args + 1) = (xg, wg) ->
  length xg = Z.to_nat (degree args + 1) ->
  length wg = Z.to_nat (degree args + 1) ->
  plot_freq args <> 0%Z ->
  exists (o : outcome) (fig : Figure),
    run args fuel = Ok o /\ run_shown args fuel = Ok (Some (Drawn o fig)).
Proof.
  intros Hic Hk Hnc Hleg Hxg Hwg Hpf.
  pose proof (main_plot_ok args) as Hshown. cbn zeta in Hshown.
  pose proof (main_ok shape_value shape_grad xmin xmax initial_condition flux
                numflux max_speed leggauss args) as Hmain.
  cbn zeta in Hmain.
  set (nc := Z.to_nat (ncell args)) in *.
  set (nd := Z.to_nat (degree args + 1)) in *.
  set (nu := Z.to_nat (Z.max 2 (degree args + 1))) in *.
  set (dx := (xmax - xmin) / IZR (ncell args)) in *.
  set (Vf := table shape_value nd xg) in *.
  set (Vg := table shape_grad nd xg) in *.
  set (xu := linspace (-1) 1 nu) in *.
  set (Vu := table shape_value nd xu) in *.
  set (σ0 := initial_sim xmin initial_condition max_speed nc nd dx xg wg Vf
                         (cfl_arg args / IZR (2 * degree args + 1))) in *.
  assert (well_shaped nc nd (arrays σ0)) as H0 by apply well_shaped_initial_sim.
  pose proof (shaped_table shape_value nd xg) as HVf. rewrite Hxg in HVf.
  pose proof (shaped_table shape_grad nd xg) as HVg. rewrite Hxg in HVg.
  pose proof (shaped_table shape_value nd xu) as HVu.
  unfold xu in HVu at 1. rewrite length_linspace in HVu.
  assert (1 <= nu)%nat as Hnu by (unfold nu; lia).
  assert (1 <= nc)%nat as Hnc' by (unfold nc; lia).
  destruct (show_refines flux numflux xmin xmax nc nd nu dx wg Vf Vg Vu xu
              (plot_freq args) (Tf_arg args) flux_shape Hwg HVf HVg HVu
              (length_linspace _ _ _) Hnu Hnc' fuel σ0
              (mkFigure (curves xmin dx Vu xu nc (rho1 (arrays σ0)))
                        (limits xmin xmax Vu nc (rho1 (arrays σ0))) None)
              Hpf H0 (length_curves _ _ _ _ _ _))
    as (o & fig & Hrun & Hshow & _).
  exists o, fig. split.
  - by rewrite (Hmain fuel xg wg).
  - rewrite (Hshown fuel xg wg) by done. fold Vf Vg. fold σ0.
    by rewrite Hshow.
Qed.

(** X15, the last picture (lines 82-94, 190-191): on a valid command line
    with a plot frequency that is not zero and a positive final time, a run
    that leaves the time loop leaves on the screen the curves
    [Vu.dot(rho1[i,:])] of the final density over the abscissae of
    [init_plot], with limits computed from the final density and the
    final time in the title, whether or not the last iteration number is
    a multiple of the plot frequency. *)
Theorem X15_last_picture_is_the_final_state (args : Args) (fuel : nat)
    (xg wg : vector) (σ : Sim) :
  ic args = "sod"%string -> (0 <= degree args)%Z -> (1 <= ncell args)%Z ->
  leggauss (degree args + 1) = (xg, wg) ->
  length xg = Z.to_nat (degree args + 1) ->
  length wg = Z.to_nat (degree args + 1) ->
  plot_freq args <> 0%Z -> 0 < Tf_arg args ->
  run args fuel = Ok (Completed σ) ->
  let nc := Z.to_nat (ncell args) in
  let nd := Z.to_nat (degree args + 1) in
  let nu := Z.to_nat (Z.max 2 (degree args + 1)) in
  let dx := (xmax - xmin) / IZR (ncell args) in
  let xu := linspace (-1) 1 nu in
  let Vu := table shape_value nd xu in
  run_shown args fuel
  = Ok (Some (Drawn (Completed σ)
                (mkFigure (curves xmin dx Vu xu nc (rho1 (arrays σ)))
                          (limits xmin xmax Vu nc (rho1 (arrays σ)))
                          (Some (Tf_arg args))))).
Proof.
  intros Hic Hk Hnc Hleg Hxg Hwg Hpf HTf Hrun nc nd nu dx xu Vu.
  pose proof (main_plot_ok args) as Hshown. cbn zeta in Hshown.
  pose proof (main_ok shape_value shape_grad xmin xmax initial_condition flux
                numflux max_speed leggauss args) as Hmain.
  cbn zeta in Hmain.
  fold nc nd nu dx xu Vu in Hshown, Hmain.
  set (Vf := table shape_value nd xg) in *.
  set (Vg := table shape_grad nd xg) in *.
  set (σ0 := initial_sim xmin initial_condition max_speed nc nd dx xg wg Vf
                         (cfl_arg args / IZR (2 * degree args + 1))) in *.
  assert (well_shaped nc nd (arrays σ0)) as H0 by apply well_shaped_initial_sim.
  pose proof (shaped_table shape_value nd xg) as HVf. rewrite Hxg in HVf.
  pose proof (shaped_table shape_grad nd xg) as HVg. rewrite Hxg in HVg.
  pose proof (shaped_table shape_value nd xu) as HVu.
  unfold xu in HVu at 1. rewrite length_linspace in HVu.
  assert (1 <= nu)%nat as Hnu by (unfold nu; lia).
  assert (1 <= nc)%nat as Hnc' by (unfold nc; lia).
  rewrite (Hmain fuel xg wg) in Hrun by done.
  rewrite (Hshown fuel xg wg) by done. fold Vf Vg. fold σ0.
  set (fig0 := mkFigure (curves xmin dx Vu xu nc (rho1 (arrays σ0)))
                        (limits xmin xmax Vu nc (rho1 (arrays σ0))) None).
  rewrite (show_final flux numflux xmin xmax nc nd nu dx wg Vf Vg Vu xu
             (plot_freq args) (Tf_arg args) flux_shape Hwg HVf HVg HVu
             (length_linspace _ _ _) Hnu Hnc' fuel σ0 σ fig0 fig0 Hpf H0
             (length_curves _ _ _ _ _ _) eq_refl HTf Hrun).
  cbn [bind]. unfold frame. cbn [lines fig0]. by rewrite redrawn_curves.
Qed.

End ShownScript.

Lemma X9_initial_figure_witness :
  shaped 2 1 [[1]; [3]] /\
  exists fig : Figure,
    init_plot 0 1 2 (1 / 2) Advection.Vu0 [-1; 1] [[1]; [3]] [] [] = Ok fig /\
    length (lines fig) = 2%nat /\ title_time fig = None.
Proof.
  assert (shaped 2 1 [[1]; [3]]) as Hrho
    by (split; [reflexivity|repeat constructor]).
  split; [exact Hrho|].
  destruct advection_tables_shaped as (_ & _ & _ & Hu).
  destruct (X9_initial_figure 0 1 2 1 2 (1 / 2) Advection.Vu0 [-1; 1] Hu
              eq_refl ltac:(lia) [[1]; [3]] [] [] Hrho)
    as (fig & Hfig & Hlen & Htitle & _).
  exists fig. split; [exact Hfig|]. split; [exact Hlen|exact Htitle].
Defined.

Lemma X10_redrawing_is_drawing_anew_witness :
  shaped 2 1 [[1]; [3]] /\ shaped 2 1 [[2]; [2]] /\
  exists fig0 fig fig' : Figure,
    init_plot 0 1 2 (1 / 2) Advection.Vu0 [-1; 1] [[1]; [3]] [] [] = Ok fig0 /\
    update_plot 0 1 2 (1 / 2) Advection.Vu0 [-1; 1] (lines fig0) 7 [[2]; [2]]
    = Ok fig /\
    init_plot 0 1 2 (1 / 2) Advection.Vu0 [-1; 1] [[2]; [2]] [] [] = Ok fig' /\
    lines fig = lines fig' /\ axis fig = axis fig' /\ title_time fig = Some 7.
Proof.
  assert (shaped 2 1 [[1]; [3]]) as Hrho
    by (split; [reflexivity|repeat constructor]).
  assert (shaped 2 1 [[2]; [2]]) as Hrho'
    by (split; [reflexivity|repeat constructor]).
  split; [exact Hrho|]. split; [exact Hrho'|].
  destruct advection_tables_shaped as (_ & _ & _ & Hu).
  exact (X10_redrawing_is_drawing_anew 0 1 2 1 2 (1 / 2) Advection.Vu0 [-1; 1]
           Hu eq_refl ltac:(lia) [[1]; [3]] [] [] [[2]; [2]] 7 Hrho Hrho').
Defined.

Lemma X11_update_needs_a_curve_per_cell_witness :
  shaped 2 1 [[1]; [3]] /\ (length (@nil Line) < 2)%nat /\
  update_plot 0 1 2 (1 / 2) Advection.Vu0 [-1; 1] [] 7 [[1]; [3]]
  = Raise IndexError.
Proof.
  assert (shaped 2 1 [[1]; [3]]) as Hrho
    by (split; [reflexivity|repeat constructor]).
  split; [exact Hrho|]. split; [cbn; lia|].
  destruct advection_tables_shaped as (_ & _ & _ & Hu).
  exact (X11_update_needs_a_curve_per_cell 0 1 2 1 2 (1 / 2) Advection.Vu0
           [-1; 1] Hu eq_refl ltac:(lia) [] 7 [[1]; [3]] Hrho
           ltac:(cbn; lia)).
Defined.

Lemma X12_curves_span_their_cells_witness :
  shaped 2 1 [[1]; [3]] /\
  exists (fig : Figure) (l : Line) (a b : R),
    init_plot 0 1 2 (1 / 2) Advection.Vu0 (linspace (-1) 1 2) [[1]; [3]] [] []
    = Ok fig /\
    lines fig !! 1%nat = Some l /\
    xdata l !! 0%nat = Some a /\ a = 0 + 1 * (1 / 2) /\
    xdata l !! 1%nat = Some b /\ b = 0 + 2 * (1 / 2).
Proof.
  assert (shaped 2 1 [[1]; [3]]) as Hrho
    by (split; [reflexivity|repeat constructor]).
  split; [exact Hrho|].
  destruct advection_tables_shaped as (_ & _ & _ & Hu).
  destruct (X12_curves_span_their_cells 0 1 2 1 2 (1 / 2) Advection.Vu0 Hu
              ltac:(lia) [[1]; [3]] [] [] Hrho) as (fig & Hfig & Hends).
  destruct (Hends 1%nat ltac:(lia))
    as (l & a & b & Hl & _ & _ & Ha & Ea & Hb & Eb & _).
  exists fig, l, a, b.
  split; [exact Hfig|]. split; [exact Hl|]. split; [exact Ha|].
  split; [exact Ea|]. split; [exact Hb|exact Eb].
Defined.

Lemma X13_zero_plot_frequency_stops_the_run_witness :
  plot_freq Commands.never_plot = 0%Z /\ 0 < Tf_arg Commands.never_plot /\
  exists (σ0 σ1 : Sim) (fig0 : Figure),
    time_step Advection.flux Advection.numflux 2 1
      ((Advection.xmax - Advection.xmin) / IZR 2) [2]
      (table Advection.shape_value 1 [0]) (table Advection.shape_grad 1 [0])
      (table Advection.shape_value 1 (linspace (-1) 1 2)) 1 σ0 = Ok σ1 /\
    it σ0 = 0%Z /\ it σ1 = 1%Z /\
    lines fig0
    = curves Advection.xmin ((Advection.xmax - Advection.xmin) / IZR 2)
             (table Advection.shape_value 1 (linspace (-1) 1 2))
             (linspace (-1) 1 2) 2 (rho1 (arrays σ0)) /\
    title_time fig0 = None /\
    main_plot Advection.shape_value Advection.shape_grad Advection.xmin
      Advection.xmax Advection.initial_condition Advection.flux
      Advection.numflux Advection.max_speed Advection.leggauss
      Commands.never_plot 3
    = Ok (Some (Raised ZeroDivisionError σ1 fig0)).
Proof.
  assert (0 < Tf_arg Commands.never_plot) as HTf by (cbn; lra).
  split; [reflexivity|]. split; [exact HTf|].
  destruct (X13_zero_plot_frequency_stops_the_run
              Advection.shape_value Advection.shape_grad
              Advection.xmin Advection.xmax Advection.initial_condition
              Advection.flux Advection.numflux Advection.max_speed
              Advection.leggauss advection_ic_vectorised
              advection_flux_elementwise Commands.never_plot [0] [2]
              eq_refl ltac:(cbn; lia) ltac:(cbn; lia) eq_refl eq_refl eq_refl
              eq_refl HTf)
    as (σ0 & σ1 & fig0 & Hstart & _ & Hfig & Hstep & _ & Hit & _ & Hrun).
  exists σ0, σ1, fig0.
  split; [exact Hstep|].
  split; [by injection Hstart as <-|].
  split; [exact Hit|].
  split; [by rewrite Hfig|]. split; [by rewrite Hfig|].
  exact (Hrun 2%nat).
Defined.

Lemma X14_drawing_does_not_change_the_run_witness :
  plot_freq Commands.seldom_plot <> 0%Z /\
  exists (o : outcome) (fig : Figure),
    main Advection.shape_value Advection.shape_grad Advection.xmin
      Advection.xmax Advection.initial_condition Advection.flux
      Advection.numflux Advection.max_speed Advection.leggauss
      Commands.seldom_plot 4 = Ok o /\
    main_plot Advection.shape_value Advection.shape_grad Advection.xmin
      Advection.xmax Advection.initial_condition Advection.flux
      Advection.numflux Advection.max_speed Advection.leggauss
      Commands.seldom_plot 4 = Ok (Some (Drawn o fig)).
Proof.
  assert (plot_freq Commands.seldom_plot <> 0%Z) as Hpf by (cbn; lia).
  split; [exact Hpf|].
  exact (X14_drawing_does_not_change_the_run
           Advection.shape_value Advection.shape_grad
           Advection.xmin Advection.xmax Advection.initial_condition
           Advection.flux Advection.numflux Advection.max_speed
           Advection.leggauss advection_ic_vectorised
           advection_flux_elementwise Commands.seldom_plot 4 [0] [2]
           eq_refl ltac:(cbn; lia) ltac:(cbn; lia) eq_refl eq_refl eq_refl
           Hpf).
Defined.

Lemma seldom_plot_run :
  exists σ : Sim,
    main Advection.shape_value Advection.shape_grad Advection.xmin
      Advection.xmax Advection.initial_condition Advection.flux
      Advection.numflux Advection.max_speed Advection.leggauss
      Commands.seldom_plot 4 = Ok (Completed σ).
Proof.
  pose proof (main_ok Advection.shape_value Advection.shape_grad
                Advection.xmin Advection.xmax Advection.initial_condition
                Advection.flux Advection.numflux Advection.max_speed
                Advection.leggauss Commands.seldom_plot 4 [0] [2]
                eq_refl ltac:(cbn; lia) ltac:(cbn; lia) eq_refl eq_refl eq_refl
                advection_ic_vectorised) as Hmain.
  cbn zeta in Hmain. rewrite Hmain. clear Hmain.
  change (Z.to_nat (ncell Commands.seldom_plot)) with 2%nat.
  change (Z.to_nat (degree Commands.seldom_plot + 1)) with 1%nat.
  change (Z.to_nat (Z.max 2 (degree Commands.seldom_plot + 1))) with 2%nat.
  set (σ0 := initial_sim _ _ _ _ _ _ _ _ _ _).
  set (Vf := table Advection.shape_value 1 [0]).
  set (Vg := table Advection.shape_grad 1 [0]).
  set (Vu := table Advection.shape_value 1 (linspace (-1) 1 2)).
  set (dx := (Advection.xmax - Advection.xmin) / IZR (ncell Commands.seldom_plot)).
  assert (well_shaped 2 1 (arrays σ0)) as H0 by apply well_shaped_initial_sim.
  assert (t σ0 = 0 /\ dt σ0 = 9 / 20) as (Ht0 & Hdt0).
  { unfold σ0, initial_sim, dx, Advection.max_speed, Advection.xmax,
      Advection.xmin.
    cbn [t dt it cfl_arg degree ncell Commands.seldom_plot]. split; [done|].
    change (IZR (2 * 0 + 1)) with 1. lra. }
  assert (shaped 1 1 Vf /\ shaped 1 1 Vg /\ shaped 2 1 Vu) as (HVf & HVg & HVu).
  { repeat split; repeat constructor. }
  destruct (loop_terminates_within Advection.flux Advection.numflux 2 1 2 dx
              [2] Vf Vg Vu (Tf_arg Commands.seldom_plot)
              advection_flux_elementwise eq_refl HVf HVg HVu
              ltac:(lia) ltac:(lia) 3 σ0 H0) as (σ & Hloop & _).
  - rewrite Hdt0. lra.
  - rewrite Ht0, Hdt0. cbn. lra.
  - by exists σ.
Qed.

Lemma X15_last_picture_is_the_final_state_witness :
  plot_freq Commands.seldom_plot <> 0%Z /\ 0 < Tf_arg Commands.seldom_plot /\
  exists σ : Sim,
    main Advection.shape_value Advection.shape_grad Advection.xmin
      Advection.xmax Advection.initial_condition Advection.flux
      Advection.numflux Advection.max_speed Advection.leggauss
      Commands.seldom_plot 4 = Ok (Completed σ) /\
    exists fig : Figure,
      main_plot Advection.shape_value Advection.shape_grad Advection.xmin
        Advection.xmax Advection.initial_condition Advection.flux
        Advection.numflux Advection.max_speed Advection.leggauss
        Commands.seldom_plot 4 = Ok (Some (Drawn (Completed σ) fig)) /\
      title_time fig = Some 1.
Proof.
  assert (plot_freq Commands.seldom_plot <> 0%Z) as Hpf by (cbn; lia).
  assert (0 < Tf_arg Commands.seldom_plot) as HTf by (cbn; lra).
  split; [exact Hpf|]. split; [exact HTf|].
  destruct seldom_plot_run as [σ Hrun].
  exists σ. split; [exact Hrun|].
  eexists. split.
  - exact (X15_last_picture_is_the_final_state
             Advection.shape_value Advection.shape_grad
             Advection.xmin Advection.xmax Advection.initial_condition
             Advection.flux Advection.numflux Advection.max_speed
             Advection.leggauss advection_ic_vectorised
             advection_flux_elementwise Commands.seldom_plot 4 [0] [2] σ
             eq_refl ltac:(cbn; lia) ltac:(cbn; lia) eq_refl eq_refl eq_refl
             Hpf HTf Hrun).
  - reflexivity.
Defined.

(** * Bounds and mass through one stage *)

(** X16, a stage is a convex combination (lines 8-9, 186-188): the three
    coefficients [ark] lie in [[0,1]] and [brk = 1 - ark], so whenever the
    step-start values and the forward-Euler values [u1 - lam*res] lie
    between two bounds, the values the stage stores lie between them too. *)
Theorem X16_stage_update_is_convex (rk : nat) (lam lo hi : R) (n m : nat)
    (u0 u1 res : matrix) :
  (rk < 3)%nat -> shaped n m u0 -> shaped n m u1 -> shaped n m res ->
  (forall i j : nat, (i < n)%nat -> (j < m)%nat -> lo <= entry u0 i j <= hi) ->
  (forall i j : nat, (i < n)%nat -> (j < m)%nat ->
     lo <= entry u1 i j - lam * entry res i j <= hi) ->
  exists v : matrix,
    rk_update (Z.of_nat rk) lam u0 u1 res = Ok v /\ shaped n m v /\
    forall i j : nat, (i < n)%nat -> (j < m)%nat -> lo <= entry v i j <= hi.
Proof.
  intros Hrk H0 H1 Hr Hb0 Hb1.
  exists (combine (ark !!! rk) (brk !!! rk) lam u0 u1 res).
  split; [by apply (rk_update_ok rk lam n m)|].
  split; [by apply shaped_combine|].
  intros i j Hi Hj. rewrite (combine_entry _ _ _ n m) by done.
  specialize (Hb0 i j Hi Hj). specialize (Hb1 i j Hi Hj).
  destruct rk as [|[|[|rk]]]; [| | |lia];
    cbn [ark brk map lookup_total list_lookup_total]; lra.
Qed.

Lemma X16_stage_update_is_convex_witness :
  exists v : matrix,
    rk_update 1 (1 / 2) [[1]; [3]] [[2]; [2]] [[0]; [1]] = Ok v /\
    forall i j : nat, (i < 2)%nat -> (j < 1)%nat -> 1 <= entry v i j <= 3.
Proof.
  assert (forall x y : R, shaped 2 1 [[x]; [y]]) as Hs
    by (intros x y; split; [reflexivity|repeat constructor]).
  destruct (X16_stage_update_is_convex 1 (1 / 2) 1 3 2 1 [[1]; [3]] [[2]; [2]]
              [[0]; [1]] ltac:(lia) (Hs _ _) (Hs _ _) (Hs _ _))
    as (v & Hv & _ & Hb).
  - intros [|[|i]] [|j] Hi Hj; try lia; cbn; lra.
  - intros [|[|i]] [|j] Hi Hj; try lia; cbn; lra.
  - exists v. split; [exact Hv|exact Hb].
Defined.

Section MassBalance.

Variable flux : vector -> vector -> vector -> vector * vector * vector.
Variable numflux : R * R * R -> R * R * R -> R * R * R.
Variables nc nd nu : nat.
Variable dx : R.
Variable wg : vector.
Variables Vf Vg Vu : matrix.
Variable c : vector.

Hypothesis flux_shape : elementwise_flux flux.
Hypothesis wg_shape : length wg = nd.
Hypothesis Vf_shape : shaped nd nd Vf.
Hypothesis Vg_shape : shaped nd nd Vg.
Hypothesis Vu_shape : shaped nu nd Vu.
Hypothesis nu_pos : (1 <= nu)%nat.
Hypothesis nc_pos : (1 <= nc)%nat.
Hypothesis c_shape : length c = nd.
Hypothesis Vf_orthonormal : orthonormal nd wg Vf.
Hypothesis Vf_one : reproduces_one c Vf.
Hypothesis Vu_one : reproduces_one c Vu.
Hypothesis Vg_flat : flat c Vg.

Local Abbreviation total := (total_integral dx wg Vf).

(** The total of the assembled density residual is what leaves through
    the right boundary minus what enters through the left one. *)
Lemma total_after_assemble (s : State) :
  well_shaped nc nd s ->
  total (resr (after_assemble flux numflux nc nd wg Vf Vg Vu s))
  = dx * ((numflux (edge_state Vu 0 s (nc - 1))
                   (edge_state Vu 0 s (nc - 1))).1.1
          - (numflux (edge_state Vu 0 s 0) (edge_state Vu 0 s 0)).1.1).
Proof.
  intros Hs. unfold after_assemble.
  set (s1 := after_volume flux nc nd wg Vf Vg s).
  set (s2 := after_first_face numflux Vu s1).
  set (s3 := after_interior_faces numflux nc Vu s2).
  assert (well_shaped nc nd s1) as H1
      by (by apply (well_shaped_after_volume flux nc nd wg Vf Vg)).
  assert (well_shaped nc nd s2) as H2
      by (by apply (well_shaped_after_first_face numflux nc nd nu)).
  assert (well_shaped nc nd s3) as H3
      by (by apply (well_shaped_after_interior_faces numflux nc nd nu)).
  rewrite (total_after_last_face numflux nc nd nu dx wg Vf Vu c) by done.
  destruct (total_after_interior_faces numflux nc nd nu dx wg Vf Vu c
              wg_shape Vf_shape Vu_shape nu_pos nc_pos c_shape
              Vf_orthonormal Vf_one Vu_one s2 H2) as [E3 _].
  fold s3 in E3. rewrite E3.
  unfold s2 at 1.
  rewrite (total_after_first_face numflux nc nd nu dx wg Vf Vu c) by done.
  assert (only_res_changed s s3) as Hframe.
  { eapply only_res_changed_trans; [|apply after_interior_faces_frame_from].
    eapply only_res_changed_trans; apply only_res_changed_set_res. }
  rewrite (edge_state_frame Vu 0 (nc - 1) s s3 Hframe).
  change (edge_state Vu 0 s1 0) with (edge_state Vu 0 s 0).
  change (resr s1) with (volume_rows flux nc nd wg Vf Vg (fun f => f.1.1) s).
  rewrite (total_volume_rows flux nc nd nu dx wg Vf Vg c); try done; [lra|].
  intros i. by destruct (cell_flux_shape flux nd Vf flux_shape Vf_shape s i).
Qed.

Lemma cell_integral_combine (a b lam : R) (x y z : vector) :
  length x = nd -> length y = nd -> length z = nd ->
  cell_integral wg Vf
    (zip_with Rplus (scale a x) (scale b (zip_with Rminus y (scale lam z))))
  = a * cell_integral wg Vf x
    + b * (cell_integral wg Vf y - lam * cell_integral wg Vf z).
Proof.
  intros Hx Hy Hz.
  rewrite !(cell_integral_2c nd wg Vf c) by
    (done || (rewrite ?length_zip_with, ?length_scale, ?length_zip_with,
                ?length_scale; lia)).
  rewrite dotp_plus_r
    by (rewrite !length_scale, length_zip_with, length_scale; lia).
  rewrite !dotp_scale_r, dotp_minus_r by (rewrite length_scale; lia).
  rewrite dotp_scale_r. ring.
Qed.

(** The domain integral passes through the stage update. *)
Lemma total_combine (a b lam : R) (u0 u1 res : matrix) :
  shaped nc nd u0 -> shaped nc nd u1 -> shaped nc nd res ->
  total (combine a b lam u0 u1 res)
  = a * total u0 + b * (total u1 - lam * total res).
Proof.
  intros [L0 S0] [L1 S1] [Lr Sr].
  assert (length u0 = length u1) as E1 by congruence.
  assert (length u1 = length res) as Er by congruence.
  clear L0 L1 Lr.
  unfold combine, scale2, total_integral, vsum.
  revert u1 res E1 Er S1 Sr.
  induction S0 as [|x u0 Hx _ IH]; intros [|y u1] [|z res] E1 Er S1 Sr;
    cbn in *; try lia; try lra.
  apply Forall_cons in S1 as [Hy S1]. apply Forall_cons in Sr as [Hz Sr].
  rewrite (IH u1 res) by (done || lia).
  rewrite cell_integral_combine by done. ring.
Qed.

(** X17, the mass balance of a stage (lines 136-188): with a basis that
    is orthonormal for the Gauss rule, contains the constants, and whose
    derivative table kills them, the domain integral of the density after
    stage [rk] is [a*M0 + (1-a)*(M1 - lam*dx*(fR - fL))], where [a] is
    [ark[rk]], [M0] and [M1] are the integrals of the step-start and of the
    current density, and [fL], [fR] are the density fluxes the first-face
    and last-face blocks compute: mass changes through the two boundary
    faces only. *)
Theorem X17_mass_balance_of_a_stage (lam : R) (rk : nat) (s : State) :
  (rk < 3)%nat -> well_shaped nc nd s ->
  let fl := numflux (edge_state Vu 0 s 0) (edge_state Vu 0 s 0) in
  let fr := numflux (edge_state Vu 0 s (nc - 1)) (edge_state Vu 0 s (nc - 1)) in
  exists s' : State,
    rk_stage flux numflux nc nd wg Vf Vg Vu lam (Z.of_nat rk) s = Ok s' /\
    total (rho1 s')
    = ark !!! rk * total (rho0 s)
      + (1 - ark !!! rk) * (total (rho1 s) - lam * (dx * (fr.1.1 - fl.1.1))).
Proof.
  intros Hrk Hs fl fr.
  exists (after_stage flux numflux nc nd wg Vf Vg Vu lam rk s).
  split; [by apply (rk_stage_ok flux numflux nc nd nu)|].
  unfold after_stage. cbn [rho1 set_u1].
  set (s' := after_assemble flux numflux nc nd wg Vf Vg Vu s).
  assert (well_shaped nc nd s') as (S0 & S1 & _ & _ & _ & _ & Sr & _)
    by (by apply (well_shaped_after_assemble flux numflux nc nd nu)).
  rewrite total_combine by done.
  pose proof (after_assemble_frame flux numflux nc nd wg Vf Vg Vu s) as Hframe.
  fold s' in Hframe.
  assert (rho0 s' = rho0 s /\ rho1 s' = rho1 s) as [-> ->]
    by (rewrite Hframe; done).
  unfold s'. rewrite total_after_assemble by done.
  by rewrite brk_ark.
Qed.

End MassBalance.

Lemma drift_state_shaped : well_shaped 2 1 (arrays Drift.sim0_value).
Proof.
  unfold well_shaped, shaped, Drift.sim0_value, Drift.zeros. cbn.
  repeat match goal with |- _ /\ _ => split end;
    try reflexivity; repeat constructor.
Qed.

Lemma X17_mass_balance_of_a_stage_witness :
  (1 < 3)%nat /\ well_shaped 2 1 (arrays Drift.sim0_value) /\
  let s := arrays Drift.sim0_value in
  let fl := Advection.numflux (edge_state Advection.Vu0 0 s 0)
                              (edge_state Advection.Vu0 0 s 0) in
  let fr := Advection.numflux (edge_state Advection.Vu0 0 s 1)
                              (edge_state Advection.Vu0 0 s 1) in
  exists s' : State,
    rk_stage Advection.flux Advection.numflux 2 1 Advection.wg0 Advection.Vf0
      Advection.Vg0 Advection.Vu0 (2 / 5) 1 s = Ok s' /\
    total_integral (1 / 2) Advection.wg0 Advection.Vf0 (rho1 s')
    = ark !!! 1%nat * total_integral (1 / 2) Advection.wg0 Advection.Vf0 (rho0 s)
      + (1 - ark !!! 1%nat)
        * (total_integral (1 / 2) Advection.wg0 Advection.Vf0 (rho1 s)
           - 2 / 5 * (1 / 2 * (fr.1.1 - fl.1.1))).
Proof.
  split; [lia|]. split; [exact drift_state_shaped|].
  destruct advection_tables_shaped as (Hw & Hf & Hg & Hu).
  destruct advection_orthonormal as (HO & H1 & H2 & H3).
  exact (X17_mass_balance_of_a_stage Advection.flux Advection.numflux 2 1 2
           (1 / 2) Advection.wg0 Advection.Vf0 Advection.Vg0 Advection.Vu0 [1]
           advection_flux_elementwise Hw Hf Hg Hu ltac:(lia) ltac:(lia)
           eq_refl HO H1 H2 H3 (2 / 5) 1 (arrays Drift.sim0_value)
           ltac:(lia) drift_state_shaped).
Defined.

(** * A constant initial condition on the screen *)

Lemma foldl_Rmin_replicate (a : R) (n : nat) : foldl Rmin a (replicate n a) = a.
Proof.
  induction n as [|n IH]; [done|]. cbn [replicate foldl].
  by rewrite Rmin_left by lra.
Qed.

Lemma foldl_Rmax_replicate (a : R) (n : nat) : foldl Rmax a (replicate n a) = a.
Proof.
  induction n as [|n IH]; [done|]. cbn [replicate foldl].
  by rewrite Rmax_left by lra.
Qed.

Lemma lowest_flat (Vu : matrix) (n nu : nat) (rho : matrix) (a : R) :
  (1 <= n)%nat -> (1 <= nu)%nat -> a <= 1e20 ->
  (forall i : nat, (i < n)%nat -> at_points Vu (rho !!! i) = replicate nu a) ->
  lowest Vu n rho = a.
Proof.
  intros Hn Hnu Ha. induction n as [|n IH]; [lia|]. intros Hflat.
  rewrite lowest_S, Hflat by lia.
  assert (smallest (replicate nu a) = a) as ->.
  { destruct nu as [|k]; [lia|]. cbn [replicate smallest].
    apply foldl_Rmin_replicate. }
  destruct n as [|n].
  - cbn. by apply Rmin_right.
  - rewrite IH; [by apply Rmin_left; lra|lia|]. intros i Hi. apply Hflat. lia.
Qed.

Lemma highest_flat (Vu : matrix) (n nu : nat) (rho : matrix) (a : R) :
  (1 <= n)%nat -> (1 <= nu)%nat -> -1e20 <= a ->
  (forall i : nat, (i < n)%nat -> at_points Vu (rho !!! i) = replicate nu a) ->
  highest Vu n rho = a.
Proof.
  intros Hn Hnu Ha. induction n as [|n IH]; [lia|]. intros Hflat.
  rewrite highest_S, Hflat by lia.
  assert (largest (replicate nu a) = a) as ->.
  { destruct nu as [|k]; [lia|]. cbn [replicate largest].
    apply foldl_Rmax_replicate. }
  destruct n as [|n].
  - cbn. by apply Rmax_right.
  - rewrite IH; [by apply Rmax_left; lra|lia|]. intros i Hi. apply Hflat. lia.
Qed.

Section ConstantFigure.

Variable shape_value : Z -> R -> R.
Variables xmin xmax : R.
Variable initial_condition : vector -> vector * vector * vector.
Variables nc nd nu : nat.
Variable dx : R.
Variables xg wg xu : vector.
Variable c : vector.

Hypothesis xg_shape : length xg = nd.
Hypothesis wg_shape : length wg = nd.
Hypothesis xu_shape : length xu = nu.
Hypothesis c_shape : length c = nd.
Hypothesis nc_pos : (1 <= nc)%nat.
Hypothesis nu_pos : (1 <= nu)%nat.
Hypothesis basis_orthonormal : orthonormal nd wg (table shape_value nd xg).
Hypothesis basis_one : forall x : R, dotp (basis_row shape_value nd x) c = 1.

Local Abbreviation Vf := (table shape_value nd xg).
Local Abbreviation Vu := (table shape_value nd xu).

(** X18, a constant initial condition on the screen (lines 64-79,
    108-120): for a basis that is orthonormal for the Gauss rule and whose
    span contains the constants, the projection of an initial condition
    with constant density [cr] is drawn by [init_plot] as one flat curve
    per cell, all ordinates equal to [cr], and the vertical limits are
    [cr-0.1] and [cr+0.1]. *)
Theorem X18_constant_density_is_drawn_flat (cr cm ce : R) :
  -1e20 <= cr <= 1e20 ->
  (forall x : vector,
     initial_condition x
     = (replicate (length x) cr, replicate (length x) cm,
        replicate (length x) ce)) ->
  exists (s : State) (fig : Figure),
    project xmin initial_condition nc nd dx xg wg Vf (zero_state nc nd) = Ok s /\
    init_plot xmin xmax nc dx Vu xu (rho1 s) (mom1 s) (ene1 s) = Ok fig /\
    (forall i : nat, (i < nc)%nat ->
       exists l : Line, lines fig !! i = Some l /\ ydata l = replicate nu cr) /\
    axis fig = (xmin, xmax, cr - 0.1, cr + 0.1).
Proof.
  intros Hcr Hic.
  assert (vectorised initial_condition) as Hvec.
  { intros x. rewrite Hic. cbn [fst snd]. by rewrite !length_replicate. }
  assert (shaped nd nd Vf) as HVf.
  { pose proof (shaped_table shape_value nd xg) as H. by rewrite xg_shape in H. }
  assert (shaped nu nd Vu) as HVu.
  { pose proof (shaped_table shape_value nd xu) as H. by rewrite xu_shape in H. }
  set (s := after_project xmin initial_condition nc nd dx xg wg Vf
                          (zero_state nc nd)).
  assert (well_shaped nc nd s) as (_ & Hrho & _)
    by (apply well_shaped_after_project, well_shaped_zero_state).
  assert (forall i : nat, (i < nc)%nat ->
            at_points Vu (rho1 s !!! i) = replicate nu cr) as Hflat.
  { intros i Hi.
    assert (rho1 s !!! i
            = map (Rmult 0.5) (moments wg Vf nd (replicate nd cr))) as ->.
    { apply list_lookup_total_correct. unfold s, after_project.
      cbn [rho1 set_u1]. rewrite lookup_projection_rows by done.
      rewrite Hic. cbn [fst]. unfold cell_points.
      by rewrite length_map, xg_shape. }
    rewrite <- xu_shape. unfold at_points, table. rewrite map_map.
    rewrite <- (map_const_replicate cr xu).
    apply map_ext. intros x. rewrite dotp_comm.
    rewrite (constant_row shape_value nd xg wg c) by
      (done || apply length_basis_row).
    rewrite (dotp_comm c), basis_one. lra. }
  exists s, (mkFigure (curves xmin dx Vu xu nc (rho1 s))
                      (limits xmin xmax Vu nc (rho1 s)) None).
  split.
  { apply project_ok; try done. apply well_shaped_zero_state. }
  split; [by apply (init_plot_ok xmin xmax nc nd nu)|].
  cbn [lines axis]. split.
  - intros i Hi. exists (curve xmin dx Vu xu (rho1 s) i).
    split; [by apply lookup_curves|]. cbn [ydata curve]. by apply Hflat.
  - unfold limits.
    rewrite (lowest_flat Vu nc nu (rho1 s) cr) by (done || lra).
    by rewrite (highest_flat Vu nc nu (rho1 s) cr) by (done || lra).
Qed.

End ConstantFigure.

Lemma X18_constant_density_is_drawn_flat_witness :
  -1e20 <= 1 <= 1e20 /\
  exists (s : State) (fig : Figure),
    project Advection.xmin Advection.initial_condition 2 2 (1 / 2)
            Advection.xg1 Advection.wg1
            (table Advection.shape_value 2 Advection.xg1) (zero_state 2 2)
    = Ok s /\
    init_plot Advection.xmin Advection.xmax 2 (1 / 2)
              (table Advection.shape_value 2 [-1; 1]) [-1; 1]
              (rho1 s) (mom1 s) (ene1 s) = Ok fig /\
    axis fig = (Advection.xmin, Advection.xmax, 1 - 0.1, 1 + 0.1).
Proof.
  assert (-1e20 <= 1 <= 1e20) as Hcr by lra.
  split; [exact Hcr|].
  destruct (X18_constant_density_is_drawn_flat
              Advection.shape_value Advection.xmin Advection.xmax
              Advection.initial_condition 2 2 2 (1 / 2)
              Advection.xg1 Advection.wg1 [-1; 1] [1; 0]
              eq_refl eq_refl eq_refl eq_refl ltac:(lia) ltac:(lia)
              legendre_orthonormal legendre_constants 1 0 2.5 Hcr
              ltac:(intros x; unfold Advection.initial_condition;
                    by rewrite !map_const_replicate))
    as (s & fig & Hproj & Hfig & _ & Haxis).
  exists s, fig. split; [exact Hproj|]. split; [exact Hfig|exact Haxis].
Defined.

(** * The residual of a cell reads its neighbours only *)

Lemma edge_state_same_row (Vu : matrix) (e i : nat) (s s' : State) :
  rho1 s !!! i = rho1 s' !!! i -> mom1 s !!! i = mom1 s' !!! i ->
  ene1 s !!! i = ene1 s' !!! i ->
  edge_state Vu e s i = edge_state Vu e s' i.
Proof. intros Hr Hm He. unfold edge_state, edge. by rewrite Hr, Hm, He. Qed.

Section Locality.

Variable flux : vector -> vector -> vector -> vector * vector * vector.
Variable numflux : R * R * R -> R * R * R -> R * R * R.
Variables nc nd nu : nat.
Variable wg : vector.
Variables Vf Vg Vu : matrix.

Hypothesis flux_shape : elementwise_flux flux.
Hypothesis wg_shape : length wg = nd.
Hypothesis Vf_shape : shaped nd nd Vf.
Hypothesis Vg_shape : shaped nd nd Vg.
Hypothesis Vu_shape : shaped nu nd Vu.
Hypothesis nu_pos : (1 <= nu)%nat.
Hypothesis nc_pos : (1 <= nc)%nat.

Lemma near_fluxes (s s' : State) (r : nat) :
  same_near r s s' ->
  cell_flux flux Vf s r = cell_flux flux Vf s' r /\
  inflow numflux Vu s r = inflow numflux Vu s' r /\
  outflow numflux nc Vu s r = outflow numflux nc Vu s' r.
Proof.
  intros Hnear.
  assert (forall (e i : nat), (r - 1 <= i <= r + 1)%nat ->
            edge_state Vu e s i = edge_state Vu e s' i) as Hedge.
  { intros e i Hi. destruct (Hnear i Hi) as (Hr & Hm & He).
    by apply edge_state_same_row. }
  split; [|split].
  - unfold cell_flux. destruct (Hnear r ltac:(lia)) as (-> & -> & ->). done.
  - unfold inflow, interior_flux. case_decide.
    + by rewrite (Hedge 0%nat 0%nat) by lia.
    + by rewrite (Hedge _ (r - 1)%nat), (Hedge 0%nat r) by lia.
  - unfold outflow, interior_flux. case_decide.
    + by rewrite (Hedge 0%nat (nc - 1)%nat) by lia.
    + by rewrite (Hedge _ (r + 1 - 1)%nat), (Hedge 0%nat (r + 1)%nat) by lia.
Qed.

(** X19, the stencil of the residual (lines 136-184): the residual that
    a stage assembles in cell [r] is a function of the working fields in
    the cells [r-1], [r] and [r+1] only: two states that agree there get
    the same residual in cell [r], whatever they hold elsewhere. *)
Theorem X19_residual_reads_neighbours_only (s s' : State) (r : nat) :
  well_shaped nc nd s -> well_shaped nc nd s' -> (r < nc)%nat ->
  same_near r s s' ->
  exists a a' : State,
    assemble flux numflux nc nd wg Vf Vg Vu s = Ok a /\
    assemble flux numflux nc nd wg Vf Vg Vu s' = Ok a' /\
    resr a !!! r = resr a' !!! r /\ resm a !!! r = resm a' !!! r /\
    rese a !!! r = rese a' !!! r.
Proof.
  intros Hs Hs' Hr Hnear.
  exists (after_assemble flux numflux nc nd wg Vf Vg Vu s),
         (after_assemble flux numflux nc nd wg Vf Vg Vu s').
  split; [by apply (assemble_ok flux numflux nc nd nu)|].
  split; [by apply (assemble_ok flux numflux nc nd nu)|].
  destruct (after_assemble_rows flux numflux nc nd nu wg Vf Vg Vu
              Vu_shape nu_pos nc_pos s r Hr) as (Er & Em & Ee).
  destruct (after_assemble_rows flux numflux nc nd nu wg Vf Vg Vu
              Vu_shape nu_pos nc_pos s' r Hr) as (Er' & Em' & Ee').
  destruct (near_fluxes s s' r Hnear) as (Hc & Hi & Ho).
  rewrite Er, Em, Ee, Er', Em', Ee', Hc, Hi, Ho. done.
Qed.

End Locality.

Lemma X19_residual_reads_neighbours_only_witness :
  well_shaped 3 1 Bump.left /\ well_shaped 3 1 Bump.right /\
  same_near 0 Bump.left Bump.right /\
  exists a a' : State,
    assemble Advection.flux Advection.numflux 3 1 Advection.wg0 Advection.Vf0
             Advection.Vg0 Advection.Vu0 Bump.left = Ok a /\
    assemble Advection.flux Advection.numflux 3 1 Advection.wg0 Advection.Vf0
             Advection.Vg0 Advection.Vu0 Bump.right = Ok a' /\
    resr a !!! 0%nat = resr a' !!! 0%nat.
Proof.
  assert (well_shaped 3 1 Bump.left /\ well_shaped 3 1 Bump.right) as [Hl Hr].
  { split; unfold well_shaped, shaped, Bump.left, Bump.right; cbn;
      repeat match goal with |- _ /\ _ => split end;
      try reflexivity; repeat constructor. }
  assert (same_near 0 Bump.left Bump.right) as Hnear.
  { intros [|[|i]] Hi; [| |lia]; repeat split; reflexivity. }
  split; [exact Hl|]. split; [exact Hr|]. split; [exact Hnear|].
  destruct advection_tables_shaped as (Hw & Hf & Hg & Hu).
  destruct (X19_residual_reads_neighbours_only Advection.flux
              Advection.numflux 3 1 2 Advection.wg0 Advection.Vf0
              Advection.Vg0 Advection.Vu0 advection_flux_elementwise Hw Hf Hg
              Hu ltac:(lia) ltac:(lia) Bump.left Bump.right 0 Hl Hr
              ltac:(lia) Hnear) as (a & a' & Ha & Ha' & Hres & _).
  exists a, a'. split; [exact Ha|]. split; [exact Ha'|exact Hres].
Defined.

(** * Drawing after every pass *)

Section PlotFollows.

Variable flux : vector -> vector -> vector -> vector * vector * vector.
Variable numflux : R * R * R -> R * R * R -> R * R * R.
Variables xmin xmax : R.
Variables nc nd nu : nat.
Variable dx : R.
Variable wg : vector.
Variables Vf Vg Vu : matrix.
Variable xu : vector.
Variable Tf : R.

Hypothesis flux_shape : elementwise_flux flux.
Hypothesis wg_shape : length wg = nd.
Hypothesis Vf_shape : shaped nd nd Vf.
Hypothesis Vg_shape : shaped nd nd Vg.
Hypothesis Vu_shape : shaped nu nd Vu.
Hypothesis xu_shape : length xu = nu.
Hypothesis nu_pos : (1 <= nu)%nat.
Hypothesis nc_pos : (1 <= nc)%nat.

Local Abbreviation next := (after_step flux numflux nc nd dx wg Vf Vg Vu Tf).
Local Abbreviation show :=
  (time_loop_plot flux numflux xmin xmax nc nd dx wg Vf Vg Vu xu 1 Tf).
Local Abbreviation redraw := (frame xmin xmax Vu nc).

(** With a plot frequency of one the figure is redrawn after every pass:
    whenever the loop stands or ends, the figure is the one handed in, if
    no pass was made, or else the picture of the state reached. *)
Lemma show_follows (fuel : nat) (σ : Sim) (fig0 fig : Figure) :
  well_shaped nc nd (arrays σ) -> length (lines fig) = nc ->
  map xdata (lines fig) = map xdata (lines fig0) ->
  exists (σ' : Sim) (fig' : Figure),
    (show fuel σ fig = Ok (Drawn (Running σ') fig') \/
     show fuel σ fig = Ok (Drawn (Completed σ') fig')) /\
    ((σ' = σ /\ fig' = fig) \/
     fig' = redraw (lines fig0) (t σ') (rho1 (arrays σ'))).
Proof.
  revert σ fig. induction fuel as [|fuel IH]; intros σ fig Hs Hl Hx.
  - exists σ, fig. split; [|by left]. cbn.
    destruct (Rlt_dec (t σ) Tf); auto.
  - destruct (Rlt_dec (t σ) Tf) as [Hlt|Hge].
    2:{ exists σ, fig. split; [|by left]. right.
        by apply (show_done flux numflux xmin xmax nc nd dx wg Vf Vg Vu xu). }
    assert (well_shaped nc nd (arrays (next σ))) as Hs'
      by (by apply (next_well_shaped flux numflux nc nd nu)).
    rewrite (show_step flux numflux xmin xmax nc nd nu dx wg Vf Vg Vu xu 1 Tf)
      by done.
    rewrite plot_due_multiple by (done || apply Z.mod_1_r).
    rewrite (update_plot_ok xmin xmax nc nd nu dx Vu xu Vu_shape xu_shape
               nu_pos) by (done || apply Hs').
    cbn [bind]. fold (redraw (lines fig) (t (next σ)) (rho1 (arrays (next σ)))).
    destruct (IH (next σ) (redraw (lines fig) (t (next σ))
                                  (rho1 (arrays (next σ)))) Hs')
      as (σ' & fig' & Hrun & Hfig).
    { cbn [lines frame]. by rewrite length_redrawn. }
    { cbn [lines frame]. by rewrite xdata_redrawn. }
    exists σ', fig'. split; [exact Hrun|]. right.
    destruct Hfig as [[-> ->]|Hfig]; [|exact Hfig].
    unfold frame. by rewrite (redrawn_ext Vu _ _ _ Hx).
Qed.

End PlotFollows.

Section FollowedScript.

Variables shape_value shape_grad : Z -> R -> R.
Variables xmin xmax : R.
Variable initial_condition : vector -> vector * vector * vector.
Variable flux : vector -> vector -> vector -> vector * vector * vector.
Variable numflux : R * R * R -> R * R * R -> R * R * R.
Variable max_speed : matrix -> matrix -> matrix -> R.
Variable leggauss : Z -> vector * vector.

Hypothesis ic_shape : vectorised initial_condition.
Hypothesis flux_shape : elementwise_flux flux.

Local Abbreviation run_shown :=
  (main_plot shape_value shape_grad xmin xmax initial_condition flux numflux
             max_speed leggauss).

(** X20, the default plot frequency (lines 18, 64-94, 190-191): with
    [-plot_freq 1] on a valid command line the figure follows the
    computation pass by pass: whenever the time loop stands or has ended,
    the curves and the limits on the screen are those of the density just
    computed, and the title carries its time (or, before the first pass,
    'Initial condition'). *)
Theorem X20_figure_follows_every_step (args : Args) (fuel : nat)
    (xg wg : vector) :
  ic args = "sod"%string -> (0 <= degree args)%Z -> (1 <= ncell args)%Z ->
  leggauss (degree args + 1) = (xg, wg) ->
  length xg = Z.to_nat (degree args + 1) ->
  length wg = Z.to_nat (degree args + 1) ->
  plot_freq args = 1%Z ->
  let nc := Z.to_nat (ncell args) in
  let nd := Z.to_nat (degree args + 1) in
  let nu := Z.to_nat (Z.max 2 (degree args + 1)) in
  let dx := (xmax - xmin) / IZR (ncell args) in
  let xu := linspace (-1) 1 nu in
  let Vu := table shape_value nd xu in
  exists (σ : Sim) (fig : Figure),
    (run_shown args fuel = Ok (Some (Drawn (Running σ) fig)) \/
     run_shown args fuel = Ok (Some (Drawn (Completed σ) fig))) /\
    lines fig = curves xmin dx Vu xu nc (rho1 (arrays σ)) /\
    axis fig = limits xmin xmax Vu nc (rho1 (arrays σ)) /\
    ((title_time fig = None /\ it σ = 0%Z) \/ title_time fig = Some (t σ)).
Proof.
  intros Hic Hk Hnc Hleg Hxg Hwg Hpf nc nd nu dx xu Vu.
  pose proof (main_plot_ok shape_value shape_grad xmin xmax initial_condition
                flux numflux max_speed leggauss args) as Hshown.
  cbn zeta in Hshown. fold nc nd nu dx xu Vu in Hshown.
  set (Vf := table shape_value nd xg) in *.
  set (Vg := table shape_grad nd xg) in *.
  set (σ0 := initial_sim xmin initial_condition max_speed nc nd dx xg wg Vf
                         (cfl_arg args / IZR (2 * degree args + 1))) in *.
  assert (well_shaped nc nd (arrays σ0)) as H0 by apply well_shaped_initial_sim.
  pose proof (shaped_table shape_value nd xg) as HVf. rewrite Hxg in HVf.
  pose proof (shaped_table shape_grad nd xg) as HVg. rewrite Hxg in HVg.
  pose proof (shaped_table shape_value nd xu) as HVu.
  unfold xu in HVu at 1. rewrite length_linspace in HVu.
  assert (1 <= nu)%nat as Hnu by (unfold nu; lia).
  assert (1 <= nc)%nat as Hnc' by (unfold nc; lia).
  set (fig0 := mkFigure (curves xmin dx Vu xu nc (rho1 (arrays σ0)))
                        (limits xmin xmax Vu nc (rho1 (arrays σ0))) None).
  destruct (show_follows flux numflux xmin xmax nc nd nu dx wg Vf Vg Vu xu
              (Tf_arg args) flux_shape Hwg HVf HVg HVu (length_linspace _ _ _)
              Hnu Hnc' fuel σ0 fig0 fig0 H0 (length_curves _ _ _ _ _ _) eq_refl)
    as (σ & fig & Hrun & Hfig).
  exists σ, fig. split.
  { rewrite (Hshown fuel xg wg) by done. fold Vf Vg. fold σ0. fold fig0.
    rewrite Hpf. by destruct Hrun as [-> | ->]; [left|right]. }
  destruct Hfig as [[-> ->]| ->].
  - split; [done|]. split; [done|]. by left.
  - cbn [lines axis title_time frame fig0].
    split; [apply redrawn_curves|]. split; [done|]. by right.
Qed.

End FollowedScript.

Lemma X20_figure_follows_every_step_witness :
  plot_freq Commands.plain = 1%Z /\
  exists (σ : Sim) (fig : Figure),
    (main_plot Advection.shape_value Advection.shape_grad Advection.xmin
       Advection.xmax Advection.initial_condition Advection.flux
       Advection.numflux Advection.max_speed Advection.leggauss
       Commands.plain 2 = Ok (Some (Drawn (Running σ) fig)) \/
     main_plot Advection.shape_value Advection.shape_grad Advection.xmin
       Advection.xmax Advection.initial_condition Advection.flux
       Advection.numflux Advection.max_speed Advection.leggauss
       Commands.plain 2 = Ok (Some (Drawn (Completed σ) fig))) /\
    ((title_time fig = None /\ it σ = 0%Z) \/ title_time fig = Some (t σ)).
Proof.
  split; [reflexivity|].
  destruct (X20_figure_follows_every_step
              Advection.shape_value Advection.shape_grad
              Advection.xmin Advection.xmax Advection.initial_condition
              Advection.flux Advection.numflux Advection.max_speed
              Advection.leggauss advection_ic_vectorised
              advection_flux_elementwise Commands.plain 2 [0] [2]
              eq_refl ltac:(cbn; lia) ltac:(cbn; lia) eq_refl eq_refl eq_refl
              eq_refl) as (σ & fig & Hrun & _ & _ & Htitle).
  exists σ, fig. split; [exact Hrun|exact Htitle].
Defined.
